(** * The PyTorch notebook of cs231n assignment 2: samplers, layer shapes,
      the training loop and the accuracy check.

    The notebook is glue code over an external framework.  Everything the
    notebook itself writes (ChunkSampler, Flatten, the layer lists, [train],
    [check_accuracy], the cells that wire models to optimizers) is embedded
    below as executable definitions; the framework's numerical kernels
    (forward pass, loss, gradients, parameter update) are a record of
    uninterpreted operations that may fail. *)

From Stdlib Require Import ZArith QArith Qabs Qpower Lqa String Ascii DecimalString.
From stdpp Require Import gmap list.

Local Open Scope nat_scope.
Local Open Scope list_scope.

(** ** Samplers and index batches (cell 5) *)

(** Python's [range(a, b)]: the integers from [a] up to but excluding [b],
    none when [b <= a]. *)
Fixpoint count_from (a : Z) (n : nat) : list Z :=
  match n with
  | O => []
  | S n' => a :: count_from (a + 1) n'
  end.

Definition range (a b : Z) : list Z := count_from a (Z.to_nat (b - a)).

(** [class ChunkSampler]: both fields are Python integers. *)
Record ChunkSampler := mkChunkSampler { num_samples : Z; start : Z }.

Definition ChunkSampler_iter (self : ChunkSampler) : list Z :=
  range (start self) (start self + num_samples self).

Definition ChunkSampler_len (self : ChunkSampler) : Z := num_samples self.

Definition NUM_TRAIN : Z := 49000.
Definition NUM_VAL : Z := 1000.

Definition sampler_train : ChunkSampler := mkChunkSampler NUM_TRAIN 0.
Definition sampler_val : ChunkSampler := mkChunkSampler NUM_VAL NUM_TRAIN.

(** The framework's batch sampler, as the DataLoader uses it with
    [drop_last=False]: indices are appended to the current batch, a batch is
    yielded when it holds [batch_size] indices, and a final short batch is
    yielded if it is not empty.  [cur] holds the current batch in reverse. *)
Fixpoint BatchSampler_go (batch_size : nat) (cur : list Z) (idxs : list Z)
  : list (list Z) :=
  match idxs with
  | [] => match cur with [] => [] | _ => [rev cur] end
  | i :: idxs' =>
      if length (i :: cur) =? batch_size
      then rev (i :: cur) :: BatchSampler_go batch_size [] idxs'
      else BatchSampler_go batch_size (i :: cur) idxs'
  end.

Definition BatchSampler_iter (batch_size : nat) (idxs : list Z) : list (list Z) :=
  BatchSampler_go batch_size [] idxs.

(** The index batches of [loader_train] and [loader_val]: both loaders are
    built with [batch_size=64] and a ChunkSampler, and without [shuffle]. *)
Definition loader_train_batches : list (list Z) :=
  BatchSampler_iter 64 (ChunkSampler_iter sampler_train).
Definition loader_val_batches : list (list Z) :=
  BatchSampler_iter 64 (ChunkSampler_iter sampler_val).

(** An order is sequential when each yielded index is the successor of the
    one before it; it is shuffled when it is not sequential. *)
Definition sequential_order (l : list Z) : Prop :=
  forall i a b, l !! i = Some a -> l !! (S i) = Some b -> b = (a + 1)%Z.
Definition shuffled_order (l : list Z) : Prop := ~ sequential_order l.


(** ** Exceptions and results *)

(** A Python exception: its class and its message. *)
Inductive exn := Exn (cls : string) (msg : string).

Inductive result (A : Type) := Ok (a : A) | Raise (e : exn).
Arguments Ok {A} a.
Arguments Raise {A} e.

Definition ValueError (msg : string) : exn := Exn "ValueError" msg.
Definition TypeError (msg : string) : exn := Exn "TypeError" msg.
Definition RuntimeError (msg : string) : exn := Exn "RuntimeError" msg.
Definition IndexError (msg : string) : exn := Exn "IndexError" msg.
Definition OverflowError (msg : string) : exn := Exn "OverflowError" msg.
Definition ZeroDivisionError : exn := Exn "ZeroDivisionError" "float division by zero".

Definition rbind {A B} (r : result A) (k : A -> result B) : result B :=
  match r with Ok a => k a | Raise e => Raise e end.

(** ** Tensors and Flatten (cell 9) *)

(** A tensor: its size, its strides, the position of its first element in
    its storage, and the storage.  The element at a multi-index is the one
    at [storage_offset + sum of index * stride]; a tensor that was
    transposed, sliced or expanded shares its storage under other strides. *)
Record Tensor (A : Type) := mkTensor {
  size : list Z;
  stride : list Z;
  storage_offset : Z;
  storage : list A
}.
Arguments mkTensor {A} size stride storage_offset storage.
Arguments size {A} t.
Arguments stride {A} t.
Arguments storage_offset {A} t.
Arguments storage {A} t.

Definition prod_dims (dims : list Z) : Z := fold_right Z.mul 1%Z dims.

Definition numel {A} (x : Tensor A) : Z := prod_dims (size x).

(** The strides of a contiguous tensor of the given size: row-major, a
    dimension of size 0 counting as 1. *)
Fixpoint contiguous_strides (dims : list Z) : list Z :=
  match dims with
  | [] => []
  | _ :: dims' =>
      fold_right (fun d acc => (Z.max d 1 * acc)%Z) 1%Z dims' :: contiguous_strides dims'
  end.

(** The position in the storage of the element at a multi-index, [None]
    when an index is out of range or the number of indices is not the number
    of dimensions. *)
Fixpoint offset (acc : Z) (dims strides idx : list Z) : option Z :=
  match dims, strides, idx with
  | [], [], [] => Some acc
  | d :: dims', s :: strides', i :: idx' =>
      if ((0 <=? i) && (i <? d))%Z then offset (acc + i * s) dims' strides' idx' else None
  | _, _, _ => None
  end.

Definition get {A} (x : Tensor A) (idx : list Z) : option A :=
  match offset (storage_offset x) (size x) (stride x) idx with
  | Some o => if (0 <=? o)%Z then storage x !! Z.to_nat o else None
  | None => None
  end.

(** Every multi-index within the size addresses an element of the storage. *)
Definition well_formed {A} (x : Tensor A) : Prop :=
  Forall (fun d => (0 <= d)%Z) (size x) /\
  length (stride x) = length (size x) /\
  forall idx o,
    offset (storage_offset x) (size x) (stride x) idx = Some o ->
    (0 <= o < Z.of_nat (length (storage x)))%Z.

(** The framework's size inference for [view].  It scans the requested
    shape once: [-1] may occur once, other dimensions must not be negative.
    The dimension [-1] is inferred from the number of elements; it is
    ambiguous when the other dimensions multiply to 0. *)
Fixpoint infer_scan (shape : list Z) (newsize : Z) (infer_dim : bool)
  : result (Z * bool) :=
  match shape with
  | [] => Ok (newsize, infer_dim)
  | d :: shape' =>
      if (d =? -1)%Z then
        if infer_dim then Raise (RuntimeError "only one dimension can be inferred")
        else infer_scan shape' newsize true
      else if (0 <=? d)%Z then infer_scan shape' (newsize * d)%Z infer_dim
      else Raise (RuntimeError "invalid shape dimension")
  end.

Definition infer_size (numel : Z) (shape : list Z) : result (list Z) :=
  rbind (infer_scan shape 1 false) (fun scanned =>
  let newsize := fst scanned in
  let infer_dim := snd scanned in
  if ((numel =? newsize) || (infer_dim && (0 <? newsize) && (numel mod newsize =? 0)))%Z
  then
    if infer_dim then
      if (newsize =? 0)%Z then
        Raise (RuntimeError "cannot reshape tensor of 0 elements: the unspecified dimension is ambiguous")
      else Ok (map (fun d => if (d =? -1)%Z then (numel / newsize)%Z else d) shape)
    else Ok shape
  else Raise (RuntimeError "shape is invalid for input size")).

(** The framework's strides for a view.  The dimensions of the tensor are
    scanned from the last one and gathered into chunks: a dimension joins the
    chunk of the one after it when its stride continues it (or its size is
    1).  At the end of a chunk the dimensions of the view are taken, from the
    last one, until they hold as many elements as the chunk; the view is
    possible when every chunk is matched exactly. *)
Fixpoint view_chunk (tensor_numel base : Z) (view : list Z) (view_numel : Z)
    (acc : list Z) : list Z * Z * list Z :=
  match view with
  | d :: view' =>
      if ((view_numel <? tensor_numel) || (d =? 1))%Z
      then view_chunk tensor_numel base view' (view_numel * d)%Z
                      ((view_numel * base)%Z :: acc)
      else (view, view_numel, acc)
  | [] => ([], view_numel, acc)
  end.

(** [old] holds the size and stride of each dimension, [view] the size of
    each dimension of the view, both from the last one; [acc] are the strides
    of the view found so far. *)
Fixpoint compute_stride_go (old : list (Z * Z)) (base tensor_numel : Z)
    (view : list Z) (acc : list Z) : option (list Z) :=
  match old with
  | [] => match view with [] => Some acc | _ => None end
  | (d, _) :: old' =>
      let tensor_numel := (tensor_numel * d)%Z in
      let chunk_ends :=
        match old' with
        | [] => true
        | (d', s') :: _ => negb (d' =? 1)%Z && negb (s' =? tensor_numel * base)%Z
        end in
      if chunk_ends then
        match view_chunk tensor_numel base view 1 acc with
        | (view', view_numel, acc') =>
            if (view_numel =? tensor_numel)%Z then
              compute_stride_go old'
                (match old' with (_, s') :: _ => s' | [] => base end) 1 view' acc'
            else None
        end
      else compute_stride_go old' base tensor_numel view acc
  end.

Definition same_size (a b : list Z) : bool :=
  (length a =? length b) && forallb (fun p => (fst p =? snd p)%Z) (zip a b).

Definition compute_stride (oldsize oldstride newsize : list Z) : option (list Z) :=
  match oldsize with
  | [] => Some (map (fun _ => 1%Z) newsize)
  | _ =>
      if (prod_dims oldsize =? 0)%Z then
        if same_size oldsize newsize then Some oldstride
        else Some (contiguous_strides newsize)
      else compute_stride_go (rev (zip oldsize oldstride)) (List.last oldstride 1%Z) 1
                             (rev newsize) []
  end.

(** [x.view(shape)]: the same storage under a new size, when the strides
    allow it. *)
Definition view {A} (x : Tensor A) (shape : list Z) : result (Tensor A) :=
  rbind (infer_size (numel x) shape) (fun sz =>
  match compute_stride (size x) (stride x) sz with
  | Some st => Ok (mkTensor sz st (storage_offset x) (storage x))
  | None =>
      Raise (RuntimeError "view size is not compatible with input tensor's size and stride")
  end).

(** [Flatten.forward]:
      N, C, H, W = x.size()
      return x.view(N, -1) *)
Definition Flatten_forward {A} (x : Tensor A) : result (Tensor A) :=
  match size x with
  | [N; C; H; W] => view x [N; (-1)%Z]
  | _ => Raise (ValueError "wrong number of values to unpack")
  end.

(** ** Layer configurations and their sizes (cells 11, 14, 35) *)

Inductive Layer :=
| Conv2d (in_channels out_channels kernel_size stride padding : Z)
| ReLU
| BatchNorm2d (num_features : Z)
| MaxPool2d (kernel_size stride : Z)
| Flatten
| Linear (in_features out_features : Z).

(** The spatial output extent of a convolution or pooling window. *)
Definition window_out (extent kernel_size stride padding : Z) : Z :=
  ((extent + 2 * padding - kernel_size) / stride + 1)%Z.

(** The size a layer produces from the size of its input, as the framework
    computes it; a layer raises when its input does not fit its
    configuration.  Flatten is the notebook's own: the size of
    [Flatten_forward]. *)
Definition layer_out (l : Layer) (sz : list Z) : result (list Z) :=
  match l, sz with
  | Conv2d cin cout k s p, [N; C; H; W] =>
      if negb (C =? cin)%Z then Raise (RuntimeError "input channels do not match the weight")
      else if ((H + 2 * p <? k) || (W + 2 * p <? k))%Z
      then Raise (RuntimeError "kernel size cannot be greater than the input size")
      else Ok [N; cout; window_out H k s p; window_out W k s p]
  | Conv2d _ _ _ _ _, _ => Raise (RuntimeError "expected 4D input")
  | ReLU, _ => Ok sz
  | BatchNorm2d f, [N; C; H; W] =>
      if (C =? f)%Z then Ok sz else Raise (RuntimeError "running_mean should contain C elements")
  | BatchNorm2d _, _ => Raise (ValueError "expected 4D input")
  | MaxPool2d k s, [N; C; H; W] =>
      if ((H <? k) || (W <? k))%Z then Raise (RuntimeError "output size is too small")
      else Ok [N; C; window_out H k s 0; window_out W k s 0]
  | MaxPool2d _ _, _ => Raise (RuntimeError "expected 4D input")
  | Flatten, [N; C; H; W] => infer_size (prod_dims sz) [N; (-1)%Z]
  | Flatten, _ => Raise (ValueError "wrong number of values to unpack")
  | Linear fin fout, [N; D] =>
      if (D =? fin)%Z then Ok [N; fout] else Raise (RuntimeError "size mismatch")
  | Linear _ _, _ => Raise (RuntimeError "size mismatch")
  end.

(** [nn.Sequential]: each layer is applied to the output of the one before. *)
Fixpoint Sequential_out (layers : list Layer) (sz : list Z) : result (list Z) :=
  match layers with
  | [] => Ok sz
  | l :: layers' => rbind (layer_out l sz) (Sequential_out layers')
  end.

(** The sizes after each layer, while they fit. *)
Fixpoint Sequential_sizes (layers : list Layer) (sz : list Z) : list (list Z) :=
  match layers with
  | [] => []
  | l :: layers' =>
      match layer_out l sz with
      | Ok sz' => sz' :: Sequential_sizes layers' sz'
      | Raise _ => []
      end
  end.

Definition simple_model_layers : list Layer :=
  [ Conv2d 3 32 7 2 0; ReLU; Flatten; Linear 5408 10 ].

Definition fixed_model_base_layers : list Layer :=
  [ Conv2d 3 32 7 1 0; ReLU; BatchNorm2d 32; MaxPool2d 2 2; Flatten;
    Linear 5408 1024; ReLU; Linear 1024 10 ].

Definition model_layers : list Layer :=
  [ Conv2d 3 32 3 1 1; ReLU; BatchNorm2d 32; MaxPool2d 2 2;
    Conv2d 32 64 3 1 1; ReLU; BatchNorm2d 64; MaxPool2d 2 2;
    Conv2d 64 128 3 1 1; ReLU; BatchNorm2d 128;
    Flatten; Linear 8192 1024; ReLU; Linear 1024 10 ].

(** ** Printing: the [%] operator on the notebook's format strings *)

Definition decimal (z : Z) : string := NilZero.string_of_int (Z.to_int z).

(** The integer nearest to a non-negative rational, ties to even. *)
Definition round_half_even (q : Q) : Z :=
  let n := Qnum q in
  let d := Zpos (Qden q) in
  let fl := (n / d)%Z in
  let r := (2 * (n mod d))%Z in
  if (r <? d)%Z then fl
  else if (d <? r)%Z then (fl + 1)%Z
  else if Z.even fl then fl else (fl + 1)%Z.

Fixpoint zeros (n : nat) : string :=
  match n with
  | O => EmptyString
  | S n' => String "0" (zeros n')
  end.

(** [s] with zeros in front, up to [width] characters. *)
Definition zero_pad (width : nat) (s : string) : string :=
  (zeros (width - String.length s) ++ s)%string.

(** [%.pf] of a rational: fixed notation with [p] digits after the point. *)
Definition format_fixed (p : nat) (q : Q) : string :=
  let scale := (10 ^ Z.of_nat p)%Z in
  let n := round_half_even (Qabs q * inject_Z scale)%Q in
  let sign := if Qlt_le_dec q 0%Q then "-"%string else ""%string in
  let frac := match p with
              | O => ""%string
              | _ => String "." (zero_pad p (decimal (n mod scale)))
              end in
  (sign ++ decimal (n / scale) ++ frac)%string.

(** *** Python floats: IEEE 754 binary64 *)

(** A float is not-a-number, an infinity, the negative zero, or a rational
    that is a double. *)
Inductive float := Fnan | Finf (negative : bool) | Fneg0 | Fnum (q : Q).

Definition pow2 (e : Z) : Q := (2 ^ e)%Q.

(** floor(log2 q), for q > 0 *)
Definition floor_log2 (q : Q) : Z :=
  let k := (Z.log2 (Qnum q) - Z.log2 (Zpos (Qden q)))%Z in
  if Qle_bool (pow2 k) q then k else (k - 1)%Z.

(** The exponent of the unit in the last place at q > 0: doubles have 53
    significant bits, and none is finer than 2^-1074. *)
Definition ulp_exponent (q : Q) : Z := Z.max (floor_log2 q - 52) (-1074).

(** q > 0 rounded to the nearest multiple of its unit in the last place,
    ties to even. *)
Definition round_pos (q : Q) : Q :=
  let e := ulp_exponent q in
  Qred (inject_Z (round_half_even (q / pow2 e)) * pow2 e).

(** The double nearest to a rational: an infinity from 2^1024 on, a zero
    with the sign of the rational when it rounds to nothing. *)
Definition round_double (q : Q) : float :=
  match (q ?= 0)%Q with
  | Eq => Fnum 0
  | Gt => let a := round_pos q in
          if Qle_bool (pow2 1024) a then Finf false else Fnum a
  | Lt => let a := round_pos (- q) in
          if Qle_bool (pow2 1024) a then Finf true
          else if Qeq_bool a 0 then Fneg0 else Fnum (- a)
  end.

Definition fsign (x : float) : bool :=
  match x with
  | Fnan => false
  | Finf s => s
  | Fneg0 => true
  | Fnum q => if Qlt_le_dec q 0 then true else false
  end.

Definition fzero (negative : bool) : float := if negative then Fneg0 else Fnum 0.

(** The value of a finite float. *)
Definition fvalue (x : float) : option Q :=
  match x with
  | Fnum q => Some q
  | Fneg0 => Some 0%Q
  | _ => None
  end.

Definition is_zero (x : float) : bool :=
  match fvalue x with Some q => Qeq_bool q 0 | None => false end.

(** IEEE multiplication and division: the exact result, rounded. *)
Definition fmul (x y : float) : float :=
  match x, y with
  | Fnan, _ | _, Fnan => Fnan
  | _, _ =>
      let s := xorb (fsign x) (fsign y) in
      match fvalue x, fvalue y with
      | Some a, Some b => if Qeq_bool (a * b) 0 then fzero s else round_double (a * b)
      | Some a, None => if Qeq_bool a 0 then Fnan else Finf s
      | None, Some b => if Qeq_bool b 0 then Fnan else Finf s
      | None, None => Finf s
      end
  end.

Definition fdiv (x y : float) : float :=
  match x, y with
  | Fnan, _ | _, Fnan => Fnan
  | _, _ =>
      let s := xorb (fsign x) (fsign y) in
      match fvalue x, fvalue y with
      | Some a, Some b =>
          if Qeq_bool b 0 then (if Qeq_bool a 0 then Fnan else Finf s)
          else if Qeq_bool a 0 then fzero s else round_double (a / b)
      | Some _, None => fzero s
      | None, Some _ => Finf s
      | None, None => Fnan
      end
  end.

(** [float(z)] for an int: the nearest double, an OverflowError when there
    is none. *)
Definition float_of_int (z : Z) : result float :=
  match round_double (inject_Z z) with
  | Finf _ => Raise (OverflowError "int too large to convert to float")
  | x => Ok x
  end.

(** [x / b] for a float and an int *)
Definition float_truediv (x : float) (b : Z) : result float :=
  rbind (float_of_int b) (fun y =>
  if is_zero y then Raise ZeroDivisionError else Ok (fdiv x y)).

(** [float(a) / b] for two ints *)
Definition float_div (a b : Z) : result float :=
  rbind (float_of_int a) (fun x => float_truediv x b).

(** [a * x] for an int and a float *)
Definition int_mul_float (a : Z) (x : float) : result float :=
  rbind (float_of_int a) (fun y => Ok (fmul y x)).

(** [%.pf] of a float *)
Definition format_float (p : nat) (x : float) : string :=
  match x with
  | Fnan => "nan"
  | Finf false => "inf"
  | Finf true => "-inf"
  | Fneg0 => String "-" (format_fixed p 0)
  | Fnum q => format_fixed p q
  end.

(** *** Format strings *)

Inductive Arg := AInt (z : Z) | AFloat (x : float).

(** The argument of [%d]: a float is truncated. *)
Definition Arg_int (a : Arg) : result Z :=
  match a with
  | AInt z => Ok z
  | AFloat Fnan => Raise (ValueError "cannot convert float NaN to integer")
  | AFloat (Finf _) => Raise (OverflowError "cannot convert float infinity to integer")
  | AFloat Fneg0 => Ok 0%Z
  | AFloat (Fnum q) => Ok (Z.quot (Qnum q) (Zpos (Qden q)))
  end.

(** The argument of [%.pf]: an int is converted. *)
Definition Arg_float (a : Arg) : result float :=
  match a with AInt z => float_of_int z | AFloat x => Ok x end.

Definition digit_of (c : ascii) : option nat :=
  let n := nat_of_ascii c in
  if (48 <=? n) && (n <=? 57) then Some (n - 48) else None.

(** [fmt % args] for the directives the notebook uses, [%d] and [%.pf]
    with a one-digit precision; the arguments are converted from left to
    right. *)
Fixpoint format (fmt : string) (args : list Arg) : result string :=
  match fmt with
  | EmptyString =>
      match args with
      | [] => Ok EmptyString
      | _ => Raise (TypeError "not all arguments converted during string formatting")
      end
  | String "%" (String "d" rest) =>
      match args with
      | a :: args' =>
          rbind (Arg_int a) (fun z =>
          rbind (format rest args') (fun s => Ok (decimal z ++ s)%string))
      | [] => Raise (TypeError "not enough arguments for format string")
      end
  | String "%" (String "." (String c (String "f" rest))) =>
      match digit_of c, args with
      | Some p, a :: args' =>
          rbind (Arg_float a) (fun x =>
          rbind (format rest args') (fun s => Ok (format_float p x ++ s)%string))
      | Some _, [] => Raise (TypeError "not enough arguments for format string")
      | None, _ => Raise (ValueError "unsupported format character")
      end
  | String "%" _ => Raise (ValueError "unsupported format character")
  | String c rest => rbind (format rest args) (fun s => Ok (String c s))
  end.

Example format_got_562 :
  format "Got %d / %d correct (%.2f)"
         [AInt 562; AInt 1000; AFloat (Fnum (100 * (562 # 1000)))]
  = Ok "Got 562 / 1000 correct (56.20)"%string.
Proof. vm_compute. reflexivity. Qed.

Example format_t_100 :
  format "t = %d, loss = %.4f" [AInt 100; AFloat (Fnum (16506 # 10000))]
  = Ok "t = 100, loss = 1.6506"%string.
Proof. vm_compute. reflexivity. Qed.

Example format_fixed_pads :
  format "t = %d, loss = %.4f" [AInt 700; AFloat (Fnum (13 # 10))]
  = Ok "t = 700, loss = 1.3000"%string.
Proof. vm_compute. reflexivity. Qed.

Example format_fixed_small :
  format_fixed 4 (5 # 1000) = "0.0050"%string /\
  format_fixed 2 (1 # 8) = "0.12"%string /\
  format_fixed 2 (3 # 8) = "0.38"%string /\
  format_fixed 2 (-1 # 3) = "-0.33"%string.
Proof. vm_compute. auto. Qed.

Example format_not_finite :
  format "t = %d, loss = %.4f" [AInt 100; AFloat Fnan] = Ok "t = 100, loss = nan"%string /\
  format "t = %d, loss = %.4f" [AInt 100; AFloat (Finf false)]
    = Ok "t = 100, loss = inf"%string /\
  format "t = %d, loss = %.4f" [AInt 100; AFloat Fneg0] = Ok "t = 100, loss = -0.0000"%string.
Proof. vm_compute. auto. Qed.

(** The quotient and the percentage are doubles: 23 of 160 is 0.14375, the
    nearest double is below it, and so is 100 times that double; Python
    prints 14.37 and 33.33, 56.20, 70.30 for the other counts. *)
Example percent_of_counts :
  rbind (rbind (float_div 23 160) (int_mul_float 100))
        (fun x => Ok (format_float 2 x)) = Ok "14.37"%string /\
  format_fixed 2 (100 * (23 # 160)) = "14.38"%string /\
  rbind (rbind (float_div 1 3) (int_mul_float 100))
        (fun x => Ok (format_float 2 x)) = Ok "33.33"%string /\
  rbind (rbind (float_div 562 1000) (int_mul_float 100))
        (fun x => Ok (format_float 2 x)) = Ok "56.20"%string /\
  rbind (rbind (float_div 7030 10000) (int_mul_float 100))
        (fun x => Ok (format_float 2 x)) = Ok "70.30"%string /\
  float_div 1 3 = Ok (Fnum (6004799503160661 # 18014398509481984)) /\
  float_div 5 0 = Raise ZeroDivisionError /\
  float_of_int (2 ^ 53 + 1) = Ok (Fnum 9007199254740992) /\
  float_of_int (2 ^ 1024)
    = Raise (OverflowError "int too large to convert to float").
Proof. vm_compute. repeat split. Qed.

Example sizes_fixed :
  Sequential_sizes fixed_model_base_layers [64; 3; 32; 32]%Z =
  [[64; 32; 26; 26]; [64; 32; 26; 26]; [64; 32; 26; 26]; [64; 32; 13; 13];
   [64; 5408]; [64; 1024]; [64; 1024]; [64; 10]]%Z.
Proof. vm_compute. reflexivity. Qed.

Example sizes_simple :
  Sequential_out simple_model_layers [64; 3; 32; 32]%Z = Ok [64; 10]%Z.
Proof. vm_compute. reflexivity. Qed.

Example sizes_model :
  Sequential_out model_layers [64; 3; 32; 32]%Z = Ok [64; 10]%Z.
Proof. vm_compute. reflexivity. Qed.

(** ** The framework and the world the notebook runs in *)

Inductive Dtype := FloatTensor | CudaFloatTensor.

(** The two optimizers the notebook constructs, with their learning rate. *)
Inductive OptKind := Adam (lr : Q) | RMSprop (lr : Q).

(** What the notebook takes from the framework.  Every operation may raise;
    none is interpreted.  [fw_available] is the check a conversion to a
    tensor type makes (a CUDA type needs a device).  [fw_forward_rows] is the
    one contract assumed: a forward pass returns one row of class scores per
    image.  The loss is a float; [fw_empty_reduction] is the exception the
    framework raises for a maximum over no elements, whose class depends on
    its version. *)
Record Framework := mkFramework {
  Image : Type;
  Params : Type;
  Buffers : Type;
  Grads : Type;
  OptState : Type;
  fw_randn : Z -> list Image;
  fw_available : Dtype -> result unit;
  fw_module_type : Dtype -> Params -> result Params;
  fw_init : list Layer -> Z -> Params * Buffers;
  fw_forward : list Layer -> bool -> Params -> Buffers -> list Image ->
               result (list (list Q) * Buffers);
  fw_forward_rows : forall ls tr p b x s b',
      fw_forward ls tr p b x = Ok (s, b') -> length s = length x;
  fw_cross_entropy : list (list Q) -> list Z -> result float;
  fw_empty_reduction : exn;
  fw_zero : Grads -> Grads;
  fw_backward : list Layer -> Params -> list Image -> list Z -> option Grads ->
                result Grads;
  fw_step : OptKind -> option OptState -> Params -> Grads -> result (OptState * Params)
}.

(** What the notebook does, in the order it does it. *)
Inductive Event :=
| EvPrint (line : string)
| EvInit (m : nat)                       (* the parameters of module m are (re)initialised *)
| EvCopy (src dst : nat)                 (* module dst is a deep copy of module src *)
| EvMode (m : nat) (training : bool)     (* m.train() or m.eval() *)
| EvFetch (idxs : list Z)                (* the loader yields the batch of these indices *)
| EvForward (m : nat) (scores : list (list Q))
| EvLoss (m : nat) (loss : float)
| EvZeroGrad (o : nat) (m : nat)
| EvBackward (m : nat)
| EvStep (o : nat) (m : nat)             (* optimizer o updates the parameters of module m *)
| EvRaise (e : exn).

Section Notebook.

Context (fw : Framework).

(** A module object: a layer list with its parameters and their gradients. *)
Record Module := mkModule {
  layers : list Layer;
  training : bool;
  params : Params fw;
  buffers : Buffers fw;
  grad : option (Grads fw)
}.

(** An optimizer object: the module whose parameters it was constructed
    over never changes; its running state lives in the world. *)
Record Optimizer := mkOptimizer {
  opt_id : nat;
  opt_kind : OptKind;
  opt_target : nat
}.

Record World := mkWorld {
  modules : gmap nat Module;
  opt_states : gmap nat (OptState fw);
  next_id : nat;
  rng : Z;
  trace : list Event
}.

Definition empty_world : World := mkWorld ∅ ∅ 0 0 [].

Definition log (ev : Event) (w : World) : World :=
  mkWorld (modules w) (opt_states w) (next_id w) (rng w) (trace w ++ [ev]).

Definition set_module (m : nat) (md : Module) (w : World) : World :=
  mkWorld (<[m := md]> (modules w)) (opt_states w) (next_id w) (rng w) (trace w).

(** Statements: a world in, a value or an exception and a world out.  An
    exception ends the statement it is raised in and everything sequenced
    after it; the notebook has no [try]. *)
Definition M (A : Type) : Type := World -> result A * World.

Definition ret {A} (a : A) : M A := fun w => (Ok a, w).

Definition bind {A B} (m : M A) (k : A -> M B) : M B :=
  fun w => match m w with
           | (Ok a, w') => k a w'
           | (Raise e, w') => (Raise e, w')
           end.

Notation "x <- m ;; k" := (bind m (fun x => k))
  (at level 100, m at next level, right associativity).
Notation "m ;;; k" := (bind m (fun _ => k))
  (at level 100, right associativity).

(** The outcome of a call: a raised exception is recorded where it is raised. *)
Definition lift {A} (r : result A) : M A :=
  fun w => match r with
           | Ok a => (Ok a, w)
           | Raise e => (Raise e, log (EvRaise e) w)
           end.

Definition emit (ev : Event) : M unit := fun w => (Ok tt, log ev w).

Definition get_module (m : nat) : M Module :=
  fun w => match modules w !! m with
           | Some md => (Ok md, w)
           | None => lift (Raise (RuntimeError "no such module")) w
           end.

Definition put_module (m : nat) (md : Module) : M unit :=
  fun w => (Ok tt, set_module m md w).

Definition print (line : string) : M unit := emit (EvPrint line).

(** [print(fmt % args)] *)
Definition print_format (fmt : string) (args : list Arg) : M unit :=
  line <- lift (format fmt args) ;; print line.

(** [for t, x in enumerate(xs): body(t, x)], counting from [t]. *)
Fixpoint for_enumerate {A} (t : nat) (xs : list A) (body : nat -> A -> M unit) : M unit :=
  match xs with
  | [] => ret tt
  | x :: xs' => body t x ;;; for_enumerate (S t) xs' body
  end.

(** [for x in xs: body(x)] *)
Definition for_each {A} (xs : list A) (body : A -> M unit) : M unit :=
  for_enumerate 0 xs (fun _ => body).

(** [for x in xs: s = body(s, x)], for the local variables [s] a loop updates. *)
Fixpoint for_fold {A S} (xs : list A) (s : S) (body : S -> A -> M S) : M S :=
  match xs with
  | [] => ret s
  | x :: xs' => s' <- body s x ;; for_fold xs' s' body
  end.

(** *** Datasets and loaders (cell 5) *)

(** The examples of a dataset on disk: how many there are, and the image
    and label at each position. *)
Record Examples := mkExamples { ex_len : Z; ex_item : Z -> Image fw * Z }.

Record Dataset := mkDataset { train_flag : bool; data : Examples }.

(** The position index [i] stands for: a negative index counts from the end. *)
Definition Dataset_position (ds : Dataset) (i : Z) : Z :=
  if (i <? 0)%Z then (i + ex_len (data ds))%Z else i.

(** [dataset[i]] *)
Definition Dataset_getitem (ds : Dataset) (i : Z) : result (Image fw * Z) :=
  let j := Dataset_position ds i in
  if ((0 <=? j) && (j <? ex_len (data ds)))%Z then Ok (ex_item (data ds) j)
  else Raise (IndexError "index out of range").

(** The labels of the examples at the indices [idxs]. *)
Definition Dataset_labels (ds : Dataset) (idxs : list Z) : list Z :=
  map (fun i => snd (ex_item (data ds) (Dataset_position ds i))) idxs.

Record DataLoader := mkDataLoader {
  dataset : Dataset;
  batch_size : nat;
  sampler : option ChunkSampler
}.

(** The indices a loader visits: those of its sampler, or every index of the
    dataset in order when it has none. *)
Definition DataLoader_indices (loader : DataLoader) : list Z :=
  match sampler loader with
  | Some s => ChunkSampler_iter s
  | None => range 0 (ex_len (data (dataset loader)))
  end.

Definition DataLoader_batches (loader : DataLoader) : list (list Z) :=
  BatchSampler_iter (batch_size loader) (DataLoader_indices loader).

Fixpoint collate (ds : Dataset) (idxs : list Z) : result (list (Image fw) * list Z) :=
  match idxs with
  | [] => Ok ([], [])
  | i :: idxs' =>
      rbind (Dataset_getitem ds i) (fun item =>
      rbind (collate ds idxs') (fun rest =>
      Ok (fst item :: fst rest, snd item :: snd rest)))
  end.

(** The loader yields one batch [(x, y)]. *)
Definition DataLoader_fetch (loader : DataLoader) (idxs : list Z)
  : M (list (Image fw) * list Z) :=
  emit (EvFetch idxs) ;;; lift (collate (dataset loader) idxs).

(** [for t, (x, y) in enumerate(loader): body(t, x, y)] *)
Definition for_loader (loader : DataLoader)
    (body : nat -> list (Image fw) * list Z -> M unit) : M unit :=
  for_enumerate 0 (DataLoader_batches loader)
    (fun t idxs => batch <- DataLoader_fetch loader idxs ;; body t batch).

(** The external data: the two splits of the dataset on disk. *)
Context (cifar10_train_data cifar10_test_data : Examples).

(** [dset.CIFAR10(root, train=..., download=True, transform=T.ToTensor())] *)
Definition CIFAR10 (train : bool) : Dataset :=
  mkDataset train (if train then cifar10_train_data else cifar10_test_data).

Definition cifar10_train : Dataset := CIFAR10 true.
Definition loader_train : DataLoader := mkDataLoader cifar10_train 64 (Some sampler_train).

Definition cifar10_val : Dataset := CIFAR10 true.
Definition loader_val : DataLoader := mkDataLoader cifar10_val 64 (Some sampler_val).

Definition cifar10_test : Dataset := CIFAR10 false.
Definition loader_test : DataLoader := mkDataLoader cifar10_test 64 None.

(** *** Modules, losses and optimizers *)

(** [Variable(t.type(dt))]: the same values as a tensor of type [dt]; for
    labels, [.long()] gives the same integers back. *)
Definition Tensor_type {A} (dt : Dtype) (t : A) : M A :=
  lift (fw_available fw dt) ;;; ret t.

Definition dtype : Dtype := FloatTensor.
Definition gpu_dtype : Dtype := CudaFloatTensor.
Definition print_every : Z := 100.

(** [nn.Sequential(...)]: a new module whose parameters are initialised, in
    training mode. *)
Definition Sequential (ls : list Layer) : M nat :=
  fun w =>
    let m := next_id w in
    let '(p, b) := fw_init fw ls (rng w) in
    (Ok m, log (EvInit m)
             (mkWorld (<[m := mkModule ls true p b None]> (modules w))
                      (opt_states w) (S m) (rng w + 1)%Z (trace w))).

(** [copy.deepcopy(m)]: a new module with a copy of everything [m] holds. *)
Definition deepcopy (m : nat) : M nat :=
  md <- get_module m ;;
  fun w =>
    let m' := next_id w in
    (Ok m', log (EvCopy m m')
              (mkWorld (<[m' := md]> (modules w))
                       (opt_states w) (S m') (rng w) (trace w))).

(** [m.type(dtype)]: converts the parameters in place and returns [m]. *)
Definition Module_type (m : nat) (dt : Dtype) : M nat :=
  md <- get_module m ;;
  p <- lift (fw_module_type fw dt (params md)) ;;
  put_module m (mkModule (layers md) (training md) p (buffers md) (grad md)) ;;;
  ret m.

(** [m.train()] and [m.eval()] *)
Definition Module_set_mode (m : nat) (mode : bool) : M unit :=
  md <- get_module m ;;
  put_module m (mkModule (layers md) mode (params md) (buffers md) (grad md)) ;;;
  emit (EvMode m mode).

Definition Module_train (m : nat) : M unit := Module_set_mode m true.
Definition Module_eval (m : nat) : M unit := Module_set_mode m false.

(** [m.apply(reset)]: [reset] calls [reset_parameters] on every layer that
    has it, which draws the parameters afresh. *)
Definition Module_apply_reset (m : nat) : M unit :=
  md <- get_module m ;;
  fun w =>
    let '(p, b) := fw_init fw (layers md) (rng w) in
    (Ok tt, log (EvInit m)
              (mkWorld (<[m := mkModule (layers md) (training md) p b (grad md)]> (modules w))
                       (opt_states w) (next_id w) (rng w + 1)%Z (trace w))).

(** The scores of a forward pass remember the module and the input they
    were computed from; so does the loss. *)
Record Scores := mkScores {
  scores_data : list (list Q);
  scores_module : nat;
  scores_input : list (Image fw)
}.

Record Loss := mkLoss {
  loss_item : float;
  loss_module : nat;
  loss_input : list (Image fw);
  loss_target : list Z
}.

(** [m(x)] *)
Definition Module_call (m : nat) (x : list (Image fw)) : M Scores :=
  md <- get_module m ;;
  out <- lift (fw_forward fw (layers md) (training md) (params md) (buffers md) x) ;;
  put_module m (mkModule (layers md) (training md) (params md) (snd out) (grad md)) ;;;
  emit (EvForward m (fst out)) ;;;
  ret (mkScores (fst out) m x).

Definition LossFn : Type := list (list Q) -> list Z -> result float.

(** [nn.CrossEntropyLoss()] *)
Definition CrossEntropyLoss : LossFn := fw_cross_entropy fw.

(** [loss_fn(scores, y)] *)
Definition loss_call (loss_fn : LossFn) (scores : Scores) (y : list Z) : M Loss :=
  l <- lift (loss_fn (scores_data scores) y) ;;
  emit (EvLoss (scores_module scores) l) ;;;
  ret (mkLoss l (scores_module scores) (scores_input scores) y).

(** [m.parameters()]: the parameters of module [m], by reference. *)
Definition parameters (m : nat) : nat := m.

(** [optim.Adam(params, lr=...)] and [optim.RMSprop(params, lr=...)] *)
Definition new_optimizer (kind : OptKind) (params_of : nat) : M Optimizer :=
  fun w =>
    let o := next_id w in
    (Ok (mkOptimizer o kind params_of),
     mkWorld (modules w) (opt_states w) (S o) (rng w) (trace w)).

(** [optimizer.zero_grad()]: a gradient that exists is zeroed. *)
Definition Optimizer_zero_grad (o : Optimizer) : M unit :=
  md <- get_module (opt_target o) ;;
  put_module (opt_target o)
    (mkModule (layers md) (training md) (params md) (buffers md)
              (fw_zero fw <$> grad md)) ;;;
  emit (EvZeroGrad (opt_id o) (opt_target o)).

(** [loss.backward()]: the gradient of the loss is accumulated into the
    gradients of the module the loss was computed from. *)
Definition Loss_backward (loss : Loss) : M unit :=
  md <- get_module (loss_module loss) ;;
  g <- lift (fw_backward fw (layers md) (params md) (loss_input loss)
                         (loss_target loss) (grad md)) ;;
  put_module (loss_module loss)
    (mkModule (layers md) (training md) (params md) (buffers md) (Some g)) ;;;
  emit (EvBackward (loss_module loss)).

(** [optimizer.step()]: parameters without a gradient are skipped. *)
Definition Optimizer_step (o : Optimizer) : M unit :=
  md <- get_module (opt_target o) ;;
  match grad md with
  | None => emit (EvStep (opt_id o) (opt_target o))
  | Some g =>
      fun w =>
        match fw_step fw (opt_kind o) (opt_states w !! opt_id o) (params md) g with
        | Raise e => lift (Raise e) w
        | Ok (st, p) =>
            (Ok tt, log (EvStep (opt_id o) (opt_target o))
                      (mkWorld (<[opt_target o :=
                                    mkModule (layers md) (training md) p (buffers md) (grad md)]>
                                  (modules w))
                               (<[opt_id o := st]> (opt_states w))
                               (next_id w) (rng w) (trace w)))
        end
  end.

(** *** The tensor operations of [check_accuracy] *)

(** The largest score of a row and the first position that holds it,
    scanning from position [i] with the best so far. *)
Fixpoint max_from (best : Q) (best_i i : Z) (row : list Q) : Q * Z :=
  match row with
  | [] => (best, best_i)
  | s :: row' =>
      if Qlt_le_dec best s then max_from s i (i + 1)%Z row'
      else max_from best best_i (i + 1)%Z row'
  end.

Definition row_max (empty : exn) (row : list Q) : result (Q * Z) :=
  match row with
  | [] => Raise empty
  | s :: row' => Ok (max_from s 0 1 row')
  end.

(** [scores.max(1)]: the maxima of the rows and their positions; [empty]
    is what the framework raises on a row without scores. *)
Fixpoint max1 (empty : exn) (scores : list (list Q)) : result (list Q * list Z) :=
  match scores with
  | [] => Ok ([], [])
  | row :: scores' =>
      rbind (row_max empty row) (fun m =>
      rbind (max1 empty scores') (fun rest =>
      Ok (fst m :: fst rest, snd m :: snd rest)))
  end.

Fixpoint zip_eq (a b : list Z) : list bool :=
  match a, b with
  | x :: a', y :: b' => (x =? y)%Z :: zip_eq a' b'
  | _, _ => []
  end.

(** [a == b] on one-dimensional tensors: elementwise, a tensor of one
    element is broadcast, other sizes must agree. *)
Definition tensor_eq (a b : list Z) : result (list bool) :=
  if length a =? length b then Ok (zip_eq a b)
  else match a, b with
       | [x], _ => Ok (map (fun y => (x =? y)%Z) b)
       | _, [y] => Ok (map (fun x => (x =? y)%Z) a)
       | _, _ => Raise (RuntimeError "the size of tensor a must match the size of tensor b")
       end.

(** [t.sum()] on a tensor of truth values *)
Definition tensor_sum (t : list bool) : Z :=
  Z.of_nat (length (List.filter (fun b => b) t)).

(** *** [train] and [check_accuracy] (cell 29) *)

(** The body of the loop over the batches of [train]; cell 27 has the same
    statements with [fixed_model_gpu] for [model]. *)
Definition train_step (model : nat) (loss_fn : LossFn) (optimizer : Optimizer)
    (t : nat) (batch : list (Image fw) * list Z) : M unit :=
  x_var <- Tensor_type gpu_dtype (fst batch) ;;
  y_var <- Tensor_type gpu_dtype (snd batch) ;;
  scores <- Module_call model x_var ;;
  loss <- loss_call loss_fn scores y_var ;;
  (if ((Z.of_nat t + 1) mod print_every =? 0)%Z
   then print_format "t = %d, loss = %.4f"
                     [AInt (Z.of_nat t + 1); AFloat (loss_item loss)]
   else ret tt) ;;;
  Optimizer_zero_grad optimizer ;;;
  Loss_backward loss ;;;
  Optimizer_step optimizer.

Definition train_epoch (model : nat) (loss_fn : LossFn) (optimizer : Optimizer)
    (num_epochs epoch : Z) : M unit :=
  print_format "Starting epoch %d / %d" [AInt (epoch + 1); AInt num_epochs] ;;;
  Module_train model ;;;
  for_loader loader_train (train_step model loss_fn optimizer).

Definition train (model : nat) (loss_fn : LossFn) (optimizer : Optimizer)
    (num_epochs : Z) : M unit :=
  for_each (range 0 num_epochs) (train_epoch model loss_fn optimizer num_epochs).

(** The body of the loop of [check_accuracy], on the local variables
    [(num_correct, num_samples)]. *)
Definition check_accuracy_step (model : nat) (counts : Z * Z)
    (batch : list (Image fw) * list Z) : M (Z * Z) :=
  x_var <- Tensor_type gpu_dtype (fst batch) ;;
  scores <- Module_call model x_var ;;
  m <- lift (max1 (fw_empty_reduction fw) (scores_data scores)) ;;
  let preds := snd m in
  eqs <- lift (tensor_eq preds (snd batch)) ;;
  ret (fst counts + tensor_sum eqs, snd counts + Z.of_nat (length preds))%Z.

Definition check_accuracy_header (loader : DataLoader) : string :=
  if train_flag (dataset loader) then "Checking accuracy on validation set"
  else "Checking accuracy on test set".

(** [check_accuracy] up to the end of its loop: the header, the counters at
    zero, [model.eval()], and the loop. *)
Definition check_accuracy_counts (model : nat) (loader : DataLoader) : M (Z * Z) :=
  print (check_accuracy_header loader) ;;;
  Module_eval model ;;;
  for_fold (DataLoader_batches loader) (0, 0)%Z
    (fun counts idxs =>
       batch <- DataLoader_fetch loader idxs ;; check_accuracy_step model counts batch).

(** The two statements after the loop. *)
Definition check_accuracy_report (counts : Z * Z) : M unit :=
  acc <- lift (float_div (fst counts) (snd counts)) ;;
  percent <- lift (int_mul_float 100 acc) ;;
  print_format "Got %d / %d correct (%.2f)"
               [AInt (fst counts); AInt (snd counts); AFloat percent].

Definition check_accuracy (model : nat) (loader : DataLoader) : M unit :=
  counts <- check_accuracy_counts model loader ;; check_accuracy_report counts.

(** *** The cells that build and train models, top to bottom *)

(** [%%timeit stmt]: the statement, some number of times. *)
Fixpoint timeit {A} (loops : nat) (stmt : M A) : M unit :=
  match loops with
  | O => ret tt
  | S n => stmt ;;; timeit n stmt
  end.

(** [torch.cuda.random.manual_seed(seed)] *)
Definition manual_seed (seed : Z) : M unit :=
  fun w => (Ok tt, mkWorld (modules w) (opt_states w) (next_id w) seed (trace w)).

(** Each cell is a statement over the global variables bound so far and
    returns the ones it binds. *)

Definition cell11 : M (nat * LossFn * Optimizer) :=
  simple_model <- Sequential simple_model_layers ;;
  Module_type simple_model dtype ;;;
  let loss_fn := CrossEntropyLoss in
  optimizer <- new_optimizer (Adam (1 # 100)) (parameters simple_model) ;;
  ret (simple_model, loss_fn, optimizer).

Definition cell14 (simple_model : nat) : M (nat * nat * LossFn * Optimizer) :=
  fixed_model_base <- Sequential fixed_model_base_layers ;;
  fixed_model <- Module_type fixed_model_base dtype ;;
  let loss_fn := CrossEntropyLoss in
  optimizer <- new_optimizer (RMSprop (1 # 100)) (parameters simple_model) ;;
  ret (fixed_model_base, fixed_model, loss_fn, optimizer).

Definition cell16 (fixed_model : nat) : M (list (Image fw) * list (Image fw)) :=
  x <- Tensor_type dtype (fw_randn fw 64) ;;
  x_var <- Tensor_type dtype x ;;
  Module_call fixed_model x_var ;;;
  ret (x, x_var).

Definition cell19 (fixed_model_base : nat) (x : list (Image fw))
  : M (nat * list (Image fw)) :=
  fixed_model_gpu <- (c <- deepcopy fixed_model_base ;; Module_type c gpu_dtype) ;;
  x_gpu <- Tensor_type gpu_dtype (fw_randn fw 64) ;;
  x_var_gpu <- Tensor_type gpu_dtype x ;;
  Module_call fixed_model_gpu x_var_gpu ;;;
  ret (fixed_model_gpu, x_var_gpu).

(** Cells 21 and 23 time the forward pass of a model. *)
Definition cell_timeit (loops : nat) (m : nat) (x_var : list (Image fw)) : M unit :=
  timeit loops (Module_call m x_var).

Definition cell26 (fixed_model_gpu : nat) : M (LossFn * Optimizer) :=
  let loss_fn := CrossEntropyLoss in
  optimizer <- new_optimizer (RMSprop (1 # 1000)) (parameters fixed_model_gpu) ;;
  ret (loss_fn, optimizer).

Definition cell27 (fixed_model_gpu : nat) (loss_fn : LossFn) (optimizer : Optimizer)
  : M unit :=
  Module_train fixed_model_gpu ;;;
  for_loader loader_train (train_step fixed_model_gpu loss_fn optimizer).

Definition cell31 (fixed_model_gpu : nat) (loss_fn : LossFn) (optimizer : Optimizer)
  : M unit :=
  manual_seed 12345 ;;;
  Module_apply_reset fixed_model_gpu ;;;
  train fixed_model_gpu loss_fn optimizer 1 ;;;
  check_accuracy fixed_model_gpu loader_val.

Definition cell35 : M nat :=
  model <- (m <- Sequential model_layers ;; Module_type m gpu_dtype) ;;
  let loss_fn := CrossEntropyLoss in
  optimizer <- new_optimizer (Adam (5 # 10000)) (parameters model) ;;
  train model loss_fn optimizer 1 ;;;
  check_accuracy model loader_val ;;;
  ret model.

Definition cell39 (model : nat) : M unit :=
  let best_model := model in
  check_accuracy best_model loader_test.

(** The notebook, run once from top to bottom; the two timing cells run
    their statement [loops_cpu] and [loops_gpu] times. *)
Definition notebook (loops_cpu loops_gpu : nat) : M unit :=
  c11 <- cell11 ;;
  let '(simple_model, _, _) := c11 in
  c14 <- cell14 simple_model ;;
  let '(fixed_model_base, fixed_model, _, _) := c14 in
  c16 <- cell16 fixed_model ;;
  let '(x, x_var) := c16 in
  c19 <- cell19 fixed_model_base x ;;
  let '(fixed_model_gpu, x_var_gpu) := c19 in
  cell_timeit loops_cpu fixed_model x_var ;;;
  cell_timeit loops_gpu fixed_model_gpu x_var_gpu ;;;
  c26 <- cell26 fixed_model_gpu ;;
  let '(loss_fn, optimizer) := c26 in
  cell27 fixed_model_gpu loss_fn optimizer ;;;
  cell31 fixed_model_gpu loss_fn optimizer ;;;
  model <- cell35 ;;
  cell39 model.

End Notebook.

Arguments layers {fw} m.
Arguments training {fw} m.
Arguments params {fw} m.
Arguments buffers {fw} m.
Arguments grad {fw} m.
Arguments modules {fw} w.
Arguments opt_states {fw} w.
Arguments next_id {fw} w.
Arguments rng {fw} w.
Arguments trace {fw} w.
Arguments mkExamples {fw} ex_len ex_item.
Arguments mkDataset {fw} train_flag data.
Arguments mkDataLoader {fw} dataset batch_size sampler.
Arguments train_flag {fw} d.
Arguments data {fw} d.
Arguments dataset {fw} d.
Arguments batch_size {fw} d.
Arguments sampler {fw} d.
Arguments ret {fw A} a.
Arguments bind {fw A B} m k.
Arguments lift {fw A} r.

(** ** A small framework and dataset to run the notebook on *)

(** An image stands for an integer; the class scores of image [i] under
    parameter [p] put 1 on class [(i + p) mod 10] and 0 elsewhere. *)
Definition toy_row (p i : Z) : list Q :=
  map (fun k => if (k =? (i + p) mod 10)%Z then 1%Q else 0%Q) (count_from 0 10).

Definition toy_forward (fail_on : Z) (ls : list Layer) (tr : bool) (p : Z) (b : unit)
    (x : list Z) : result (list (list Q) * unit) :=
  if existsb (fun i => (i =? fail_on)%Z) x
  then Raise (RuntimeError "size mismatch")
  else Ok (map (toy_row p) x, tt).

Lemma toy_forward_rows fail_on ls tr p b x s b' :
  toy_forward fail_on ls tr p b x = Ok (s, b') -> length s = length x.
Proof.
  unfold toy_forward. destruct (existsb _ x); [discriminate|].
  intros H. injection H as <- _. apply length_map.
Qed.

(** The toy framework; its forward pass raises on a batch that holds the
    image [fail_on]. *)
Definition toy (fail_on : Z) : Framework :=
  {| Image := Z; Params := Z; Buffers := unit; Grads := Z; OptState := Z;
     fw_randn := fun n => repeat 0%Z (Z.to_nat n);
     fw_available := fun _ => Ok tt;
     fw_module_type := fun _ p => Ok p;
     fw_init := fun _ seed => (seed, tt);
     fw_forward := toy_forward fail_on;
     fw_forward_rows := toy_forward_rows fail_on;
     fw_cross_entropy := fun s y => Ok (Fnum (Z.of_nat (length s) # 2));
     fw_empty_reduction := IndexError "max(): Expected reduction dim 1 to have non-zero size.";
     fw_zero := fun _ => 0%Z;
     fw_backward := fun _ _ _ _ g => Ok (match g with Some g => g + 1 | None => 1 end)%Z;
     fw_step := fun _ st p g => Ok (match st with Some n => n + 1 | None => 1 end, p + g)%Z |}.

(** [n] examples: image [i] has label [i mod 7]. *)
Definition toy_data (fail_on : Z) (n : Z) : Examples (toy fail_on) :=
  mkExamples (fw := toy fail_on) n (fun i => (i, i mod 7)%Z).

(** A world with one module, [0], and an optimizer over its parameters. *)
Definition toy_world : World (toy (-1)) :=
  snd (Sequential (toy (-1)) simple_model_layers (empty_world (toy (-1)))).

Definition toy_optimizer : Optimizer := mkOptimizer 1 (Adam (1 # 100)) (parameters 0).

(** A loader over 130 test examples, in batches of 64, 64 and 2. *)
Definition toy_loader : DataLoader (toy (-1)) :=
  mkDataLoader (mkDataset false (toy_data (-1) 130)) 64 None.

(** A loader whose second batch makes the forward pass raise. *)
Definition failing_loader : DataLoader (toy 70) :=
  mkDataLoader (mkDataset false (toy_data 70 130)) 64 None.

(** A transposed tensor: the batch 1 x 2 x 2 x 1 whose 2 x 2 part reads the
    storage [10; 20; 30; 40] column by column. *)
Definition transposed_tensor : Tensor Z :=
  mkTensor [1; 2; 2; 1]%Z [4; 1; 2; 1]%Z 0 [10; 20; 30; 40]%Z.

(** ** Reading a trace *)

(** The lines printed. *)
Definition prints (tr : list Event) : list string :=
  omap (fun ev => match ev with EvPrint line => Some line | _ => None end) tr.

(** The exceptions raised. *)
Definition raises (tr : list Event) : list exn :=
  omap (fun ev => match ev with EvRaise e => Some e | _ => None end) tr.

(** An exception reaches the caller as it was raised: when a statement
    returns, nothing was raised in it; when it ends with exception [e], the
    raise of [e] is the only raise and the last thing that happened. *)
Definition propagates {A} (r : result A) (tr : list Event) : Prop :=
  match r with
  | Ok _ => raises tr = []
  | Raise e => exists tr0, tr = tr0 ++ [EvRaise e] /\ raises tr0 = []
  end.

(** The steps of training, without the values they compute. *)
Inductive Step :=
| SFetch (idxs : list Z)
| SForward (m : nat)
| SLoss (m : nat)
| SZeroGrad (o m : nat)
| SBackward (m : nat)
| SStep (o m : nat).

Definition step_of (ev : Event) : option Step :=
  match ev with
  | EvFetch idxs => Some (SFetch idxs)
  | EvForward m _ => Some (SForward m)
  | EvLoss m _ => Some (SLoss m)
  | EvZeroGrad o m => Some (SZeroGrad o m)
  | EvBackward m => Some (SBackward m)
  | EvStep o m => Some (SStep o m)
  | _ => None
  end.

Definition steps (tr : list Event) : list Step := omap step_of tr.


(** Every optimizer step updates the parameters of the module whose
    gradients the latest backward pass computed; [last] is that module. *)
Fixpoint steps_own (last : option nat) (tr : list Event) : bool :=
  match tr with
  | [] => true
  | EvBackward m :: tr' => steps_own (Some m) tr'
  | EvStep _ tgt :: tr' =>
      match last with
      | Some m => (m =? tgt) && steps_own last tr'
      | None => false
      end
  | _ :: tr' => steps_own last tr'
  end.

(** The history of the parameters: initialisations, copies and updates. *)
Definition is_mutation (ev : Event) : bool :=
  match ev with
  | EvInit _ | EvCopy _ _ | EvStep _ _ => true
  | _ => false
  end.

Definition history (tr : list Event) : list Event := List.filter is_mutation tr.

(** Whether some module's parameters are initialised after an optimizer
    step has updated them; [stepped] are the modules updated so far. *)
Fixpoint init_after_step (stepped : list nat) (tr : list Event) : bool :=
  match tr with
  | [] => false
  | EvStep _ m :: tr' => init_after_step (m :: stepped) tr'
  | EvInit m :: tr' => existsb (Nat.eqb m) stepped || init_after_step stepped tr'
  | _ :: tr' => init_after_step stepped tr'
  end.

(** Parameters are initialised once and from then on only updated by
    training steps. *)
Definition initialized_once (tr : list Event) : Prop :=
  init_after_step [] tr = false.


(** The class a row of scores is highest on. *)
Definition argmax (row : list Q) : Z :=
  match row with
  | [] => 0%Z
  | s :: row' => snd (max_from s 0 1 row')
  end.

(** The samples of a batch the model classifies as labelled. *)
Definition correct_in (scores : list (list Q)) (labels : list Z) : nat :=
  length (List.filter (fun sample => (argmax (fst sample) =? snd sample)%Z)
                      (zip scores labels)).

(** The two lines the notebook's format strings produce. *)
Definition progress_line (iteration : Z) (loss : float) : string :=
  ("t = " ++ decimal iteration ++ ", loss = " ++ format_float 4 loss)%string.

Definition result_line (correct total : Z) (percent : float) : string :=
  ("Got " ++ decimal correct ++ " / " ++ decimal total ++ " correct ("
   ++ format_float 2 percent ++ ")")%string.

Definition epoch_line (epoch num_epochs : Z) : string :=
  ("Starting epoch " ++ decimal epoch ++ " / " ++ decimal num_epochs)%string.

(** [x] is within one rounding of the exact value: an operation on doubles
    has a relative error of at most 2^-53. *)
Definition rounds (exact x : Q) : Prop :=
  (Qabs (x - exact) <= Qabs exact * pow2 (-53))%Q.

(** The counts a double holds exactly: up to 2^53. *)
Definition exact_count (n : Z) : Prop := (0 <= n < 2 ^ 53)%Z.

(** *** The events a run is expected to leave *)

(** The values a training iteration computes: the scores and the loss. *)
Definition Out : Type := list (list Q) * float.

Definition progress_events (t : nat) (loss : float) : list Event :=
  if ((Z.of_nat t + 1) mod print_every =? 0)%Z
  then [EvPrint (progress_line (Z.of_nat t + 1) loss)]
  else [].

(** Iteration [t] of the training loop on module [m] with optimizer [o]
    over the parameters of module [tgt], after the batch is fetched. *)
Definition step_events (m o tgt : nat) (t : nat) (out : Out) : list Event :=
  [EvForward m (fst out); EvLoss m (snd out)] ++ progress_events t (snd out) ++
  [EvZeroGrad o tgt; EvBackward m; EvStep o tgt].

Fixpoint loop_events (m o tgt : nat) (t : nat) (batches : list (list Z))
    (outs : list Out) : list Event :=
  match batches, outs with
  | idxs :: batches', out :: outs' =>
      EvFetch idxs :: step_events m o tgt t out
        ++ loop_events m o tgt (S t) batches' outs'
  | _, _ => []
  end.

Definition epoch_events (m o tgt : nat) (num_epochs epoch : Z) (outs : list Out)
  : list Event :=
  [EvPrint (epoch_line (epoch + 1) num_epochs); EvMode m true]
  ++ loop_events m o tgt 0 loader_train_batches outs.

Fixpoint train_events (m o tgt : nat) (num_epochs : Z) (epochs : list Z)
    (outss : list (list Out)) : list Event :=
  match epochs, outss with
  | epoch :: epochs', outs :: outss' =>
      epoch_events m o tgt num_epochs epoch outs
        ++ train_events m o tgt num_epochs epochs' outss'
  | _, _ => []
  end.

(** The loop of [check_accuracy]: each batch is fetched and run forward. *)
Fixpoint check_events (m : nat) (batches : list (list Z)) (outs : list (list (list Q)))
  : list Event :=
  match batches, outs with
  | idxs :: batches', scores :: outs' =>
      EvFetch idxs :: EvForward m scores :: check_events m batches' outs'
  | _, _ => []
  end.

(** The samples classified as labelled, over the batches of a loader. *)
Fixpoint count_correct {fw} (ds : Dataset fw) (batches : list (list Z))
    (outs : list (list (list Q))) : Z :=
  match batches, outs with
  | idxs :: batches', scores :: outs' =>
      (Z.of_nat (correct_in scores (Dataset_labels fw ds idxs))
       + count_correct ds batches' outs')%Z
  | _, _ => 0%Z
  end.


Definition header_line (line : string) : Prop :=
  line = "Checking accuracy on validation set"%string \/
  line = "Checking accuracy on test set"%string.

(** ** Specifications of statements *)

(** What a statement may do: from the next free object id before it, its
    outcome, the events it adds to the trace and the next free id after. *)
Definition run_spec {fw : Framework} {A} (m : M fw A)
    (Q : nat -> result A -> list Event -> nat -> Prop) : Prop :=
  forall w r w', m w = (r, w') ->
    exists tr, trace w' = trace w ++ tr /\ Q (next_id w) r tr (next_id w').

(** The events of a call: those of its return, or the raise alone. *)
Definition call_events {A} (ok : A -> list Event) (r : result A) : list Event :=
  match r with Ok a => ok a | Raise e => [EvRaise e] end.

(** A call that creates no object. *)
Definition call {A} (ok : A -> list Event) (P : A -> Prop)
  : nat -> result A -> list Event -> nat -> Prop :=
  fun n r tr n' =>
    n' = n /\ tr = call_events ok r /\ forall a, r = Ok a -> P a.

Definition silent {A} : A -> list Event := fun _ => [].
Definition any {A} : A -> Prop := fun _ => True.

(** A run leaves the expected events [full], or a part of them and the
    raise. *)
Definition shape {A} (full : list Event) (r : result A) (tr : list Event) : Prop :=
  match r with
  | Ok _ => tr = full
  | Raise e => exists tr0, tr = tr0 ++ [EvRaise e] /\ tr0 `prefix_of` full
  end.

(** A stretch of a trace in which every optimizer step follows a backward
    pass of the module it updates. *)
Definition own_seg (tr : list Event) : Prop := forall last, steps_own last tr = true.

Fixpoint last_backward (last : option nat) (tr : list Event) : option nat :=
  match tr with
  | [] => last
  | EvBackward m :: tr' => last_backward (Some m) tr'
  | _ :: tr' => last_backward last tr'
  end.

(** The number of batches of the training loader. *)
Definition num_batches : nat := 766.

(** The history of the parameters a whole run of the notebook leaves, when
    its first object gets the id [n]: the modules are [n] (simple_model),
    [n + 2] (fixed_model_base), [n + 4] (fixed_model_gpu) and [n + 6]
    (model); the optimizers that step are [n + 5] and [n + 7]. *)
Definition notebook_history (n : nat) : list Event :=
  [EvInit n; EvInit (n + 2); EvCopy (n + 2) (n + 4)]
  ++ replicate num_batches (EvStep (n + 5) (n + 4))
  ++ [EvInit (n + 4)]
  ++ replicate num_batches (EvStep (n + 5) (n + 4))
  ++ [EvInit (n + 6)]
  ++ replicate num_batches (EvStep (n + 7) (n + 6)).

(** A run so far: the events since [w] and what they add up to. *)
Record so_far {fw : Framework} (w w1 : World fw) (tr : list Event) (hist : list Event) (k : nat) : Prop := {
  sf_trace : trace w1 = trace w ++ tr;
  sf_own : own_seg tr;
  sf_hist : history tr = hist;
  sf_next : next_id w1 = next_id w + k
}.


(** ** What a statement may write *)

(** The parts of the world a statement may write: for each module its mode,
    its parameters, its buffers and its gradients, and the state of each
    optimizer. *)
Record Footprint := mkFootprint {
  fp_mode : nat -> Prop;
  fp_params : nat -> Prop;
  fp_buffers : nat -> Prop;
  fp_grad : nat -> Prop;
  fp_opt : nat -> Prop
}.

Definition fp_le (fp fp' : Footprint) : Prop :=
  (forall m, fp_mode fp m -> fp_mode fp' m) /\
  (forall m, fp_params fp m -> fp_params fp' m) /\
  (forall m, fp_buffers fp m -> fp_buffers fp' m) /\
  (forall m, fp_grad fp m -> fp_grad fp' m) /\
  (forall o, fp_opt fp o -> fp_opt fp' o).

(** Module [m] went from [a] to [b] by writes within the footprint; the
    layers of a module never change. *)
Definition module_kept {fw} (fp : Footprint) (m : nat) (a b : Module fw) : Prop :=
  layers b = layers a /\
  (~ fp_mode fp m -> training b = training a) /\
  (~ fp_params fp m -> params b = params a) /\
  (~ fp_buffers fp m -> buffers b = buffers a) /\
  (~ fp_grad fp m -> grad b = grad a).

(** The world went from [w] to [w'] by writes within the footprint: no
    object was created, the random state is the same, and every module and
    optimizer state outside the footprint is as it was. *)
Definition changes_only {fw} (fp : Footprint) (w w' : World fw) : Prop :=
  next_id w' = next_id w /\ rng w' = rng w /\
  (forall o, ~ fp_opt fp o -> opt_states w' !! o = opt_states w !! o) /\
  (forall m, match modules w !! m, modules w' !! m with
             | Some a, Some b => module_kept fp m a b
             | None, None => True
             | _, _ => False
             end).

(** A statement that writes within the footprint, however it ends, and
    whose value satisfies [P] when it returns. *)
Definition writes {fw A} (fp : Footprint) (m : M fw A) (P : A -> Prop) : Prop :=
  forall w r w', m w = (r, w') -> changes_only fp w w' /\ forall a, r = Ok a -> P a.

Definition nothing : nat -> Prop := fun _ => False.

(** A forward pass writes the buffers of the module. *)
Definition forward_writes (model : nat) : Footprint :=
  mkFootprint nothing nothing (eq model) nothing nothing.

Definition check_accuracy_writes (model : nat) : Footprint :=
  mkFootprint (eq model) nothing (eq model) nothing nothing.

(** An iteration of training writes the buffers of the model, the gradients
    of the model and of the module the optimizer is over, the parameters of
    the latter and the state of the optimizer. *)
Definition train_step_writes (model : nat) (o : Optimizer) : Footprint :=
  mkFootprint nothing (eq (opt_target o)) (eq model)
              (fun m => m = model \/ m = opt_target o) (eq (opt_id o)).

Definition train_writes (model : nat) (o : Optimizer) : Footprint :=
  mkFootprint (eq model) (eq (opt_target o)) (eq model)
              (fun m => m = model \/ m = opt_target o) (eq (opt_id o)).

(** Module [m] exists and is in training mode ([b = true]) or in evaluation
    mode ([b = false]). *)
Definition mode_is {fw} (m : nat) (b : bool) (w : World fw) : Prop :=
  exists md, modules w !! m = Some md /\ training md = b.

(** The losses computed, in order. *)
Definition losses (tr : list Event) : list float :=
  omap (fun ev => match ev with EvLoss _ l => Some l | _ => None end) tr.

(** The iterations (counted from 0) of a loop over [n] batches, starting at
    iteration [t], at which the training loop prints its progress. *)
Definition printing_iterations (t n : nat) : list nat :=
  List.filter (fun i => ((Z.of_nat i + 1) mod print_every =? 0)%Z) (seq t n).

(** * Properties *)

(** ** Samplers *)

Lemma count_from_seqZ (a : Z) (n : nat) : count_from a n = seqZ a (Z.of_nat n).
Proof.
  revert a. induction n as [|n IH]; intros a.
  - reflexivity.
  - cbn [count_from]. rewrite IH, (seqZ_cons a) by lia. do 2 f_equal; lia.
Qed.

Lemma range_seqZ (a n : Z) : range a (a + n) = seqZ a n.
Proof.
  unfold range. rewrite count_from_seqZ.
  destruct (Z.le_gt_cases 0 n).
  - f_equal. lia.
  - rewrite !seqZ_nil by lia. reflexivity.
Qed.

Lemma seqZ_sequential (a n : Z) : sequential_order (seqZ a n).
Proof.
  intros i x y Hx Hy.
  apply lookup_seqZ in Hx as [-> _]. apply lookup_seqZ in Hy as [-> _]. lia.
Qed.

Lemma ChunkSampler_iter_seqZ (s : ChunkSampler) :
  ChunkSampler_iter s = seqZ (start s) (num_samples s).
Proof. unfold ChunkSampler_iter. apply range_seqZ. Qed.

Lemma BatchSampler_go_concat bs cur idxs :
  concat (BatchSampler_go bs cur idxs) = rev cur ++ idxs.
Proof.
  revert cur. induction idxs as [|i idxs IH]; intros cur.
  - destruct cur; simpl; [reflexivity|]. now rewrite !app_nil_r.
  - cbn [BatchSampler_go]. destruct (length (i :: cur) =? bs).
    + cbn [concat]. rewrite IH. simpl. now rewrite <- app_assoc.
    + rewrite IH. simpl. now rewrite <- app_assoc.
Qed.

Lemma BatchSampler_go_sizes bs cur idxs b :
  0 < bs -> length cur < bs ->
  b ∈ BatchSampler_go bs cur idxs -> 0 < length b <= bs.
Proof.
  intros Hbs. revert cur. induction idxs as [|i idxs IH]; intros cur Hcur Hb.
  - destruct cur as [|c cur]; [inversion Hb|].
    apply list_elem_of_singleton in Hb as ->.
    rewrite length_rev. simpl in *. lia.
  - cbn [BatchSampler_go] in Hb.
    destruct (Nat.eqb_spec (length (i :: cur)) bs) as [E|E].
    + apply elem_of_cons in Hb as [->|Hb].
      * rewrite length_rev. lia.
      * apply (IH []); simpl; [lia|exact Hb].
    + apply (IH (i :: cur)); [simpl in *; lia|exact Hb].
Qed.

Lemma BatchSampler_iter_sizes bs idxs b :
  0 < bs -> b ∈ BatchSampler_iter bs idxs -> 0 < length b <= bs.
Proof.
  intros Hbs Hb.
  apply (BatchSampler_go_sizes bs [] idxs b); [exact Hbs | exact Hbs | exact Hb].
Qed.

Lemma loader_train_batches_eq :
  loader_train_batches = BatchSampler_iter 64 (ChunkSampler_iter sampler_train).
Proof. reflexivity. Qed.


(** C8.  For every ChunkSampler(num_samples, start), __iter__ yields exactly
    the num_samples consecutive indices start, start+1, ...,
    start+num_samples-1, and __len__ returns num_samples, which is the number
    of indices yielded (for a number of samples, hence not negative); the
    training sampler ChunkSampler(49000, 0) and the validation sampler
    ChunkSampler(1000, 49000) select disjoint index sets whose union is
    exactly the range 0..49999. *)
Theorem ChunkSampler_partition :
  (forall s : ChunkSampler,
      ChunkSampler_iter s = seqZ (start s) (num_samples s) /\
      ChunkSampler_len s = num_samples s /\
      length (ChunkSampler_iter s) = Z.to_nat (num_samples s) /\
      ((0 <= num_samples s)%Z ->
       Z.of_nat (length (ChunkSampler_iter s)) = ChunkSampler_len s)) /\
  (forall i, i ∈ ChunkSampler_iter sampler_train ->
             i ∈ ChunkSampler_iter sampler_val -> False) /\
  (forall i, i ∈ ChunkSampler_iter sampler_train \/
             i ∈ ChunkSampler_iter sampler_val <-> (0 <= i <= 49999)%Z).
Proof.
  split; [|split].
  - intros s. rewrite ChunkSampler_iter_seqZ, length_seqZ. unfold ChunkSampler_len.
    repeat split; auto. intros H. lia.
  - intros i. rewrite !ChunkSampler_iter_seqZ, !elem_of_seqZ.
    unfold sampler_train, sampler_val, NUM_TRAIN, NUM_VAL. simpl. lia.
  - intros i. rewrite !ChunkSampler_iter_seqZ, !elem_of_seqZ.
    unfold sampler_train, sampler_val, NUM_TRAIN, NUM_VAL. simpl. lia.
Qed.

Lemma ChunkSampler_partition_witness :
  (0 <= num_samples sampler_val)%Z /\
  Z.of_nat (length (ChunkSampler_iter sampler_val)) = ChunkSampler_len sampler_val.
Proof.
  split; [unfold sampler_val, NUM_VAL; cbn; lia|].
  apply (proj1 ChunkSampler_partition sampler_val).
  unfold sampler_val, NUM_VAL; cbn; lia.
Defined.

(** C3 as stated fails: the order the training sampler yields is not
    shuffled, it is the fixed sequential order. *)
Lemma train_sampler_not_shuffled :
  ~ shuffled_order (ChunkSampler_iter sampler_train).
Proof.
  intros H. apply H. rewrite ChunkSampler_iter_seqZ. apply seqZ_sequential.
Qed.

(** C3, amended.  The training loader supplies batches of labelled images in
    a fixed sequential order: every ChunkSampler yields its indices in
    ascending consecutive order, and the batches of the training loader are
    the 766 successive non-empty chunks of at most 64 indices of 0..48999,
    the same on every pass. *)
Theorem train_loader_sequential :
  (forall s : ChunkSampler, sequential_order (ChunkSampler_iter s)) /\
  concat loader_train_batches = seqZ 0 NUM_TRAIN /\
  (forall b, b ∈ loader_train_batches -> 0 < length b <= 64) /\
  length loader_train_batches = 766.
Proof.
  split; [|split; [|split]].
  - intros s. rewrite ChunkSampler_iter_seqZ. apply seqZ_sequential.
  - rewrite loader_train_batches_eq. unfold BatchSampler_iter.
    rewrite BatchSampler_go_concat. cbn [rev app].
    apply ChunkSampler_iter_seqZ.
  - intros b Hb. rewrite loader_train_batches_eq in Hb.
    apply (BatchSampler_iter_sizes 64 (ChunkSampler_iter sampler_train) b); [lia|].
    exact Hb.
  - vm_compute. reflexivity.
Qed.

(** ** Sizes through the fixed model *)

Lemma infer_size_flatten (N D : Z) :
  (0 < N)%Z -> (0 < D)%Z -> infer_size (N * D) [N; (-1)%Z] = Ok [N; D].
Proof.
  intros HN HD. unfold infer_size. cbn [infer_scan].
  destruct (Z.eqb_spec N (-1)); [lia|]. destruct (Z.leb_spec 0 N); [|lia].
  rewrite Z.mul_1_l. cbn [Z.eqb Pos.eqb rbind fst snd andb].
  destruct (Z.ltb_spec 0 N); [|lia].
  rewrite (Z.mul_comm N D), Z.mod_mul by lia. cbn [Z.eqb andb]. rewrite orb_true_r.
  destruct (Z.eqb_spec N 0); [lia|]. cbn [map].
  destruct (Z.eqb_spec N (-1)); [lia|]. rewrite Z.div_mul by lia. reflexivity.
Qed.

Lemma Sequential_sizes_ok l ls sz sz' :
  layer_out l sz = Ok sz' ->
  Sequential_sizes (l :: ls) sz = sz' :: Sequential_sizes ls sz'.
Proof. intros H. cbn [Sequential_sizes]. now rewrite H. Qed.

Lemma Sequential_out_ok l ls sz sz' :
  layer_out l sz = Ok sz' -> Sequential_out (l :: ls) sz = Sequential_out ls sz'.
Proof. intros H. cbn [Sequential_out]. now rewrite H. Qed.

Lemma Flatten_out (N C H W : Z) :
  (0 < N)%Z -> (0 < C * (H * W))%Z ->
  layer_out Flatten [N; C; H; W] = Ok [N; (C * (H * W))%Z].
Proof.
  intros HN HD. cbn [layer_out].
  replace (prod_dims [N; C; H; W]) with (N * (C * (H * W)))%Z
    by (cbn [prod_dims fold_right]; lia).
  now apply infer_size_flatten.
Qed.

(** C5.  In the fixed model's layer sequence the output size of each layer
    fits the input of the next: for every batch of N >= 1 images of size
    3x32x32 the convolution yields 32x26x26, pooling yields 32x13x13,
    flattening yields vectors of length 5408, the input size of the first
    affine layer, and the final output has size N x 10. *)
Theorem fixed_model_sizes (N : Z) :
  (0 < N)%Z ->
  Sequential_sizes fixed_model_base_layers [N; 3; 32; 32]%Z =
    [ [N; 32; 26; 26]; [N; 32; 26; 26]; [N; 32; 26; 26]; [N; 32; 13; 13];
      [N; 5408]; [N; 1024]; [N; 1024]; [N; 10] ]%Z /\
  Sequential_out fixed_model_base_layers [N; 3; 32; 32]%Z = Ok [N; 10]%Z.
Proof.
  intros HN.
  assert (HF : layer_out Flatten [N; 32; 13; 13]%Z = Ok [N; 5408]%Z).
  { apply (Flatten_out N 32 13 13); lia. }
  unfold fixed_model_base_layers. split.
  - rewrite (Sequential_sizes_ok _ _ _ [N; 32; 26; 26]%Z) by reflexivity.
    rewrite (Sequential_sizes_ok _ _ _ [N; 32; 26; 26]%Z) by reflexivity.
    rewrite (Sequential_sizes_ok _ _ _ [N; 32; 26; 26]%Z) by reflexivity.
    rewrite (Sequential_sizes_ok _ _ _ [N; 32; 13; 13]%Z) by reflexivity.
    rewrite (Sequential_sizes_ok _ _ _ [N; 5408]%Z) by exact HF.
    reflexivity.
  - rewrite (Sequential_out_ok _ _ _ [N; 32; 26; 26]%Z) by reflexivity.
    rewrite (Sequential_out_ok _ _ _ [N; 32; 26; 26]%Z) by reflexivity.
    rewrite (Sequential_out_ok _ _ _ [N; 32; 26; 26]%Z) by reflexivity.
    rewrite (Sequential_out_ok _ _ _ [N; 32; 13; 13]%Z) by reflexivity.
    rewrite (Sequential_out_ok _ _ _ [N; 5408]%Z) by exact HF.
    reflexivity.
Qed.

Lemma fixed_model_sizes_witness :
  (0 < 64)%Z /\
  Sequential_out fixed_model_base_layers [64; 3; 32; 32]%Z = Ok [64; 10]%Z.
Proof. split; [lia | apply (fixed_model_sizes 64); lia]. Defined.
(** ** Flatten *)

Lemma offset_in_range (acc d s i : Z) dims strides idx :
  (0 <= i < d)%Z ->
  offset acc (d :: dims) (s :: strides) (i :: idx) = offset (acc + i * s) dims strides idx.
Proof.
  intros Hi. cbn [offset].
  destruct (Z.leb_spec 0 i); [|lia]. destruct (Z.ltb_spec i d); [|lia]. reflexivity.
Qed.

Lemma offset_inv (acc d s : Z) dims strides idx o :
  offset acc (d :: dims) (s :: strides) idx = Some o ->
  exists i idx', idx = i :: idx' /\ (0 <= i < d)%Z /\
                 offset (acc + i * s) dims strides idx' = Some o.
Proof.
  destruct idx as [|i idx']; [discriminate|]. cbn [offset].
  destruct (Z.leb_spec 0 i); [|discriminate]. destruct (Z.ltb_spec i d); [|discriminate].
  cbn [andb]. intros H'. exists i, idx'. repeat split; auto.
Qed.

Lemma offset_nil_inv (acc : Z) idx o : offset acc [] [] idx = Some o -> idx = [] /\ o = acc.
Proof. destruct idx; [|discriminate]. cbn. intros H. injection H as <-. auto. Qed.

(** The strides the framework finds for the view N x (C*H*W) of a
    contiguous N x C x H x W tensor. *)
Lemma compute_stride_flatten (N C H W : Z) :
  (0 < N)%Z -> (0 < C)%Z -> (0 < H)%Z -> (0 < W)%Z ->
  compute_stride [N; C; H; W] (contiguous_strides [N; C; H; W]) [N; (C * (H * W))%Z]
  = Some [(C * (H * W))%Z; 1%Z].
Proof.
  intros HN HC HH HW. unfold compute_stride.
  assert (HD : (0 < C * (H * W))%Z) by nia.
  destruct (Z.eqb_spec (prod_dims [N; C; H; W]) 0) as [E|_].
  { cbn [prod_dims fold_right] in E. nia. }
  cbn [contiguous_strides fold_right zip zip_with rev app List.last].
  rewrite !Z.max_l by lia. rewrite !Z.mul_1_r.
  cbn [compute_stride_go]. rewrite !Z.mul_1_l, !Z.mul_1_r.
  rewrite (Z.mul_comm W H), Z.eqb_refl, andb_false_r.
  rewrite (Z.mul_comm (H * W) C), Z.eqb_refl, andb_false_r.
  replace (W * H * C)%Z with (C * (H * W))%Z by ring.
  rewrite Z.eqb_refl, andb_false_r.
  cbn [view_chunk].
  replace (C * (H * W) * N)%Z with (N * (C * (H * W)))%Z by ring.
  destruct (Z.ltb_spec 1 (N * (C * (H * W)))) as [H1|H1]; cbn [orb].
  - rewrite Z.mul_1_l.
    destruct (Z.ltb_spec (C * (H * W)) (N * (C * (H * W)))) as [H2|H2]; cbn [orb].
    + rewrite (Z.mul_comm (C * (H * W)) N), Z.eqb_refl. rewrite Z.mul_1_r. reflexivity.
    + assert (N = 1)%Z by nia. subst N. cbn [Z.eqb Pos.eqb].
      rewrite Z.mul_1_r, Z.mul_1_l, Z.eqb_refl. reflexivity.
  - assert (N = 1 /\ C * (H * W) = 1)%Z as [-> E1] by nia. rewrite E1.
    cbn. reflexivity.
Qed.

(** C9 as stated fails, on a tensor that is not contiguous: the
    transposed 1 x 2 x 2 x 1 tensor is well formed and holds four elements,
    and Flatten.forward raises on it, because no strides present its
    elements as 1 x 4. *)
Lemma Flatten_forward_rejects_transposed :
  ~ (forall (x : Tensor Z) (N C H W : Z),
        size x = [N; C; H; W] -> well_formed x ->
        (0 < N)%Z -> (0 < C)%Z -> (0 < H)%Z -> (0 < W)%Z ->
        exists y, Flatten_forward x = Ok y /\ size y = [N; (C * H * W)%Z]).
Proof.
  intros Hall.
  destruct (Hall transposed_tensor 1 2 2 1)%Z as (y & Hy & _); try lia; try reflexivity.
  - split; [repeat constructor; lia|]. split; [reflexivity|].
    intros idx o Ho. cbn [transposed_tensor size stride storage_offset storage] in Ho.
    apply offset_inv in Ho as (n & idx1 & -> & Hn & Ho).
    apply offset_inv in Ho as (c & idx2 & -> & Hc & Ho).
    apply offset_inv in Ho as (h & idx3 & -> & Hh & Ho).
    apply offset_inv in Ho as (w & idx4 & -> & Hw & Ho).
    apply offset_nil_inv in Ho as [-> ->].
    cbn [transposed_tensor storage length Z.of_nat Pos.of_succ_nat Pos.succ]. lia.
  - vm_compute in Hy. discriminate Hy.
Qed.

(** C9, amended.  For every contiguous input tensor x of size N x C x H x W
    (row-major strides, every dimension at least 1), Flatten.forward(x)
    returns a tensor of size N x (C*H*W) over the same storage, with strides
    (C*H*W, 1): the element at (n, c, h, w) of x is the element at
    (n, (c*H + h)*W + w) of the result; N and the number of elements are
    kept and no element is modified. *)
Theorem Flatten_forward_keeps_elements {A} (x : Tensor A) (N C H W : Z) :
  size x = [N; C; H; W] -> stride x = contiguous_strides (size x) -> well_formed x ->
  (0 < N)%Z -> (0 < C)%Z -> (0 < H)%Z -> (0 < W)%Z ->
  exists y,
    Flatten_forward x = Ok y /\
    size y = [N; (C * H * W)%Z] /\
    stride y = [(C * H * W)%Z; 1%Z] /\
    storage y = storage x /\
    storage_offset y = storage_offset x /\
    numel y = numel x /\
    well_formed y /\
    forall n c h w,
      (0 <= n < N)%Z -> (0 <= c < C)%Z -> (0 <= h < H)%Z -> (0 <= w < W)%Z ->
      is_Some (get x [n; c; h; w]) /\
      get y [n; ((c * H + h) * W + w)%Z] = get x [n; c; h; w].
Proof.
  intros Hsz Hst (Hnn & Hlen & Hin) HN HC HH HW.
  assert (HD : (0 < C * (H * W))%Z) by nia.
  rewrite Hsz in Hst.
  assert (Hst' : stride x = [(C * (H * W))%Z; (H * W)%Z; W; 1%Z]).
  { rewrite Hst. cbn [contiguous_strides fold_right].
    rewrite !Z.max_l by lia. now rewrite !Z.mul_1_r. }
  exists (mkTensor [N; (C * H * W)%Z] [(C * H * W)%Z; 1%Z] (storage_offset x) (storage x)).
  assert (Hx : forall n c h w,
             (0 <= n < N)%Z -> (0 <= c < C)%Z -> (0 <= h < H)%Z -> (0 <= w < W)%Z ->
             offset (storage_offset x) (size x) (stride x) [n; c; h; w]
             = Some (storage_offset x + n * (C * (H * W)) + c * (H * W) + h * W + w * 1)%Z).
  { intros n c h w Hn Hc Hh Hw. rewrite Hsz, Hst'.
    rewrite !offset_in_range by assumption. reflexivity. }
  assert (Hlo : (0 <= storage_offset x)%Z /\
                (storage_offset x + N * (C * (H * W)) <= Z.of_nat (length (storage x)))%Z).
  { pose proof (Hin _ _ (Hx 0 0 0 0 ltac:(lia) ltac:(lia) ltac:(lia) ltac:(lia)))%Z as H0.
    pose proof (Hin _ _ (Hx (N - 1) (C - 1) (H - 1) (W - 1)
                           ltac:(lia) ltac:(lia) ltac:(lia) ltac:(lia)))%Z as H1.
    split; [lia|].
    replace (storage_offset x + (N - 1) * (C * (H * W)) + (C - 1) * (H * W)
             + (H - 1) * W + (W - 1) * 1)%Z
      with (storage_offset x + N * (C * (H * W)) - 1)%Z in H1 by ring.
    lia. }
  split; [|split; [|split; [|split; [|split; [|split; [|split]]]]]].
  - unfold Flatten_forward. rewrite Hsz. unfold view, numel. rewrite Hsz, Hst.
    replace (prod_dims [N; C; H; W]) with (N * (C * (H * W)))%Z
      by (cbn [prod_dims fold_right]; ring).
    rewrite infer_size_flatten by lia. cbn [rbind].
    rewrite compute_stride_flatten by lia.
    now rewrite !Z.mul_assoc.
  - reflexivity.
  - reflexivity.
  - reflexivity.
  - reflexivity.
  - unfold numel. rewrite Hsz. cbn [size prod_dims fold_right]. ring.
  - split; [|split]; cbn [size stride storage storage_offset].
    + repeat constructor; nia.
    + reflexivity.
    + intros idx o Ho.
      apply offset_inv in Ho as (n & idx1 & -> & Hn & Ho).
      apply offset_inv in Ho as (j & idx2 & -> & Hj & Ho).
      apply offset_nil_inv in Ho as [-> ->].
      assert (0 <= n * (C * H * W) + j < N * (C * (H * W)))%Z by nia.
      lia.
  - intros n c h w Hn Hc Hh Hw.
    assert (Hch : (0 <= c * H + h <= C * H - 1)%Z) by nia.
    assert (Hj : (0 <= (c * H + h) * W + w < C * H * W)%Z).
    { split; [nia|].
      apply Z.lt_le_trans with ((c * H + h) * W + W)%Z; [lia|].
      replace ((c * H + h) * W + W)%Z with ((c * H + h + 1) * W)%Z by ring.
      apply Z.mul_le_mono_nonneg_r; lia. }
    assert (Ho : (0 <= storage_offset x + n * (C * (H * W)) + c * (H * W) + h * W + w * 1
                  < Z.of_nat (length (storage x)))%Z).
    { apply (Hin [n; c; h; w]). now apply Hx. }
    unfold get. cbn [size stride storage storage_offset].
    rewrite (Hx n c h w) by assumption.
    rewrite !offset_in_range by assumption. cbn [offset].
    replace (storage_offset x + n * (C * H * W) + ((c * H + h) * W + w) * 1)%Z
      with (storage_offset x + n * (C * (H * W)) + c * (H * W) + h * W + w * 1)%Z by ring.
    split; [|reflexivity].
    destruct (Z.leb_spec 0 (storage_offset x + n * (C * (H * W)) + c * (H * W) + h * W + w * 1));
      [|lia].
    apply lookup_lt_is_Some. lia.
Qed.

Lemma Flatten_forward_keeps_elements_witness :
  exists y,
    Flatten_forward (mkTensor [1; 2; 1; 2]%Z [4; 2; 2; 1]%Z 0 [10; 20; 30; 40]%Z) = Ok y /\
    size y = [1; 4]%Z /\ storage y = [10; 20; 30; 40]%Z /\
    get y [0; 3]%Z = Some 40%Z.
Proof.
  destruct (Flatten_forward_keeps_elements
              (mkTensor [1; 2; 1; 2]%Z [4; 2; 2; 1]%Z 0 [10; 20; 30; 40]%Z) 1 2 1 2)
    as (y & H1 & H2 & _ & H3 & _ & _ & _ & H4).
  - reflexivity.
  - reflexivity.
  - split; [repeat constructor; lia|]. split; [reflexivity|].
    intros idx o Ho. cbn [size stride storage_offset storage] in Ho.
    apply offset_inv in Ho as (n & idx1 & -> & Hn & Ho).
    apply offset_inv in Ho as (c & idx2 & -> & Hc & Ho).
    apply offset_inv in Ho as (h & idx3 & -> & Hh & Ho).
    apply offset_inv in Ho as (w & idx4 & -> & Hw & Ho).
    apply offset_nil_inv in Ho as [-> ->]. cbn. lia.
  - lia.
  - lia.
  - lia.
  - lia.
  - exists y. split; [exact H1|]. split; [exact H2|]. split; [exact H3|].
    destruct (H4 0 1 0 1)%Z as [_ E]; try lia. exact E.
Defined.

(** ** Floats *)

(** Rounding to the nearest integer is within one half. *)
Lemma round_half_even_near (x : Q) :
  (inject_Z (round_half_even x) - (1 # 2) <= x)%Q /\
  (x <= inject_Z (round_half_even x) + (1 # 2))%Q.
Proof.
  destruct x as [n d]. unfold round_half_even. cbn [Qnum Qden].
  pose proof (Z.div_mod n (Zpos d) ltac:(lia)) as Hdm.
  pose proof (Z.mod_pos_bound n (Zpos d) ltac:(lia)) as Hm.
  set (fl := (n / Zpos d)%Z) in *. set (r := (n mod Zpos d)%Z) in *.
  assert (Hq : forall k : Z,
             ((inject_Z k - (1 # 2) <= n # d)%Q <-> (2 * k * Zpos d - Zpos d <= 2 * n)%Z) /\
             ((n # d <= inject_Z k + (1 # 2))%Q <-> (2 * n <= 2 * k * Zpos d + Zpos d)%Z)).
  { intros k. unfold Qle, Qminus, Qplus, Qopp, inject_Z. cbn [Qnum Qden].
    rewrite !Pos2Z.inj_mul. split; split; intros H; nia. }
  destruct (Z.ltb_spec (2 * r) (Zpos d)); [|destruct (Z.ltb_spec (Zpos d) (2 * r));
    [|destruct (Z.even fl)]].
  all: split; apply Hq; nia.
Qed.

Lemma round_half_even_le (x : Q) (k : Z) :
  (x <= inject_Z k)%Q -> (round_half_even x <= k)%Z.
Proof.
  intros H. destruct (round_half_even_near x) as [H1 _].
  assert (H2 : (inject_Z (round_half_even x) - (1 # 2) <= inject_Z k)%Q) by lra.
  unfold Qle, Qminus, Qplus, Qopp, inject_Z in H2. cbn [Qnum Qden] in H2. lia.
Qed.

Lemma round_half_even_ge (x : Q) (k : Z) :
  (inject_Z k <= x)%Q -> (k <= round_half_even x)%Z.
Proof.
  intros H. destruct (round_half_even_near x) as [_ H1].
  assert (H2 : (inject_Z k <= inject_Z (round_half_even x) + (1 # 2))%Q) by lra.
  unfold Qle, Qminus, Qplus, Qopp, inject_Z in H2. cbn [Qnum Qden] in H2. lia.
Qed.

Lemma pow2_pos (e : Z) : (0 < pow2 e)%Q.
Proof. apply Qpower_0_lt. reflexivity. Qed.

Lemma pow2_add (a b : Z) : (pow2 (a + b) == pow2 a * pow2 b)%Q.
Proof. apply Qpower_plus. discriminate. Qed.

Lemma pow2_Z (a : Z) : (0 <= a)%Z -> (pow2 a == inject_Z (2 ^ a))%Q.
Proof. intros H. symmetry. now apply (Zpower_Qpower 2 a). Qed.

Lemma pow2_le (a b : Z) : (a <= b)%Z -> (pow2 a <= pow2 b)%Q.
Proof. intros H. apply Qpower_le_compat_l; [exact H | discriminate]. Qed.

Lemma pow2_lt_inv (a b : Z) : (pow2 a < pow2 b)%Q -> (a < b)%Z.
Proof. intros H. apply (Qpower_lt_compat_l_inv 2); [exact H | reflexivity]. Qed.

Lemma pow2_cancel (a : Z) : (pow2 (- a) * pow2 a == 1)%Q.
Proof. rewrite <- pow2_add. now replace (- a + a)%Z with 0%Z by lia. Qed.

Lemma floor_log2_spec (q : Q) :
  (0 < q)%Q -> (pow2 (floor_log2 q) <= q)%Q /\ (q < pow2 (floor_log2 q + 1))%Q.
Proof.
  intros Hq. destruct q as [n d].
  assert (Hn : (0 < n)%Z) by (unfold Qlt in Hq; cbn in Hq; lia).
  unfold floor_log2. cbn [Qnum Qden].
  set (ln := Z.log2 n). set (ld := Z.log2 (Zpos d)).
  assert (Hln : (2 ^ ln <= n < 2 ^ (ln + 1))%Z).
  { subst ln. pose proof (Z.log2_spec n Hn) as H. unfold Z.succ in H. exact H. }
  assert (Hld : (2 ^ ld <= Zpos d < 2 ^ (ld + 1))%Z).
  { subst ld. pose proof (Z.log2_spec (Zpos d) ltac:(lia)) as H. unfold Z.succ in H.
    exact H. }
  assert (H0n : (0 <= ln)%Z) by apply Z.log2_nonneg.
  assert (H0d : (0 <= ld)%Z) by apply Z.log2_nonneg.
  assert (Hqd : (n # d == inject_Z n / inject_Z (Zpos d))%Q) by apply Qmake_Qdiv.
  assert (Hd : (0 < inject_Z (Zpos d))%Q) by (rewrite <- (Zlt_Qlt 0); lia).
  assert (Hqn : ((n # d) * inject_Z (Zpos d) == inject_Z n)%Q).
  { rewrite Hqd. field. intros E. rewrite E in Hd. now apply Qlt_irrefl in Hd. }
  assert (Hup : (n # d < pow2 (ln - ld + 1))%Q).
  { replace (ln - ld + 1)%Z with ((ln + 1) + - ld)%Z by lia. rewrite pow2_add.
    assert (Hl : (pow2 ld <= inject_Z (Zpos d))%Q).
    { rewrite pow2_Z by lia. rewrite <- Zle_Qle. lia. }
    assert (Hu : (inject_Z n < pow2 (ln + 1))%Q).
    { rewrite pow2_Z by lia. rewrite <- Zlt_Qlt. lia. }
    pose proof (pow2_pos ld) as Hp. pose proof (pow2_pos (- ld)) as Hp'.
    pose proof (pow2_cancel ld) as Hc.
    assert ((n # d) * pow2 ld <= inject_Z n)%Q.
    { rewrite <- Hqn. apply Qmult_le_l; [exact Hq | exact Hl]. }
    assert (((n # d) * pow2 ld) * pow2 (- ld) < pow2 (ln + 1) * pow2 (- ld))%Q.
    { apply Qmult_lt_compat_r; [exact Hp'|]. lra. }
    assert (E : ((n # d) * pow2 ld * pow2 (- ld) == n # d)%Q).
    { rewrite <- Qmult_assoc, (Qmult_comm (pow2 ld)), Hc. ring. }
    rewrite E in H0. exact H0. }
  assert (Hlow : (pow2 (ln - ld - 1) <= n # d)%Q).
  { replace (ln - ld - 1)%Z with (ln + - (ld + 1))%Z by lia. rewrite pow2_add.
    assert (Hl : (inject_Z (Zpos d) <= pow2 (ld + 1))%Q).
    { rewrite pow2_Z by lia. rewrite <- Zle_Qle. lia. }
    assert (Hu : (pow2 ln <= inject_Z n)%Q).
    { rewrite pow2_Z by lia. rewrite <- Zle_Qle. lia. }
    pose proof (pow2_pos (ld + 1)) as Hp. pose proof (pow2_pos (- (ld + 1))) as Hp'.
    pose proof (pow2_cancel (ld + 1)) as Hc.
    assert (inject_Z n <= (n # d) * pow2 (ld + 1))%Q.
    { rewrite <- Hqn. apply Qmult_le_l; [exact Hq | exact Hl]. }
    assert (pow2 ln * pow2 (- (ld + 1)) <= ((n # d) * pow2 (ld + 1)) * pow2 (- (ld + 1)))%Q.
    { apply Qmult_le_compat_r; [lra | apply Qlt_le_weak, Hp']. }
    assert (E : ((n # d) * pow2 (ld + 1) * pow2 (- (ld + 1)) == n # d)%Q).
    { rewrite <- Qmult_assoc, (Qmult_comm (pow2 (ld + 1))), Hc. ring. }
    rewrite E in H0. exact H0. }
  destruct (Qle_bool (pow2 (ln - ld)) (n # d)) eqn:E.
  - apply Qle_bool_iff in E. split; [exact E | exact Hup].
  - assert (Hlt : (n # d < pow2 (ln - ld))%Q).
    { apply Qnot_le_lt. intros H. apply Qle_bool_iff in H. congruence. }
    split; [exact Hlow|]. now replace (ln - ld - 1 + 1)%Z with (ln - ld)%Z by lia.
Qed.

Lemma floor_log2_ge (a : Z) (q : Q) : (0 < q)%Q -> (pow2 a <= q)%Q -> (a <= floor_log2 q)%Z.
Proof.
  intros Hq Ha. destruct (floor_log2_spec q Hq) as [_ Hu].
  assert (H : (pow2 a < pow2 (floor_log2 q + 1))%Q) by lra.
  apply pow2_lt_inv in H. lia.
Qed.

Lemma floor_log2_lt (a : Z) (q : Q) : (0 < q)%Q -> (q < pow2 a)%Q -> (floor_log2 q < a)%Z.
Proof.
  intros Hq Ha. destruct (floor_log2_spec q Hq) as [Hl _].
  assert (H : (pow2 (floor_log2 q) < pow2 a)%Q) by lra.
  now apply pow2_lt_inv in H.
Qed.

Lemma round_pos_eq (q : Q) :
  (round_pos q ==
   inject_Z (round_half_even (q / pow2 (ulp_exponent q))) * pow2 (ulp_exponent q))%Q.
Proof. unfold round_pos. apply Qred_correct. Qed.

Lemma pow2_neq_0 (e : Z) : ~ (pow2 e == 0)%Q.
Proof. pose proof (pow2_pos e). lra. Qed.

Lemma scaled_eq (q : Q) (e : Z) : (q / pow2 e == q * pow2 (- e))%Q.
Proof.
  unfold Qdiv. apply Qmult_comp; [reflexivity|]. unfold pow2. now rewrite Qpower_opp.
Qed.

(** Rounding a rational in the normal range moves it by at most the
    fraction 2^-53 of itself. *)
Lemma round_pos_error (q : Q) :
  (0 < q)%Q -> (pow2 (-1022) <= q)%Q ->
  (q - q * pow2 (-53) <= round_pos q)%Q /\ (round_pos q <= q + q * pow2 (-53))%Q.
Proof.
  intros Hq Hn. rewrite round_pos_eq.
  assert (He : ulp_exponent q = (floor_log2 q - 52)%Z).
  { unfold ulp_exponent. pose proof (floor_log2_ge _ _ Hq Hn). lia. }
  rewrite He. set (e := (floor_log2 q - 52)%Z).
  destruct (round_half_even_near (q / pow2 e)) as [H1 H2].
  set (m := inject_Z (round_half_even (q / pow2 e))) in *.
  pose proof (pow2_pos e) as HP.
  assert (Hx : (q / pow2 e * pow2 e == q)%Q) by (field; apply pow2_neq_0).
  destruct (floor_log2_spec q Hq) as [Hl _].
  assert (HPB : (pow2 e * pow2 52 <= q)%Q).
  { rewrite <- pow2_add. now replace (e + 52)%Z with (floor_log2 q) by (subst e; lia). }
  assert (Hhalf : (pow2 e * (1 # 2) <= q * pow2 (-53))%Q).
  { assert (E : (pow2 e * (1 # 2) == pow2 e * pow2 52 * pow2 (-53))%Q).
    { rewrite <- Qmult_assoc. apply Qmult_comp; [reflexivity|]. reflexivity. }
    rewrite E. apply Qmult_le_compat_r; [exact HPB|]. apply Qlt_le_weak, pow2_pos. }
  set (x := (q / pow2 e)%Q) in *. set (P := pow2 e) in *.
  assert (Hm1 : ((m - (1 # 2)) * P <= x * P)%Q)
    by (apply Qmult_le_compat_r; [exact H1 | apply Qlt_le_weak, HP]).
  assert (Hm2 : (x * P <= (m + (1 # 2)) * P)%Q)
    by (apply Qmult_le_compat_r; [exact H2 | apply Qlt_le_weak, HP]).
  rewrite Hx in Hm1, Hm2. split; lra.
Qed.

(** Rounding does not cross an integer, below 2^53. *)
Lemma round_pos_le_int (q : Q) (K : Z) :
  (0 < q)%Q -> (q <= inject_Z K)%Q -> (q < pow2 53)%Q -> (round_pos q <= inject_Z K)%Q.
Proof.
  intros Hq HK H53. rewrite round_pos_eq.
  assert (He : (ulp_exponent q <= 0)%Z).
  { unfold ulp_exponent. pose proof (floor_log2_lt _ _ Hq H53). lia. }
  set (e := ulp_exponent q) in *. pose proof (pow2_pos e) as HP.
  pose proof (pow2_pos (- e)) as HP'.
  assert (Hx : (q / pow2 e <= inject_Z (K * 2 ^ (- e)))%Q).
  { rewrite scaled_eq, inject_Z_mult, <- pow2_Z by lia.
    apply Qmult_le_compat_r; [exact HK | now apply Qlt_le_weak]. }
  apply round_half_even_le in Hx. rewrite Zle_Qle in Hx.
  rewrite inject_Z_mult, <- pow2_Z in Hx by lia.
  assert (H : (inject_Z (round_half_even (q / pow2 e)) * pow2 e
               <= inject_Z K * pow2 (- e) * pow2 e)%Q)
    by (apply Qmult_le_compat_r; [exact Hx | now apply Qlt_le_weak]).
  rewrite <- Qmult_assoc, pow2_cancel, Qmult_1_r in H. exact H.
Qed.

Lemma round_pos_ge_int (q : Q) (K : Z) :
  (0 < q)%Q -> (inject_Z K <= q)%Q -> (q < pow2 53)%Q -> (inject_Z K <= round_pos q)%Q.
Proof.
  intros Hq HK H53. rewrite round_pos_eq.
  assert (He : (ulp_exponent q <= 0)%Z).
  { unfold ulp_exponent. pose proof (floor_log2_lt _ _ Hq H53). lia. }
  set (e := ulp_exponent q) in *. pose proof (pow2_pos e) as HP.
  pose proof (pow2_pos (- e)) as HP'.
  assert (Hx : (inject_Z (K * 2 ^ (- e)) <= q / pow2 e)%Q).
  { rewrite scaled_eq, inject_Z_mult, <- pow2_Z by lia.
    apply Qmult_le_compat_r; [exact HK | now apply Qlt_le_weak]. }
  apply round_half_even_ge in Hx. rewrite Zle_Qle in Hx.
  rewrite inject_Z_mult, <- pow2_Z in Hx by lia.
  assert (H : (inject_Z K * pow2 (- e) * pow2 e
               <= inject_Z (round_half_even (q / pow2 e)) * pow2 e)%Q)
    by (apply Qmult_le_compat_r; [exact Hx | now apply Qlt_le_weak]).
  rewrite <- Qmult_assoc, pow2_cancel, Qmult_1_r in H. exact H.
Qed.

(** A positive rational that rounds below 2^1024 rounds to a number. *)
Lemma round_double_pos (q : Q) :
  (0 < q)%Q -> (round_pos q < pow2 1024)%Q -> round_double q = Fnum (round_pos q).
Proof.
  intros Hq Hr. unfold round_double.
  assert (E : (q ?= 0)%Q = Gt) by (now apply Qgt_alt).
  rewrite E. destruct (Qle_bool (pow2 1024) (round_pos q)) eqn:Eb; [|reflexivity].
  apply Qle_bool_iff in Eb. lra.
Qed.

Lemma pow2_53_Z : (pow2 53 == inject_Z (2 ^ 53))%Q.
Proof. apply pow2_Z. lia. Qed.

(** An int up to 2^53 is converted exactly. *)
Lemma float_of_int_exact (z : Z) :
  exact_count z -> exists q, float_of_int z = Ok (Fnum q) /\ (q == inject_Z z)%Q.
Proof.
  intros [H0 H53]. destruct (Z.eq_dec z 0%Z) as [->|Hz].
  { exists 0%Q. split; reflexivity. }
  assert (Hq : (0 < inject_Z z)%Q) by (rewrite <- (Zlt_Qlt 0); lia).
  assert (Hlt : (inject_Z z < pow2 53)%Q) by (rewrite pow2_53_Z, <- Zlt_Qlt; exact H53).
  assert (Hle : (round_pos (inject_Z z) <= inject_Z z)%Q)
    by (apply round_pos_le_int; [exact Hq | apply Qle_refl | exact Hlt]).
  assert (Hge : (inject_Z z <= round_pos (inject_Z z))%Q)
    by (apply round_pos_ge_int; [exact Hq | apply Qle_refl | exact Hlt]).
  exists (round_pos (inject_Z z)). split; [|now apply Qle_antisym].
  unfold float_of_int. rewrite round_double_pos; [reflexivity | exact Hq|].
  pose proof (pow2_le 53 1024 ltac:(lia)). lra.
Qed.

Lemma Qeq_bool_false (a b : Q) : ~ (a == b)%Q -> Qeq_bool a b = false.
Proof.
  intros H. destruct (Qeq_bool a b) eqn:E; [|reflexivity].
  apply Qeq_bool_iff in E. contradiction.
Qed.

Lemma Qeq_bool_true (a b : Q) : (a == b)%Q -> Qeq_bool a b = true.
Proof. apply Qeq_bool_iff. Qed.

Lemma fsign_nonneg (q : Q) : (0 <= q)%Q -> fsign (Fnum q) = false.
Proof. intros H. cbn [fsign]. destruct (Qlt_le_dec q 0); [lra | reflexivity]. Qed.

Lemma rounds_of_bounds (exact x : Q) :
  (0 <= exact)%Q ->
  (exact - exact * pow2 (-53) <= x)%Q -> (x <= exact + exact * pow2 (-53))%Q ->
  rounds exact x.
Proof.
  intros H0 H1 H2. unfold rounds. rewrite (Qabs_pos exact) by exact H0.
  apply Qabs_Qle_condition. split; lra.
Qed.

(** The accuracy and the percentage [check_accuracy] computes from its
    counts, in doubles: the quotient and the product are each within one
    rounding of the exact value, and stay within 0..1 and 0..100. *)
Lemma accuracy_of_counts (num_correct num_samples : Z) :
  (0 <= num_correct <= num_samples)%Z -> (0 < num_samples)%Z -> exact_count num_samples ->
  exists acc percent,
    float_div num_correct num_samples = Ok (Fnum acc) /\
    int_mul_float 100 (Fnum acc) = Ok (Fnum percent) /\
    rounds (inject_Z num_correct / inject_Z num_samples) acc /\
    rounds (100 * acc) percent /\
    (0 <= acc <= 1)%Q /\ (0 <= percent <= 100)%Q.
Proof.
  intros Hc Hs He.
  destruct (float_of_int_exact num_correct) as (a & Ea & Ha); [unfold exact_count in *; lia|].
  destruct (float_of_int_exact num_samples) as (b & Eb & Hb); [exact He|].
  assert (H100 : float_of_int 100 = Ok (Fnum 100)) by (vm_compute; reflexivity).
  assert (Hb0 : (0 < b)%Q) by (rewrite Hb, <- (Zlt_Qlt 0); lia).
  assert (Ha0 : (0 <= a)%Q) by (rewrite Ha, <- (Zle_Qle 0); lia).
  assert (Hab : (a <= b)%Q) by (rewrite Ha, Hb, <- Zle_Qle; lia).
  assert (Hdiv : float_div num_correct num_samples = Ok (fdiv (Fnum a) (Fnum b))).
  { unfold float_div, float_truediv. rewrite Ea, Eb. cbn [rbind is_zero fvalue].
    rewrite Qeq_bool_false by lra. reflexivity. }
  assert (Hfd : fdiv (Fnum a) (Fnum b)
                = if Qeq_bool a 0 then Fnum 0 else round_double (a / b)).
  { cbn [fdiv fvalue]. rewrite (Qeq_bool_false b 0) by lra.
    rewrite !fsign_nonneg by lra. reflexivity. }
  assert (Hmul : forall acc, (0 <= acc)%Q ->
             int_mul_float 100 (Fnum acc)
             = Ok (if Qeq_bool (100 * acc) 0 then Fnum 0 else round_double (100 * acc))).
  { intros acc Hacc. unfold int_mul_float. rewrite H100. cbn [rbind fmul fvalue].
    rewrite !fsign_nonneg by lra. reflexivity. }
  assert (Hexact : (inject_Z num_correct / inject_Z num_samples == a / b)%Q)
    by (now rewrite Ha, Hb).
  destruct (Z.eq_dec num_correct 0%Z) as [Hz|Hz].
  - (* no correct prediction: the accuracy and the percentage are 0 *)
    assert (Ha' : (a == 0)%Q) by (rewrite Ha, Hz; reflexivity).
    exists 0%Q, 0%Q. rewrite Hdiv, Hfd, (Qeq_bool_true a 0) by exact Ha'.
    split; [reflexivity|]. split; [reflexivity|].
    split; [|split; [|split; [lra | lra]]].
    + apply rounds_of_bounds; rewrite Hexact, Ha'; unfold Qdiv; lra.
    + apply rounds_of_bounds; lra.
  - assert (Hapos : (0 < a)%Q) by (rewrite Ha, <- (Zlt_Qlt 0); lia).
    assert (Hq : (0 < a / b)%Q) by (apply Qlt_shift_div_l; lra).
    assert (Hq1 : (a / b <= 1)%Q) by (apply Qle_shift_div_r; lra).
    assert (Hqlow : (pow2 (-53) <= a / b)%Q).
    { apply Qle_shift_div_l; [exact Hb0|].
      assert (Hb53 : (b <= pow2 53)%Q).
      { rewrite Hb, pow2_53_Z, <- Zle_Qle. unfold exact_count in He. lia. }
      assert (H1a : (1 <= a)%Q) by (rewrite Ha, <- (Zle_Qle 1); lia).
      assert (pow2 (-53) * b <= pow2 (-53) * pow2 53)%Q
        by (apply Qmult_le_l; [apply pow2_pos | exact Hb53]).
      assert (Hc1 : (pow2 (-53) * pow2 53 == 1)%Q) by reflexivity.
      lra. }
    assert (H53 : (1 < pow2 53)%Q) by reflexivity.
    assert (Hn1 : (pow2 (-1022) <= pow2 (-53))%Q) by (apply pow2_le; lia).
    assert (Hn2 : (pow2 (-1022) <= pow2 (-54))%Q) by (apply pow2_le; lia).
    assert (Hbig : (pow2 53 < pow2 1024)%Q) by reflexivity.
    destruct (round_pos_error (a / b) Hq ltac:(lra)) as [Hl Hu].
    pose proof (round_pos_le_int (a / b) 1 Hq Hq1 ltac:(lra)) as Hacc1.
    change (inject_Z 1) with 1%Q in Hacc1.
    set (acc := round_pos (a / b)) in *.
    assert (Hp53 : (pow2 (-53) <= 1 # 2)%Q) by (vm_compute; discriminate).
    assert (Hacclow : (pow2 (-54) <= acc)%Q).
    { assert (E : (pow2 (-54) == pow2 (-53) * (1 # 2))%Q) by reflexivity.
      assert (pow2 (-53) * (1 # 2) <= a / b * (1 # 2))%Q by lra.
      assert (a / b * pow2 (-53) <= a / b * (1 # 2))%Q
        by (apply Qmult_le_l; [exact Hq | exact Hp53]).
      lra. }
    pose proof (pow2_pos (-54)) as H54.
    assert (Hq' : (0 < 100 * acc)%Q) by lra.
    destruct (round_pos_error (100 * acc) Hq' ltac:(lra)) as [Hl' Hu'].
    assert (H100b : (100 < pow2 53)%Q) by reflexivity.
    assert (H100a : (100 * acc <= inject_Z 100)%Q) by (change (inject_Z 100) with 100%Q; lra).
    pose proof (round_pos_le_int (100 * acc) 100 Hq' H100a ltac:(lra)) as Hpct.
    change (inject_Z 100) with 100%Q in Hpct.
    set (percent := round_pos (100 * acc)) in *.
    assert (H5353 : (0 < pow2 (-53))%Q) by apply pow2_pos.
    assert (Hpos : (0 <= percent)%Q).
    { assert (100 * acc * pow2 (-53) <= 100 * acc * (1 # 2))%Q
        by (apply Qmult_le_l; [exact Hq' | exact Hp53]).
      lra. }
    exists acc, percent. rewrite Hdiv, Hfd, (Qeq_bool_false a 0) by lra.
    rewrite (Hmul acc) by lra. rewrite (Qeq_bool_false (100 * acc) 0) by lra.
    rewrite (round_double_pos (a / b)) by (try exact Hq; fold acc; lra).
    rewrite (round_double_pos (100 * acc)) by (try exact Hq'; fold percent; lra).
    split; [reflexivity|]. split; [reflexivity|].
    split; [|split; [|split; [lra | lra]]].
    + apply rounds_of_bounds; rewrite ?Hexact; lra.
    + apply rounds_of_bounds; lra.
Qed.

(** ** More on samplers and loaders *)

(** X1.  A ChunkSampler yields each index from [start] up to but excluding
    [start + num_samples] exactly once, and no other.  With a negative
    [num_samples] it yields nothing, while [__len__] still returns the
    negative number: the two disagree. *)
Theorem ChunkSampler_yields_chunk (s : ChunkSampler) :
  (forall i, i ∈ ChunkSampler_iter s <->
             (start s <= i < start s + num_samples s)%Z) /\
  NoDup (ChunkSampler_iter s) /\
  ((num_samples s < 0)%Z ->
   ChunkSampler_iter s = [] /\
   Z.of_nat (length (ChunkSampler_iter s)) <> ChunkSampler_len s).
Proof.
  rewrite ChunkSampler_iter_seqZ. split; [|split].
  - intros i. apply elem_of_seqZ.
  - apply NoDup_seqZ.
  - intros H. rewrite seqZ_nil by lia. split; [reflexivity|].
    unfold ChunkSampler_len. cbn [length]. lia.
Qed.

Lemma ChunkSampler_yields_chunk_witness :
  ChunkSampler_iter (mkChunkSampler (-3) 5) = [] /\
  Z.of_nat (length (ChunkSampler_iter (mkChunkSampler (-3) 5)))
    <> ChunkSampler_len (mkChunkSampler (-3) 5).
Proof.
  apply (proj2 (proj2 (ChunkSampler_yields_chunk (mkChunkSampler (-3) 5)))).
  cbn. lia.
Defined.

(** X2.  Two samplers, the second starting where the first ends, yield one after
    the other what a single sampler over both chunks yields. *)
Theorem ChunkSampler_chunks_compose (n1 n2 s : Z) :
  (0 <= n1)%Z -> (0 <= n2)%Z ->
  ChunkSampler_iter (mkChunkSampler n1 s)
    ++ ChunkSampler_iter (mkChunkSampler n2 (s + n1))
  = ChunkSampler_iter (mkChunkSampler (n1 + n2) s).
Proof.
  intros H1 H2. rewrite !ChunkSampler_iter_seqZ. cbn [start num_samples].
  symmetry. now apply seqZ_app.
Qed.

Lemma ChunkSampler_chunks_compose_witness :
  ChunkSampler_iter sampler_train ++ ChunkSampler_iter sampler_val
  = ChunkSampler_iter (mkChunkSampler 50000 0).
Proof. apply (ChunkSampler_chunks_compose 49000 1000 0); lia. Defined.

(** The batches of a batch sampler, but for the last, are full. *)
Lemma BatchSampler_go_full bs cur idxs k b :
  0 < bs -> length cur < bs ->
  BatchSampler_go bs cur idxs !! k = Some b ->
  S k < length (BatchSampler_go bs cur idxs) -> length b = bs.
Proof.
  intros Hbs. revert cur k.
  induction idxs as [|i idxs IH]; intros cur k Hcur Hk Hlen.
  - cbn in *. destruct cur; cbn in Hlen; lia.
  - cbn [BatchSampler_go] in *.
    destruct (Nat.eqb_spec (length (i :: cur)) bs) as [E|E].
    + destruct k as [|k].
      * injection Hk as <-. rewrite <- E. apply (length_rev (i :: cur)).
      * cbn in Hk, Hlen. apply (IH [] k); [cbn; lia | exact Hk | lia].
    + apply (IH (i :: cur) k); [cbn in *; lia | exact Hk | exact Hlen].
Qed.

Lemma BatchSampler_go_count bs cur idxs :
  0 < bs -> length cur < bs ->
  length (BatchSampler_go bs cur idxs) = (length cur + length idxs + bs - 1) / bs.
Proof.
  intros Hbs. revert cur. induction idxs as [|i idxs IH]; intros cur Hcur.
  - destruct cur as [|c cur]; cbn [BatchSampler_go length].
    + rewrite Nat.div_small by lia. reflexivity.
    + symmetry. replace (S (length cur) + 0 + bs - 1) with (length cur + 1 * bs) by lia.
      rewrite Nat.div_add by lia. rewrite Nat.div_small by (cbn in Hcur; lia). reflexivity.
  - cbn [BatchSampler_go].
    destruct (Nat.eqb_spec (length (i :: cur)) bs) as [E|E].
    + cbn [length] in *. rewrite (IH []) by (cbn; lia). cbn [length Nat.add].
      replace (length cur + S (length idxs) + bs - 1)
        with (length idxs + bs - 1 + 1 * bs) by lia.
      rewrite Nat.div_add by lia. lia.
    + rewrite (IH (i :: cur)) by (cbn in *; lia). cbn [length]. f_equal. lia.
Qed.

(** X3.  A loader splits the indices of its sampler into batches of
    [batch_size], in order and without loss: the batches concatenate to the
    indices, there are ceil(n / batch_size) of them, none is empty, and all
    but the last hold exactly [batch_size] indices.  The validation loader
    yields 16 batches, the last of 40. *)
Theorem loader_batches_cover (bs : nat) (idxs : list Z) :
  0 < bs ->
  concat (BatchSampler_iter bs idxs) = idxs /\
  length (BatchSampler_iter bs idxs) = (length idxs + bs - 1) / bs /\
  (forall b, b ∈ BatchSampler_iter bs idxs -> 0 < length b <= bs) /\
  (forall k b, BatchSampler_iter bs idxs !! k = Some b ->
               S k < length (BatchSampler_iter bs idxs) -> length b = bs).
Proof.
  intros Hbs. unfold BatchSampler_iter. split; [|split; [|split]].
  - now rewrite BatchSampler_go_concat.
  - rewrite BatchSampler_go_count by (cbn; lia). reflexivity.
  - intros b. now apply BatchSampler_iter_sizes.
  - intros k b. apply BatchSampler_go_full; [exact Hbs | cbn; lia].
Qed.

Lemma loader_batches_cover_witness :
  concat loader_val_batches = ChunkSampler_iter sampler_val /\
  length loader_val_batches = 16 /\
  (length <$> last loader_val_batches) = Some 40.
Proof.
  destruct (loader_batches_cover 64 (ChunkSampler_iter sampler_val)) as (H1 & _);
    [lia|].
  split; [exact H1|]. split; vm_compute; reflexivity.
Defined.

(** ** Sizes through the other models *)

(** X4.  The sizes after each layer of [simple_model] (cell 11) and of [model]
    (cell 35) for every batch of N >= 1 images of size 3x32x32: in both the
    flattened vector has the length the first affine layer expects (5408 and
    8192), and the output has size N x 10. *)
Theorem simple_and_best_model_sizes (N : Z) :
  (0 < N)%Z ->
  Sequential_sizes simple_model_layers [N; 3; 32; 32]%Z =
    [ [N; 32; 13; 13]; [N; 32; 13; 13]; [N; 5408]; [N; 10] ]%Z /\
  Sequential_out simple_model_layers [N; 3; 32; 32]%Z = Ok [N; 10]%Z /\
  Sequential_sizes model_layers [N; 3; 32; 32]%Z =
    [ [N; 32; 32; 32]; [N; 32; 32; 32]; [N; 32; 32; 32]; [N; 32; 16; 16];
      [N; 64; 16; 16]; [N; 64; 16; 16]; [N; 64; 16; 16]; [N; 64; 8; 8];
      [N; 128; 8; 8]; [N; 128; 8; 8]; [N; 128; 8; 8];
      [N; 8192]; [N; 1024]; [N; 1024]; [N; 10] ]%Z /\
  Sequential_out model_layers [N; 3; 32; 32]%Z = Ok [N; 10]%Z.
Proof.
  intros HN.
  assert (HF1 : layer_out Flatten [N; 32; 13; 13]%Z = Ok [N; 5408]%Z).
  { apply (Flatten_out N 32 13 13); lia. }
  assert (HF2 : layer_out Flatten [N; 128; 8; 8]%Z = Ok [N; 8192]%Z).
  { apply (Flatten_out N 128 8 8); lia. }
  unfold simple_model_layers, model_layers. split; [|split; [|split]].
  - rewrite (Sequential_sizes_ok _ _ _ [N; 32; 13; 13]%Z) by reflexivity.
    rewrite (Sequential_sizes_ok _ _ _ [N; 32; 13; 13]%Z) by reflexivity.
    rewrite (Sequential_sizes_ok _ _ _ [N; 5408]%Z) by exact HF1.
    reflexivity.
  - rewrite (Sequential_out_ok _ _ _ [N; 32; 13; 13]%Z) by reflexivity.
    rewrite (Sequential_out_ok _ _ _ [N; 32; 13; 13]%Z) by reflexivity.
    rewrite (Sequential_out_ok _ _ _ [N; 5408]%Z) by exact HF1.
    reflexivity.
  - do 3 rewrite (Sequential_sizes_ok _ _ _ [N; 32; 32; 32]%Z) by reflexivity.
    rewrite (Sequential_sizes_ok _ _ _ [N; 32; 16; 16]%Z) by reflexivity.
    do 3 rewrite (Sequential_sizes_ok _ _ _ [N; 64; 16; 16]%Z) by reflexivity.
    rewrite (Sequential_sizes_ok _ _ _ [N; 64; 8; 8]%Z) by reflexivity.
    do 3 rewrite (Sequential_sizes_ok _ _ _ [N; 128; 8; 8]%Z) by reflexivity.
    rewrite (Sequential_sizes_ok _ _ _ [N; 8192]%Z) by exact HF2.
    reflexivity.
  - do 3 rewrite (Sequential_out_ok _ _ _ [N; 32; 32; 32]%Z) by reflexivity.
    rewrite (Sequential_out_ok _ _ _ [N; 32; 16; 16]%Z) by reflexivity.
    do 3 rewrite (Sequential_out_ok _ _ _ [N; 64; 16; 16]%Z) by reflexivity.
    rewrite (Sequential_out_ok _ _ _ [N; 64; 8; 8]%Z) by reflexivity.
    do 3 rewrite (Sequential_out_ok _ _ _ [N; 128; 8; 8]%Z) by reflexivity.
    rewrite (Sequential_out_ok _ _ _ [N; 8192]%Z) by exact HF2.
    reflexivity.
Qed.

Lemma simple_and_best_model_sizes_witness :
  Sequential_out simple_model_layers [64; 3; 32; 32]%Z = Ok [64; 10]%Z /\
  Sequential_out model_layers [64; 3; 32; 32]%Z = Ok [64; 10]%Z.
Proof.
  destruct (simple_and_best_model_sizes 64) as (_ & H1 & _ & H2); [lia|].
  split; [exact H1 | exact H2].
Defined.

(** X5.  Which inputs the fixed model accepts.  On a batch of N >= 1 images of
    size C x H x W the layer sequence returns, and then with size N x 10,
    exactly when C is 3, H and W are at least 8 and the pooled extents
    multiply to 169 = 5408 / 32; on every other input a layer raises.  So
    32x32 and 33x33 images pass, 28x28 and 64x64 images raise. *)
Theorem fixed_model_input_sizes (N C H W : Z) :
  (0 < N)%Z ->
  (Sequential_out fixed_model_base_layers [N; C; H; W] = Ok [N; 10]%Z <->
   C = 3%Z /\ (8 <= H)%Z /\ (8 <= W)%Z /\
   (((H - 8) / 2 + 1) * ((W - 8) / 2 + 1) = 169)%Z) /\
  (forall sz, Sequential_out fixed_model_base_layers [N; C; H; W] = Ok sz ->
              sz = [N; 10]%Z).
Proof.
  intros HN. unfold fixed_model_base_layers.
  cbn [Sequential_out layer_out rbind].
  destruct (Z.eqb_spec C 3) as [->|HC]; cbn [negb].
  2:{ cbn [rbind]. split; [split; [discriminate | lia] | discriminate]. }
  rewrite !Z.mul_0_r, !Z.add_0_r.
  destruct (Z.ltb_spec H 7) as [HH|HH]; cbn [orb rbind].
  { split; [split; [discriminate | lia] | discriminate]. }
  destruct (Z.ltb_spec W 7) as [HW|HW]; cbn [orb rbind].
  { split; [split; [discriminate | lia] | discriminate]. }
  cbn [Sequential_out layer_out rbind Z.eqb Pos.eqb].
  unfold window_out. rewrite !Z.mul_0_r, !Z.add_0_r, !Z.div_1_r.
  destruct (Z.ltb_spec (H - 7 + 1) 2) as [HH2|HH2]; cbn [orb rbind].
  { split; [split; [discriminate | lia] | discriminate]. }
  destruct (Z.ltb_spec (W - 7 + 1) 2) as [HW2|HW2]; cbn [orb rbind].
  { split; [split; [discriminate | lia] | discriminate]. }
  replace (H - 7 + 1 - 2)%Z with (H - 8)%Z by lia.
  replace (W - 7 + 1 - 2)%Z with (W - 8)%Z by lia.
  set (h := ((H - 8) / 2 + 1)%Z). set (w := ((W - 8) / 2 + 1)%Z).
  assert (Hh : (0 < h)%Z) by (subst h; pose proof (Z.div_pos (H - 8) 2); lia).
  assert (Hw : (0 < w)%Z) by (subst w; pose proof (Z.div_pos (W - 8) 2); lia).
  change (infer_size (prod_dims [N; 32; h; w]%Z) [N; (-1)%Z])
    with (layer_out Flatten [N; 32; h; w]%Z).
  rewrite (Flatten_out N 32 h w) by nia. cbn [rbind Sequential_out layer_out].
  destruct (Z.eqb_spec (32 * (h * w)) 5408) as [E|E]; cbn [rbind Z.eqb Pos.eqb].
  - split; [split; [intros _; repeat split; lia | reflexivity]|].
    intros sz Hs. now injection Hs as <-.
  - split; [split; [discriminate | lia] | discriminate].
Qed.

Lemma fixed_model_input_sizes_witness :
  Sequential_out fixed_model_base_layers [64; 3; 33; 33]%Z = Ok [64; 10]%Z /\
  Sequential_out fixed_model_base_layers [64; 3; 28; 28]%Z <> Ok [64; 10]%Z.
Proof.
  destruct (fixed_model_input_sizes 64 3 33 33) as [H33 _]; [lia|].
  destruct (fixed_model_input_sizes 64 3 28 28) as [H28 _]; [lia|].
  split.
  - apply H33. repeat split; lia.
  - intros E. apply H28 in E. destruct E as (_ & _ & _ & E). vm_compute in E.
    discriminate E.
Defined.

(** ** More on Flatten *)

Lemma infer_size_batch (n N : Z) :
  infer_size n [N; (-1)%Z] =
    if (N =? -1)%Z then Raise (RuntimeError "only one dimension can be inferred")
    else if (0 <=? N)%Z then
      if ((n =? 1 * N) || (true && (0 <? 1 * N) && (n mod (1 * N) =? 0)))%Z then
        if (1 * N =? 0)%Z then
          Raise (RuntimeError "cannot reshape tensor of 0 elements: the unspecified dimension is ambiguous")
        else Ok [N; (n / (1 * N))%Z]
      else Raise (RuntimeError "shape is invalid for input size")
    else Raise (RuntimeError "invalid shape dimension").
Proof.
  unfold infer_size. cbn [infer_scan].
  destruct (Z.eqb_spec N (-1)) as [->|HN]; [reflexivity|].
  destruct (0 <=? N)%Z; [|reflexivity].
  change (-1 =? -1)%Z with true. cbn [rbind fst snd map].
  destruct ((n =? 1 * N) || (true && (0 <? 1 * N) && (n mod (1 * N) =? 0)))%Z; [|reflexivity].
  destruct (1 * N =? 0)%Z; [reflexivity|].
  destruct (Z.eqb_spec N (-1)); [contradiction | reflexivity].
Qed.

(** X6.  How [Flatten.forward] ends.  It raises a ValueError when the input
    does not have four dimensions (the unpacking of [x.size()] fails) and a
    RuntimeError on a batch of no images, where the dimension to infer is
    ambiguous.  A batch of N >= 1 images without elements (a channel count or
    an extent is 0) is returned with size N x 0, whatever its strides.  When
    it returns, the input has four dimensions with N >= 1 and the result has
    size N x D over the same storage, with N * D the number of elements. *)
Theorem Flatten_forward_outcomes {A} (x : Tensor A) :
  (length (size x) <> 4 -> exists msg, Flatten_forward x = Raise (ValueError msg)) /\
  (forall C H W, size x = [0; C; H; W]%Z ->
      exists msg, Flatten_forward x = Raise (RuntimeError msg)) /\
  (forall N C H W, size x = [N; C; H; W] -> (0 < N)%Z -> (C * (H * W) = 0)%Z ->
      Flatten_forward x = Ok (mkTensor [N; 0]%Z [1; 1]%Z (storage_offset x) (storage x))) /\
  (forall y, Flatten_forward x = Ok y ->
      exists N C H W D,
        size x = [N; C; H; W] /\ (0 < N)%Z /\ size y = [N; D] /\
        (N * D)%Z = numel x /\ storage y = storage x /\
        storage_offset y = storage_offset x).
Proof.
  unfold Flatten_forward. split; [|split; [|split]].
  - intros Hlen. destruct (size x) as [|N [|C [|H [|W [|? ?]]]]]; cbn in Hlen; try lia;
      eexists; reflexivity.
  - intros C H W Hsz. rewrite Hsz. unfold view, numel. rewrite Hsz, infer_size_batch.
    cbn [prod_dims fold_right Z.mul Z.eqb Z.leb Z.compare orb rbind]. eexists. reflexivity.
  - intros N C H W Hsz HN H0. rewrite Hsz. unfold view, numel. rewrite Hsz, infer_size_batch.
    cbn [prod_dims fold_right]. rewrite Z.mul_1_r, H0, Z.mul_0_r, Z.mul_1_l.
    destruct (Z.eqb_spec N (-1)); [lia|]. destruct (Z.leb_spec 0 N); [|lia].
    destruct (Z.ltb_spec 0 N); [|lia]. rewrite Z.mod_0_l by lia.
    rewrite orb_true_r. destruct (Z.eqb_spec N 0); [lia|].
    rewrite Z.div_0_l by lia. cbn [rbind].
    unfold compute_stride. cbn [prod_dims fold_right]. rewrite Z.mul_1_r, H0, Z.mul_0_r.
    reflexivity.
  - intros y Hy. destruct (size x) as [|N [|C [|H [|W [|? ?]]]]] eqn:Hsz; try discriminate Hy.
    unfold view in Hy. rewrite infer_size_batch, Hsz in Hy.
    destruct (Z.eqb_spec N (-1)); [discriminate Hy|].
    destruct (Z.leb_spec 0 N); [|discriminate Hy]. rewrite Z.mul_1_l in Hy.
    destruct ((numel x =? N) || (true && (0 <? N) && (numel x mod N =? 0)))%Z eqn:Ec;
      [|discriminate Hy].
    destruct (Z.eqb_spec N 0) as [EN|EN]; [discriminate Hy|]. cbn [rbind] in Hy.
    destruct (compute_stride [N; C; H; W] (stride x) [N; (numel x / N)%Z]);
      [|discriminate Hy].
    injection Hy as <-. cbn [size storage storage_offset].
    exists N, C, H, W, (numel x / N)%Z. repeat split; [lia|].
    apply orb_true_iff in Ec as [Ec|Ec].
    + apply Z.eqb_eq in Ec. rewrite Ec, Z.div_same by exact EN. lia.
    + apply andb_true_iff in Ec as [_ Ec]. apply Z.eqb_eq in Ec.
      symmetry. apply Z.div_exact; [exact EN | exact Ec].
Qed.

(** ** The predictions of [check_accuracy] *)

Lemma max_from_spec (row : list Q) : forall best best_i i v j,
  max_from best best_i i row = (v, j) ->
  (best <= v)%Q /\ Forall (fun s => (s <= v)%Q) row /\
  ((v = best /\ j = best_i) \/
   ((i <= j < i + Z.of_nat (length row))%Z /\ row !! Z.to_nat (j - i) = Some v)).
Proof.
  induction row as [|s row IH]; intros best best_i i v j Hm; cbn [max_from] in Hm.
  - injection Hm as <- <-. split; [apply Qle_refl|]. split; [constructor|]. now left.
  - destruct (Qlt_le_dec best s) as [Hlt|Hle].
    + apply IH in Hm as (Hv & Hall & Hpos). split; [|split].
      * apply Qle_trans with s; [now apply Qlt_le_weak | exact Hv].
      * constructor; assumption.
      * right. cbn [length]. destruct Hpos as [[-> ->]|[Hj Hl]].
        -- split; [lia|]. now rewrite Z.sub_diag.
        -- split; [lia|].
           replace (Z.to_nat (j - i)) with (S (Z.to_nat (j - (i + 1)))) by lia.
           exact Hl.
    + apply IH in Hm as (Hv & Hall & Hpos). split; [exact Hv|]. split.
      * constructor; [|exact Hall]. now apply Qle_trans with best.
      * destruct Hpos as [[-> ->]|[Hj Hl]]; [now left|]. right. cbn [length].
        split; [lia|].
        replace (Z.to_nat (j - i)) with (S (Z.to_nat (j - (i + 1)))) by lia.
        exact Hl.
Qed.

Lemma row_max_spec e (row : list Q) v i :
  row_max e row = Ok (v, i) ->
  (0 <= i < Z.of_nat (length row))%Z /\ row !! Z.to_nat i = Some v /\
  Forall (fun s => (s <= v)%Q) row.
Proof.
  destruct row as [|s row]; [discriminate|]. cbn [row_max]. intros H.
  injection H as H. apply max_from_spec in H as (Hv & Hall & Hpos).
  cbn [length]. destruct Hpos as [[-> ->]|[Hj Hl]].
  - split; [lia|]. split; [reflexivity|]. constructor; [apply Qle_refl | exact Hall].
  - split; [lia|]. split.
    + replace (Z.to_nat i) with (S (Z.to_nat (i - 1))) by lia. exact Hl.
    + constructor; assumption.
Qed.

(** X8.  [scores.max(1)] gives one prediction per row of scores: a class index
    within the row, at which the row holds its maximum; on a row without
    scores it raises the framework's error for a reduction over no element. *)
Theorem max1_picks_maximum (empty : exn) (scores : list (list Q)) :
  (forall vals preds, max1 empty scores = Ok (vals, preds) ->
      length vals = length scores /\ length preds = length scores /\
      forall k row, scores !! k = Some row ->
        exists v i, vals !! k = Some v /\ preds !! k = Some i /\
                    (0 <= i < Z.of_nat (length row))%Z /\
                    row !! Z.to_nat i = Some v /\
                    Forall (fun s => (s <= v)%Q) row) /\
  ([] ∈ scores -> max1 empty scores = Raise empty).
Proof.
  induction scores as [|row scores IH]; split.
  - intros vals preds H. injection H as <- <-. repeat split. intros k row Hk. discriminate Hk.
  - intros H. inversion H.
  - intros vals preds H. cbn [max1] in H.
    destruct (row_max empty row) as [[v i]|e] eqn:Er; [|discriminate H].
    destruct (max1 empty scores) as [[vs ps]|e] eqn:Em; [|discriminate H].
    cbn [rbind fst snd] in H. injection H as <- <-.
    destruct (proj1 IH vs ps eq_refl) as (Hlv & Hlp & Hrows).
    cbn [length]. split; [now rewrite Hlv|]. split; [now rewrite Hlp|].
    intros [|k] r Hk.
    + injection Hk as <-. apply row_max_spec in Er as (Hi & Hl & Hall).
      exists v, i. auto.
    + apply (Hrows k r Hk).
  - intros H. cbn [max1]. apply elem_of_cons in H as [<-|H].
    + reflexivity.
    + destruct (row_max empty row) as [[v i]|e] eqn:Er.
      * rewrite (proj2 IH H). reflexivity.
      * destruct row; [|discriminate Er]. injection Er as <-. reflexivity.
Qed.

Lemma max1_picks_maximum_witness :
  max1 (fw_empty_reduction (toy (-1))) [[1%Q; 2%Q]; []]
  = Raise (IndexError "max(): Expected reduction dim 1 to have non-zero size.").
Proof.
  apply (proj2 (max1_picks_maximum (fw_empty_reduction (toy (-1))) [[1%Q; 2%Q]; []])).
  apply elem_of_cons. right. apply elem_of_cons. left. reflexivity.
Defined.

(** ** Running statements *)

Section Runs.

Context (fw : Framework) (train_data test_data : Examples fw).
Implicit Types (w : World fw) (tr : list Event).

Local Abbreviation train' := (train fw train_data test_data).
Local Abbreviation train_epoch' := (train_epoch fw train_data test_data).
Local Abbreviation loader_train' := (loader_train fw train_data test_data).
Local Abbreviation loader_val' := (loader_val fw train_data test_data).
Local Abbreviation loader_test' := (loader_test fw train_data test_data).
Local Abbreviation notebook' := (notebook fw train_data test_data).

Lemma run_weaken {A} (m : M fw A) P Q :
  run_spec m P -> (forall n r tr n', P n r tr n' -> Q n r tr n') -> run_spec m Q.
Proof.
  intros Hm HPQ w r w' H. destruct (Hm w r w' H) as (tr & Htr & HP). eauto.
Qed.

Lemma run_ret {A} (a : A) :
  run_spec (fw := fw) (ret a) (fun n r tr n' => r = Ok a /\ tr = [] /\ n' = n).
Proof.
  intros w r w' H. injection H as <- <-. exists []. now rewrite app_nil_r.
Qed.

Lemma run_bind {A B} (m : M fw A) (k : A -> M fw B) P Q :
  run_spec m P -> (forall a, run_spec (k a) (Q a)) ->
  run_spec (bind m k)
    (fun n r tr n' =>
       (exists a tr1 n1 tr2,
           P n (Ok a) tr1 n1 /\ Q a n1 r tr2 n' /\ tr = tr1 ++ tr2) \/
       (exists e, r = Raise e /\ P n (Raise e) tr n')).
Proof.
  intros Hm Hk w r w' H. unfold bind in H.
  destruct (m w) as [[a|e] w1] eqn:E.
  - destruct (Hm _ _ _ E) as (tr1 & Htr1 & HP).
    destruct (Hk a _ _ _ H) as (tr2 & Htr2 & HQ).
    exists (tr1 ++ tr2). split; [now rewrite Htr2, Htr1, app_assoc|].
    left. exists a, tr1, (next_id w1), tr2. auto.
  - injection H as <- <-. destruct (Hm _ _ _ E) as (tr & Htr & HP).
    exists tr. split; [exact Htr|]. right. eauto.
Qed.

Lemma bind_inv {A B} (m : M fw A) (k : A -> M fw B) w r w' :
  bind m k w = (r, w') ->
  (exists a w1, m w = (Ok a, w1) /\ k a w1 = (r, w')) \/
  (exists e, m w = (Raise e, w') /\ r = Raise e).
Proof.
  unfold bind. destruct (m w) as [[a|e] w1]; intros H.
  - left. eauto.
  - right. injection H as <- <-. eauto.
Qed.

Lemma run_lift {A} (x : result A) :
  run_spec (fw := fw) (lift x) (fun n r tr n' => r = x /\ call silent any n r tr n').
Proof.
  intros w r w' H. unfold lift in H. destruct x as [a|e]; injection H as <- <-.
  - exists []. rewrite app_nil_r. repeat split.
  - exists [EvRaise e]. repeat split.
Qed.

Lemma run_emit ev :
  run_spec (emit fw ev) (fun n r tr n' => r = Ok tt /\ tr = [ev] /\ n' = n).
Proof. intros w r w' H. injection H as <- <-. exists [ev]. repeat split. Qed.

Lemma run_get_module m : run_spec (get_module fw m) (call silent any).
Proof.
  intros w r w' H. unfold get_module in H. destruct (modules w !! m).
  - injection H as <- <-. exists []. rewrite app_nil_r. repeat split.
  - apply run_lift in H as (tr & Htr & _ & H). eauto.
Qed.

Lemma run_put_module m md :
  run_spec (put_module fw m md) (fun n r tr n' => r = Ok tt /\ tr = [] /\ n' = n).
Proof.
  intros w r w' H. injection H as <- <-. exists []. cbn. rewrite app_nil_r. auto.
Qed.

Lemma run_Sequential ls :
  run_spec (Sequential fw ls) (fun n r tr n' => r = Ok n /\ tr = [EvInit n] /\ n' = S n).
Proof.
  intros w r w' H. unfold Sequential in H. destruct (fw_init fw ls (rng w)).
  injection H as <- <-. exists [EvInit (next_id w)]. repeat split.
Qed.

Lemma run_new_optimizer kind p :
  run_spec (new_optimizer fw kind p)
    (fun n r tr n' => r = Ok (mkOptimizer n kind p) /\ tr = [] /\ n' = S n).
Proof.
  intros w r w' H. injection H as <- <-. exists []. cbn. rewrite app_nil_r. auto.
Qed.

Lemma run_manual_seed seed :
  run_spec (manual_seed fw seed) (fun n r tr n' => r = Ok tt /\ tr = [] /\ n' = n).
Proof.
  intros w r w' H. injection H as <- <-. exists []. cbn. rewrite app_nil_r. auto.
Qed.

(** Taking a sequence of statements apart. *)
Ltac run_call := fail.

Ltac run_prog :=
  lazymatch goal with
  | |- run_spec (bind _ _) _ => eapply run_bind; [run_prog | intros ?; run_prog]
  | |- run_spec (ret _) _ => apply run_ret
  | |- run_spec (lift _) _ => apply run_lift
  | |- run_spec (emit _ _) _ => apply run_emit
  | |- run_spec (print _ _) _ => apply run_emit
  | |- run_spec (get_module _ _) _ => apply run_get_module
  | |- run_spec (put_module _ _ _) _ => apply run_put_module
  | |- _ => run_call
  end.

Ltac run_cases H :=
  repeat match type of H with
  | _ \/ _ => destruct H as [H|H]
  | exists _, _ => let x := fresh "x" in destruct H as [x H]
  | _ /\ _ => let H1 := fresh "H" in destruct H as [H1 H]; try run_cases H1
  end.

(** Taking the outcome of a sequence apart. *)
Ltac run_inv :=
  unfold call, silent, any in *;
  repeat (match goal with
          | H : _ \/ _ |- _ => destruct H
          | H : exists _, _ |- _ => destruct H
          | H : _ /\ _ |- _ => destruct H
          | H : Ok _ = Ok _ |- _ => injection H as H
          | H : Ok _ = Raise _ |- _ => discriminate H
          | H : Raise _ = Ok _ |- _ => discriminate H
          | H : Raise _ = Raise _ |- _ => injection H as H
          | H : forall a, Ok ?x = Ok a -> _ |- _ => specialize (H x eq_refl)
          | H : forall a, Raise _ = Ok a -> _ |- _ => clear H
          | H : [] = _ ++ [_] |- _ => apply app_cons_not_nil in H as []
          end; subst);
  cbn [call_events app] in *.

Ltac run_done :=
  unfold call, silent, any; cbn [call_events app];
  repeat split; try discriminate; intros; run_inv; cbn; auto.

Lemma run_Tensor_type {A} dt (t : A) :
  run_spec (Tensor_type fw dt t) (call silent (fun a => a = t)).
Proof.
  unfold Tensor_type. eapply run_weaken; [run_prog|].
  intros n r tr n' H. run_inv; run_done.
Qed.

Lemma run_Module_set_mode m mode :
  run_spec (Module_set_mode fw m mode) (call (fun _ => [EvMode m mode]) any).
Proof.
  unfold Module_set_mode. eapply run_weaken; [run_prog|].
  intros n r tr n' H. run_inv; run_done.
Qed.

Lemma run_lift_eq {A} (x : result A) (P : A -> Prop) :
  (forall a, x = Ok a -> P a) -> run_spec (fw := fw) (lift x) (call silent P).
Proof.
  intros HP. eapply run_weaken; [apply run_lift|].
  intros n r tr n' [-> H]. run_inv. run_done.
Qed.

Lemma run_Module_call m x :
  run_spec (Module_call fw m x)
    (call (fun sc => [EvForward m (scores_data fw sc)])
          (fun sc => scores_module fw sc = m /\
                     length (scores_data fw sc) = length x)).
Proof.
  unfold Module_call.
  eapply run_weaken.
  { eapply run_bind; [apply run_get_module|]. intros md.
    eapply run_bind.
    - apply (run_lift_eq _ (fun out => length (fst out) = length x)).
      intros [s b] E. apply fw_forward_rows in E. exact E.
    - intros out. run_prog. }
  intros n r tr n' H. run_inv; run_done.
Qed.

Lemma run_loss_call loss_fn sc y :
  run_spec (loss_call fw loss_fn sc y)
    (call (fun l => [EvLoss (scores_module fw sc) (loss_item fw l)])
          (fun l => loss_module fw l = scores_module fw sc)).
Proof.
  unfold loss_call. eapply run_weaken; [run_prog|].
  intros n r tr n' H. run_inv; run_done.
Qed.

Lemma run_Optimizer_zero_grad o :
  run_spec (Optimizer_zero_grad fw o)
    (call (fun _ => [EvZeroGrad (opt_id o) (opt_target o)]) any).
Proof.
  unfold Optimizer_zero_grad. eapply run_weaken; [run_prog|].
  intros n r tr n' H. run_inv; run_done.
Qed.

Lemma run_Loss_backward l :
  run_spec (Loss_backward fw l) (call (fun _ => [EvBackward (loss_module fw l)]) any).
Proof.
  unfold Loss_backward. eapply run_weaken; [run_prog|].
  intros n r tr n' H. run_inv; run_done.
Qed.

Lemma run_Optimizer_step o :
  run_spec (Optimizer_step fw o)
    (call (fun _ => [EvStep (opt_id o) (opt_target o)]) any).
Proof.
  unfold Optimizer_step.
  eapply run_weaken.
  { eapply run_bind; [apply run_get_module|]. intros md.
    instantiate (1 := fun _ => call (fun _ => [EvStep (opt_id o) (opt_target o)]) any).
    destruct (grad md) as [g|].
    - intros w r w' H.
      destruct (fw_step fw (opt_kind o) (opt_states w !! opt_id o) (params md) g)
        as [[st p]|e].
      + injection H as <- <-. eexists. split; [reflexivity|]. run_done.
      + apply run_lift in H as (tr & Htr & -> & H). run_inv.
        eexists. split; [eassumption|]. run_done.
    - eapply run_weaken; [apply run_emit|]. intros n r tr n' H. run_inv. run_done. }
  intros n r tr n' H. run_inv; run_done.
Qed.

Lemma run_print_format fmt args :
  run_spec (print_format fw fmt args)
    (fun n r tr n' =>
       n' = n /\
       match format fmt args with
       | Ok line => r = Ok tt /\ tr = [EvPrint line]
       | Raise e => r = Raise e /\ tr = [EvRaise e]
       end).
Proof.
  unfold print_format. eapply run_weaken; [run_prog|].
  intros n r tr n' H. destruct (format fmt args); run_inv; auto.
Qed.

Lemma run_deepcopy m :
  run_spec (deepcopy fw m)
    (fun n r tr n' =>
       (r = Ok n /\ tr = [EvCopy m n] /\ n' = S n) \/
       (exists e, r = Raise e /\ tr = [EvRaise e] /\ n' = n)).
Proof.
  unfold deepcopy.
  eapply run_weaken.
  { eapply run_bind; [apply run_get_module|]. intros md.
    instantiate (1 := fun _ n r tr n' => r = Ok n /\ tr = [EvCopy m n] /\ n' = S n).
    intros w r w' H. injection H as <- <-. eexists. split; [reflexivity|]. auto. }
  intros n r tr n' H. run_inv; eauto.
Qed.

Lemma run_Module_type m dt :
  run_spec (Module_type fw m dt) (call silent (fun a => a = m)).
Proof.
  unfold Module_type. eapply run_weaken; [run_prog|].
  intros n r tr n' H. run_inv; run_done.
Qed.

Lemma run_Module_apply_reset m :
  run_spec (Module_apply_reset fw m) (call (fun _ => [EvInit m]) any).
Proof.
  unfold Module_apply_reset.
  eapply run_weaken.
  { eapply run_bind; [apply run_get_module|]. intros md.
    instantiate (1 := fun _ => call (fun _ => [EvInit m]) any).
    intros w r w' H. destruct (fw_init fw (layers md) (rng w)).
    injection H as <- <-. eexists. split; [reflexivity|]. run_done. }
  intros n r tr n' H. run_inv; run_done.
Qed.

Ltac run_call ::=
  first [ apply run_Tensor_type | apply run_Module_set_mode | apply run_Module_call
        | apply run_loss_call | apply run_Optimizer_zero_grad | apply run_Loss_backward
        | apply run_Optimizer_step | apply run_print_format | apply run_deepcopy
        | apply run_Module_type | apply run_Module_apply_reset | apply run_Sequential
        | apply run_new_optimizer | apply run_manual_seed ].

(** *** Shapes: a run leaves the expected events, or a part of them and
    the raise *)

Lemma shape_app {A B} full1 full2 (a : A) (r : result B) tr1 tr2 :
  shape full1 (Ok a) tr1 -> shape full2 r tr2 -> shape (full1 ++ full2) r (tr1 ++ tr2).
Proof.
  intros H1 H2. cbn in H1. subst tr1. destruct r as [b|e]; cbn in *.
  - now subst.
  - destruct H2 as (tr0 & -> & Hp). exists (full1 ++ tr0).
    split; [now rewrite app_assoc|]. now apply prefix_app.
Qed.

Lemma shape_raise {A B} full1 full2 e tr :
  shape full1 (Raise e : result A) tr -> shape (full1 ++ full2) (Raise e : result B) tr.
Proof.
  intros (tr0 & -> & Hp). exists tr0. split; [reflexivity|].
  now apply prefix_app_r.
Qed.

Lemma shape_raise_nil {A} full e : shape full (Raise e : result A) [EvRaise e].
Proof. exists []. split; [reflexivity | apply prefix_nil]. Qed.

Lemma shape_ok {A} full (a : A) : shape full (Ok a) full.
Proof. reflexivity. Qed.

Lemma shape_more {A} l full (r : result A) tr :
  shape full r tr -> shape (l ++ full) r (l ++ tr).
Proof.
  destruct r as [a|e]; cbn.
  - now intros ->.
  - intros (tr0 & -> & Hp). exists (l ++ tr0).
    split; [now rewrite app_assoc | now apply prefix_app].
Qed.

Lemma shape_cons {A} ev full (r : result A) tr :
  shape full r tr -> shape (ev :: full) r (ev :: tr).
Proof. apply (shape_more [ev]). Qed.

Lemma shape_ok_nil {A} (a : A) tr : shape [] (Ok a) tr -> tr = [].
Proof. auto. Qed.

Ltac shape_tac :=
  repeat first [ apply shape_raise_nil | apply shape_ok
               | apply shape_cons | apply shape_more ].

Lemma append_empty_r (s : string) : (s ++ "")%string = s.
Proof.
  induction s as [|c s IH]; [reflexivity|].
  change (String c (s ++ "") = String c s)%string. now rewrite IH.
Qed.

Lemma format_progress (n : Z) (l : float) :
  format "t = %d, loss = %.4f" [AInt n; AFloat l] = Ok (progress_line n l).
Proof.
  cbn [format rbind Arg_int Arg_float].
  change (digit_of "4") with (Some 4). cbn [rbind].
  rewrite append_empty_r. reflexivity.
Qed.

Lemma format_epoch (e n : Z) :
  format "Starting epoch %d / %d" [AInt e; AInt n] = Ok (epoch_line e n).
Proof.
  cbn [format rbind Arg_int Arg_float].
  rewrite append_empty_r. reflexivity.
Qed.

Lemma format_result (c n : Z) (p : float) :
  format "Got %d / %d correct (%.2f)" [AInt c; AInt n; AFloat p] = Ok (result_line c n p).
Proof.
  cbn [format rbind Arg_int Arg_float].
  change (digit_of "2") with (Some 2). cbn [rbind]. reflexivity.
Qed.

Lemma run_progress (t : nat) (l : float) :
  run_spec (if ((Z.of_nat t + 1) mod print_every =? 0)%Z
            then print_format fw "t = %d, loss = %.4f" [AInt (Z.of_nat t + 1); AFloat l]
            else ret tt)
    (fun n r tr n' => n' = n /\ r = Ok tt /\ tr = progress_events t l).
Proof.
  unfold progress_events.
  destruct ((Z.of_nat t + 1) mod print_every =? 0)%Z.
  - eapply run_weaken; [apply run_print_format|].
    intros n r tr n' [-> H]. rewrite format_progress in H. destruct H as [-> ->]. auto.
  - eapply run_weaken; [apply run_ret|]. intros n r tr n' (-> & -> & ->). auto.
Qed.

Lemma run_train_step model loss_fn o t batch :
  run_spec (train_step fw model loss_fn o t batch)
    (fun n r tr n' =>
       n' = n /\
       exists out, shape (step_events model (opt_id o) (opt_target o) t out) r tr).
Proof.
  unfold train_step.
  eapply run_weaken.
  { eapply run_bind; [run_prog|]. intros x_var.
    eapply run_bind; [run_prog|]. intros y_var.
    eapply run_bind; [run_prog|]. intros scores.
    eapply run_bind; [run_prog|]. intros loss.
    eapply run_bind; [apply run_progress|]. intros u.
    run_prog. }
  intros n r tr n' H. unfold step_events. run_inv.
  all: split; [reflexivity|].
  all: repeat match goal with H : loss_module _ _ = _ |- _ => rewrite H in * end.
  all: try (destruct r; cbn [call_events]).
  all: eexists (_, _); cbn [fst snd app]; shape_tac.
  Unshelve. all: first [exact [] | exact Fnan].
Qed.


(** *** The loops *)

Lemma collate_labels (ds : Dataset fw) idxs x y :
  collate fw ds idxs = Ok (x, y) ->
  length x = length idxs /\ y = Dataset_labels fw ds idxs.
Proof.
  revert x y. induction idxs as [|i idxs IH]; intros x y H.
  - injection H as <- <-. auto.
  - cbn [collate] in H. unfold Dataset_getitem in H.
    destruct ((0 <=? Dataset_position fw ds i) && _)%Z; [|discriminate].
    cbn [rbind] in H. destruct (collate fw ds idxs) as [[x' y']|]; [|discriminate].
    injection H as <- <-. destruct (IH x' y' eq_refl) as [Hx ->].
    cbn. split; [now rewrite Hx | reflexivity].
Qed.

Lemma run_DataLoader_fetch (loader : DataLoader fw) idxs :
  run_spec (DataLoader_fetch fw loader idxs)
    (fun n r tr n' =>
       n' = n /\ tr = EvFetch idxs :: call_events silent r /\
       forall b, r = Ok b ->
         length (fst b) = length idxs /\
         snd b = Dataset_labels fw (dataset loader) idxs).
Proof.
  unfold DataLoader_fetch. eapply run_weaken; [run_prog|].
  intros n r tr n' H. run_inv.
  split; [reflexivity|]. split; [reflexivity|].
  intros [x y] E. now apply collate_labels.
Qed.


Lemma loop_events_nil m o tgt t batches : loop_events m o tgt t batches [] = [].
Proof. now destruct batches. Qed.

(** The loop of [train] over the batches [batches] of [loader], from
    position [t]. *)
Lemma run_train_loop model loss_fn o (loader : DataLoader fw) batches t :
  run_spec (for_enumerate fw t batches
              (fun t idxs => bind (DataLoader_fetch fw loader idxs)
                                  (train_step fw model loss_fn o t)))
    (fun n r tr n' =>
       n' = n /\
       exists outs,
         (forall a, r = Ok a -> length outs = length batches) /\
         shape (loop_events model (opt_id o) (opt_target o) t batches outs) r tr).
Proof.
  revert t. induction batches as [|idxs batches IH]; intros t.
  - eapply run_weaken; [apply run_ret|].
    intros n r tr n' (-> & -> & ->). split; [reflexivity|]. exists []. split; auto.
    reflexivity.
  - cbn [for_enumerate]. eapply run_weaken.
    { eapply run_bind; [|intros ?; apply (IH (S t))].
      eapply run_bind; [apply run_DataLoader_fetch | intros ?; apply run_train_step]. }
    intros n r tr n' H. run_inv.
    all: split; [reflexivity|].
    + match goal with
      | H2 : shape (step_events _ _ _ _ ?out) (Ok _) _,
        H0 : forall a, r = Ok a -> length ?outs = _ |- _ =>
          exists (out :: outs); split;
          [ intros a E; cbn [length]; now rewrite (H0 a E)
          | cbn [loop_events]; apply shape_cons; eapply shape_app; eassumption ]
      end.
    + match goal with
      | H2 : shape (step_events _ _ _ _ ?out) (Raise _) _ |- _ =>
          exists [out]; split; [discriminate|];
          cbn [loop_events]; rewrite loop_events_nil, app_nil_r;
          apply shape_cons; assumption
      end.
    + exists [([], Fnan)]. split; [discriminate|].
      cbn [loop_events]. apply shape_cons, shape_raise_nil.
Qed.

Lemma DataLoader_batches_sampler (ds : Dataset fw) bs s :
  DataLoader_batches fw (mkDataLoader ds bs (Some s))
  = BatchSampler_iter bs (ChunkSampler_iter s).
Proof. reflexivity. Qed.

Lemma loader_train_DataLoader_batches :
  DataLoader_batches fw loader_train' = loader_train_batches.
Proof.
  unfold loader_train. rewrite DataLoader_batches_sampler.
  symmetry. apply loader_train_batches_eq.
Qed.

Lemma run_train_epoch model loss_fn o num_epochs epoch :
  run_spec (train_epoch' model loss_fn o num_epochs epoch)
    (fun n r tr n' =>
       n' = n /\
       exists outs,
         (forall a, r = Ok a -> length outs = length loader_train_batches) /\
         shape (epoch_events model (opt_id o) (opt_target o) num_epochs epoch outs) r tr).
Proof.
  unfold train_epoch, for_loader. rewrite loader_train_DataLoader_batches.
  eapply run_weaken.
  { eapply run_bind; [apply run_print_format|]. intros ?.
    eapply run_bind; [apply run_Module_set_mode|]. intros ?.
    apply run_train_loop. }
  intros n r tr n' H. rewrite format_epoch in H. unfold epoch_events. run_inv.
  all: split; [reflexivity|].
  - match goal with
    | H0 : forall a, r = Ok a -> length ?outs = _ |- _ =>
        exists outs; split; [exact H0 | shape_tac; assumption]
    end.
  - exists []. split; [discriminate|]. rewrite loop_events_nil. shape_tac.
Qed.

Lemma train_events_nil m o tgt num_epochs epochs :
  train_events m o tgt num_epochs epochs [] = [].
Proof. now destruct epochs. Qed.

Lemma run_train_epochs model loss_fn o num_epochs epochs t :
  run_spec (for_enumerate fw t epochs (fun _ => train_epoch' model loss_fn o num_epochs))
    (fun n r tr n' =>
       n' = n /\
       exists outss,
         (forall a, r = Ok a ->
            length outss = length epochs /\
            Forall (fun outs => length outs = length loader_train_batches) outss) /\
         shape (train_events model (opt_id o) (opt_target o) num_epochs epochs outss) r tr).
Proof.
  revert t. induction epochs as [|epoch epochs IH]; intros t.
  - eapply run_weaken; [apply run_ret|].
    intros n r tr n' (-> & -> & ->). split; [reflexivity|]. exists []. split; auto.
    reflexivity.
  - cbn [for_enumerate]. eapply run_weaken.
    { eapply run_bind; [apply run_train_epoch | intros ?; apply (IH (S t))]. }
    intros n r tr n' H. run_inv.
    all: split; [reflexivity|].
    + match goal with
      | H2 : shape (epoch_events _ _ _ _ _ ?outs) (Ok _) _,
        H3 : length ?outs = _,
        H0 : forall a, r = Ok a -> length ?outss = _ /\ _ |- _ =>
          exists (outs :: outss); split;
          [ intros a E; destruct (H0 a E) as [Hl Hf]; cbn [length]; rewrite Hl;
            split; [reflexivity | now constructor]
          | cbn [train_events]; eapply shape_app; eassumption ]
      end.
    + match goal with
      | H2 : shape (epoch_events _ _ _ _ _ ?outs) (Raise _) _ |- _ =>
          exists [outs]; split; [discriminate|];
          cbn [train_events]; rewrite train_events_nil, app_nil_r; assumption
      end.
Qed.

Lemma length_range (a b : Z) : length (range a b) = Z.to_nat (b - a).
Proof. unfold range. rewrite count_from_seqZ, length_seqZ. lia. Qed.

(** [train] leaves the events of [num_epochs] epochs, each over all the
    batches of the training loader, or a part of them and a raise. *)
Lemma run_train model loss_fn o num_epochs :
  run_spec (train' model loss_fn o num_epochs)
    (fun n r tr n' =>
       n' = n /\
       exists outss,
         (forall a, r = Ok a ->
            length outss = Z.to_nat num_epochs /\
            Forall (fun outs => length outs = length loader_train_batches) outss) /\
         shape (train_events model (opt_id o) (opt_target o) num_epochs
                             (range 0 num_epochs) outss) r tr).
Proof.
  unfold train, for_each.
  eapply run_weaken; [apply run_train_epochs|].
  intros n r tr n' (-> & outss & H & Hs). split; [reflexivity|].
  exists outss. split; [|exact Hs].
  intros a E. destruct (H a E) as [Hl Hf]. rewrite Hl, length_range.
  split; [f_equal; lia | exact Hf].
Qed.

(** *** What the expected events say *)


Lemma prints_app tr1 tr2 : prints (tr1 ++ tr2) = prints tr1 ++ prints tr2.
Proof. apply omap_app. Qed.

Lemma raises_app tr1 tr2 : raises (tr1 ++ tr2) = raises tr1 ++ raises tr2.
Proof. apply omap_app. Qed.

Lemma progress_events_quiet t l :
  steps (progress_events t l) = [] /\ raises (progress_events t l) = [].
Proof. unfold progress_events. now destruct (_ =? _)%Z. Qed.




Lemma raises_loop_events m o tgt t batches outs :
  raises (loop_events m o tgt t batches outs) = [].
Proof.
  revert t outs. induction batches as [|idxs batches IH]; intros t [|out outs];
    try reflexivity.
  cbn [loop_events]. change (EvFetch idxs :: ?l) with ([EvFetch idxs] ++ l).
  unfold step_events. rewrite !raises_app, IH.
  rewrite (proj2 (progress_events_quiet t (snd out))). reflexivity.
Qed.

Lemma raises_train_events m o tgt num_epochs epochs outss :
  raises (train_events m o tgt num_epochs epochs outss) = [].
Proof.
  revert outss. induction epochs as [|epoch epochs IH]; intros [|outs outss];
    try reflexivity.
  cbn [train_events]. unfold epoch_events.
  rewrite !raises_app, raises_loop_events, IH. reflexivity.
Qed.

Lemma raises_prefix tr0 full : tr0 `prefix_of` full -> raises full = [] -> raises tr0 = [].
Proof.
  intros [k ->]. rewrite raises_app. intros H. now apply app_eq_nil in H as [H _].
Qed.

Lemma shape_propagates {A} full (r : result A) tr :
  raises full = [] -> shape full r tr -> propagates r tr.
Proof.
  intros Hf. destruct r as [a|e]; cbn.
  - now intros ->.
  - intros (tr0 & -> & Hp). exists tr0. split; [reflexivity|].
    now apply (raises_prefix tr0 full).
Qed.

(** A statement run in a world, as the events it adds. *)
Lemma run_spec_at {A} (m : M fw A) Q w :
  run_spec m Q ->
  exists tr, trace (snd (m w)) = trace w ++ tr /\
             Q (next_id w) (fst (m w)) tr (next_id (snd (m w))).
Proof. intros H. apply H. now destruct (m w). Qed.


(** *** The accuracy check *)

Lemma max1_argmax e scores m : max1 e scores = Ok m -> snd m = map argmax scores.
Proof.
  revert m. induction scores as [|row scores IH]; intros m H.
  - injection H as <-. reflexivity.
  - cbn [max1] in H. destruct row as [|s row]; [discriminate|].
    cbn [row_max rbind] in H. destruct (max1 e scores) as [rest|]; [|discriminate].
    injection H as <-. cbn. now rewrite (IH rest eq_refl).
Qed.

Lemma tensor_eq_same_length a b :
  length a = length b -> tensor_eq a b = Ok (zip_eq a b).
Proof. intros H. unfold tensor_eq. now rewrite H, Nat.eqb_refl. Qed.

Lemma tensor_sum_correct scores labels :
  tensor_sum (zip_eq (map argmax scores) labels) = Z.of_nat (correct_in scores labels).
Proof.
  unfold tensor_sum, correct_in. f_equal.
  revert labels. induction scores as [|row scores IH]; intros [|y labels]; try reflexivity.
  cbn [map zip_eq zip zip_with List.filter fst snd].
  destruct (argmax row =? y)%Z; cbn [length]; now rewrite IH.
Qed.

Lemma run_check_accuracy_step model counts (batch : list (Image fw) * list Z) :
  run_spec (check_accuracy_step fw model counts batch)
    (fun n r tr n' =>
       n' = n /\
       exists scores,
         shape [EvForward model scores] r tr /\
         forall c, r = Ok c ->
           length scores = length (fst batch) /\
           (length (snd batch) = length (fst batch) ->
            c = (fst counts + Z.of_nat (correct_in scores (snd batch)),
                 snd counts + Z.of_nat (length (fst batch)))%Z)).
Proof.
  unfold check_accuracy_step.
  eapply run_weaken; [run_prog|].
  intros n r tr n' H. run_inv.
  all: split; [reflexivity|].
  all: try match goal with
       | H : length (scores_data fw ?sc) = _ |- _ =>
           exists (scores_data fw sc); split; [shape_tac|]; try discriminate
       end.
  all: try (exists []; split; [shape_tac | discriminate]).
  intros c [= <-]. split; [assumption|]. intros Hlen.
  match goal with
  | H : Ok ?m = max1 _ _ |- _ => symmetry in H; apply max1_argmax in H; rewrite H in *
  end.
  match goal with
  | H : Ok ?eqs = tensor_eq _ _ |- _ =>
      rewrite tensor_eq_same_length in H
        by (rewrite length_map; congruence);
      injection H as ->
  end.
  rewrite tensor_sum_correct, length_map. congruence.
Qed.

Lemma check_events_nil m batches : check_events m batches [] = [].
Proof. now destruct batches. Qed.

Lemma run_check_accuracy_loop model (loader : DataLoader fw) batches counts :
  run_spec (for_fold fw batches counts
              (fun counts idxs =>
                 bind (DataLoader_fetch fw loader idxs)
                      (check_accuracy_step fw model counts)))
    (fun n r tr n' =>
       n' = n /\
       exists outs,
         shape (check_events model batches outs) r tr /\
         forall c, r = Ok c ->
           Forall2 (fun idxs scores => length scores = length idxs) batches outs /\
           c = (fst counts + count_correct (dataset loader) batches outs,
                snd counts + Z.of_nat (length (concat batches)))%Z).
Proof.
  revert counts. induction batches as [|idxs batches IH]; intros counts.
  - eapply run_weaken; [apply run_ret|].
    intros n r tr n' (-> & -> & ->). split; [reflexivity|]. exists [].
    split; [reflexivity|]. intros c [= <-]. split; [constructor|].
    cbn. destruct counts. cbn. f_equal; lia.
  - cbn [for_fold]. eapply run_weaken.
    { eapply run_bind; [|intros c1; apply (IH c1)].
      eapply run_bind; [apply run_DataLoader_fetch
                       | intros b; apply (run_check_accuracy_step model counts b)]. }
    intros n r tr n' H. run_inv.
    all: split; [reflexivity|].
    + match goal with
      | Hs1 : shape [EvForward _ ?sc] (Ok ?c1) ?tr1,
        Hsc : length ?sc = length (fst ?b),
        Hx : length (fst ?b) = length idxs,
        Hy : snd ?b = Dataset_labels _ _ _,
        Hc1 : length (snd ?b) = length (fst ?b) -> ?c1 = _,
        Hs2 : shape (check_events _ _ ?outs) r _,
        Hc2 : forall c, r = Ok c -> _ |- _ =>
          exists (sc :: outs); cbn [shape] in Hs1; subst tr1; split;
          [ cbn [check_events app]; now apply shape_cons, shape_cons
          | intros c E; destruct (Hc2 c E) as [Hf ->]; split;
            [ constructor; [congruence | exact Hf]
            | rewrite Hc1 by (rewrite Hy; unfold Dataset_labels;
                              rewrite length_map; congruence);
              cbn [count_correct concat fst snd]; rewrite length_app, Hy, Hx;
              f_equal; lia ] ]
      end.
    + match goal with
      | Hs1 : shape [EvForward _ ?sc] (Raise _) _ |- _ =>
          exists [sc]; split; [|discriminate];
          cbn [check_events]; rewrite check_events_nil; now apply shape_cons
      end.
    + exists [[]]. split; [|discriminate].
      cbn [check_events]. apply shape_cons, shape_raise_nil.
Qed.

Lemma length_concat_BatchSampler bs idxs :
  length (concat (BatchSampler_iter bs idxs)) = length idxs.
Proof. unfold BatchSampler_iter. now rewrite BatchSampler_go_concat. Qed.

(** [check_accuracy] up to the end of its loop: the header, then the rest. *)
Lemma run_check_accuracy_counts model (loader : DataLoader fw) :
  run_spec (check_accuracy_counts fw model loader)
    (fun n r tr n' =>
       n' = n /\
       exists outs tr',
         tr = EvPrint (check_accuracy_header fw loader) :: tr' /\
         shape (EvMode model false :: check_events model (DataLoader_batches fw loader) outs)
               r tr' /\
         forall c, r = Ok c ->
           Forall2 (fun idxs scores => length scores = length idxs)
                   (DataLoader_batches fw loader) outs /\
           c = (count_correct (dataset loader) (DataLoader_batches fw loader) outs,
                Z.of_nat (length (DataLoader_indices fw loader)))).
Proof.
  unfold check_accuracy_counts.
  eapply run_weaken.
  { eapply run_bind; [apply run_emit|]. intros ?.
    eapply run_bind; [apply run_Module_set_mode|]. intros ?.
    apply run_check_accuracy_loop. }
  intros n r tr n' H. run_inv.
  all: split; [reflexivity|].
  - match goal with
    | H : shape (check_events _ _ ?outs) r ?tr2 |- _ =>
        exists outs, (EvMode model false :: tr2)
    end.
    split; [reflexivity|]. split; [now apply shape_cons|].
    intros c E. match goal with H : forall c, r = Ok c -> _ |- _ =>
      destruct (H c E) as [Hf ->] end.
    split; [exact Hf|]. unfold DataLoader_batches at 2.
    rewrite length_concat_BatchSampler. cbn. f_equal.
  - exists []. eexists. split; [reflexivity|]. split; [shape_tac | discriminate].
Qed.

Lemma correct_in_le scores labels : correct_in scores labels <= length labels.
Proof.
  unfold correct_in. etransitivity; [apply List.filter_length_le|].
  rewrite length_zip_with. lia.
Qed.

Lemma count_correct_le (ds : Dataset fw) batches outs :
  (0 <= count_correct ds batches outs <= Z.of_nat (length (concat batches)))%Z.
Proof.
  revert outs. induction batches as [|idxs batches IH]; intros [|scores outs];
    cbn [count_correct concat length]; try lia.
  specialize (IH outs). rewrite length_app.
  pose proof (correct_in_le scores (Dataset_labels fw ds idxs)) as Hc.
  unfold Dataset_labels in Hc. rewrite length_map in Hc. unfold Dataset_labels. lia.
Qed.

(** The percentage [check_accuracy] prints: [100 * (float(a) / b)]. *)
Lemma float_div_zero (a : Z) (x : float) : float_div a 0 <> Ok x.
Proof.
  unfold float_div, float_truediv. destruct (float_of_int a) as [y|e]; [|discriminate].
  cbn [rbind]. change (float_of_int 0) with (Ok (Fnum 0)). cbn. discriminate.
Qed.

Lemma run_check_accuracy_report (counts : Z * Z) :
  run_spec (check_accuracy_report fw counts)
    (fun n r tr n' =>
       n' = n /\
       match rbind (float_div (fst counts) (snd counts)) (int_mul_float 100) with
       | Ok percent =>
           r = Ok tt /\
           tr = [EvPrint (result_line (fst counts) (snd counts) percent)]
       | Raise e => r = Raise e /\ tr = [EvRaise e]
       end).
Proof.
  unfold check_accuracy_report.
  eapply run_weaken.
  { eapply run_bind; [apply run_lift|]. intros acc.
    eapply run_bind; [apply run_lift|]. intros percent. apply run_print_format. }
  intros n r tr n' H.
  destruct (float_div (fst counts) (snd counts)) as [acc|e]; cbn [rbind]; run_inv; auto.
  all: match goal with H : _ = int_mul_float 100 _ |- _ => rewrite <- H end; auto.
  all: match goal with H : match format _ _ with _ => _ end |- _ =>
    rewrite format_result in H; destruct H as [-> ->] end.
  all: auto.
Qed.

(** [check_accuracy]: the header, then the events of the loop and the result
    line, or a part of them and a raise. *)
Lemma run_check_accuracy model (loader : DataLoader fw) :
  run_spec (check_accuracy fw model loader)
    (fun n r tr n' =>
       n' = n /\
       exists outs correct total percent tr',
         tr = EvPrint (check_accuracy_header fw loader) :: tr' /\
         shape (EvMode model false
                  :: check_events model (DataLoader_batches fw loader) outs
                  ++ [EvPrint (result_line correct total percent)])
               r tr' /\
         forall a, r = Ok a ->
           Forall2 (fun idxs scores => length scores = length idxs)
                   (DataLoader_batches fw loader) outs /\
           correct = count_correct (dataset loader) (DataLoader_batches fw loader) outs /\
           total = Z.of_nat (length (DataLoader_indices fw loader)) /\
           total <> 0%Z /\
           rbind (float_div correct total) (int_mul_float 100) = Ok percent).
Proof.
  unfold check_accuracy.
  eapply run_weaken.
  { eapply run_bind; [apply run_check_accuracy_counts|].
    intros ?; apply run_check_accuracy_report. }
  intros n r tr n' [(c & tr1 & n1 & tr2 & (-> & outs & tr' & -> & Hs & Hc) & (-> & Hr) & ->)
                   | (e & -> & -> & outs & tr' & -> & Hs & _)].
  - split; [reflexivity|]. destruct (Hc c eq_refl) as [Hf ->]. cbn [fst snd] in Hr.
    cbn in Hs. subst tr'.
    exists outs, (count_correct (dataset loader) (DataLoader_batches fw loader) outs),
      (Z.of_nat (length (DataLoader_indices fw loader))).
    destruct (rbind (float_div
                       (count_correct (dataset loader) (DataLoader_batches fw loader) outs)
                       (Z.of_nat (length (DataLoader_indices fw loader))))
                    (int_mul_float 100)) as [percent|e] eqn:E.
    + destruct Hr as [-> ->]. exists percent. eexists. split; [reflexivity|].
      split; [reflexivity|]. intros a _. repeat split; auto.
      intros E0. rewrite E0 in E.
      destruct (float_div _ 0) as [acc|e] eqn:E1; [|discriminate E].
      now apply float_div_zero in E1.
    + destruct Hr as [-> ->]. exists Fnan. eexists. split; [reflexivity|].
      split; [|discriminate]. apply shape_cons.
      exists (check_events model (DataLoader_batches fw loader) outs).
      split; [reflexivity | now apply prefix_app_r].
  - split; [reflexivity|]. exists outs, 0%Z, 0%Z, Fnan, tr'. split; [reflexivity|].
    split; [|discriminate]. rewrite app_comm_cons. eapply (shape_raise (A:=Z * Z)), Hs.
Qed.

Ltac run_call ::=
  first [ apply run_Tensor_type | apply run_Module_set_mode | apply run_Module_call
        | apply run_loss_call | apply run_Optimizer_zero_grad | apply run_Loss_backward
        | apply run_Optimizer_step | apply run_print_format | apply run_deepcopy
        | apply run_Module_type | apply run_Module_apply_reset | apply run_Sequential
        | apply run_new_optimizer | apply run_manual_seed
        | apply run_train | apply run_check_accuracy ].

Lemma raises_check_events m batches outs : raises (check_events m batches outs) = [].
Proof.
  revert outs. induction batches as [|idxs batches IH]; intros [|sc outs]; try reflexivity.
  cbn [check_events]. exact (IH outs).
Qed.


(** What [check_accuracy] does once its loop has run over all batches. *)
Lemma check_accuracy_after_loop model (loader : DataLoader fw) w num_correct num_samples :
  fst (check_accuracy_counts fw model loader w) = Ok (num_correct, num_samples) ->
  let w1 := snd (check_accuracy_counts fw model loader w) in
  exists outs,
    trace w1 = trace w ++ [EvPrint (check_accuracy_header fw loader); EvMode model false]
                       ++ check_events model (DataLoader_batches fw loader) outs /\
    Forall2 (fun idxs scores => length scores = length idxs)
            (DataLoader_batches fw loader) outs /\
    num_correct = count_correct (dataset loader) (DataLoader_batches fw loader) outs /\
    num_samples = Z.of_nat (length (DataLoader_indices fw loader)) /\
    (0 <= num_correct <= num_samples)%Z /\
    check_accuracy fw model loader w = check_accuracy_report fw (num_correct, num_samples) w1 /\
    (num_samples = 0%Z ->
     fst (check_accuracy fw model loader w) = Raise ZeroDivisionError) /\
    match rbind (float_div num_correct num_samples) (int_mul_float 100) with
    | Ok percent =>
        fst (check_accuracy fw model loader w) = Ok tt /\
        trace (snd (check_accuracy fw model loader w)) =
          trace w1 ++ [EvPrint (result_line num_correct num_samples percent)]
    | Raise e => fst (check_accuracy fw model loader w) = Raise e
    end /\
    (num_samples <> 0%Z -> exact_count num_samples ->
     exists acc percent,
       float_div num_correct num_samples = Ok (Fnum acc) /\
       int_mul_float 100 (Fnum acc) = Ok (Fnum percent) /\
       rounds (inject_Z num_correct / inject_Z num_samples) acc /\
       rounds (100 * acc) percent /\
       (0 <= acc <= 1)%Q /\ (0 <= percent <= 100)%Q /\
       fst (check_accuracy fw model loader w) = Ok tt /\
       trace (snd (check_accuracy fw model loader w)) =
         trace w1 ++ [EvPrint (result_line num_correct num_samples (Fnum percent))]).
Proof.
  intros Hok w1.
  destruct (run_spec_at _ _ w (run_check_accuracy_counts model loader))
    as (tr & Htr & _ & outs & tr' & -> & Hs & Hc).
  rewrite Hok in Hs, Hc. cbn in Hs. subst tr'.
  destruct (Hc _ eq_refl) as [Hf [= Enc Ens]].
  assert (Hb : (0 <= num_correct <= num_samples)%Z).
  { rewrite Enc, Ens. unfold DataLoader_batches.
    rewrite <- (length_concat_BatchSampler (batch_size loader) (DataLoader_indices fw loader)).
    apply count_correct_le. }
  exists outs. split; [exact Htr|]. split; [exact Hf|]. do 2 (split; [assumption|]).
  split; [exact Hb|].
  assert (Hrun : check_accuracy fw model loader w
                 = check_accuracy_report fw (num_correct, num_samples) w1).
  { unfold check_accuracy, bind. subst w1.
    destruct (check_accuracy_counts fw model loader w) as [r0 w0].
    cbn in Hok. subst r0. reflexivity. }
  split; [exact Hrun|]. rewrite Hrun.
  destruct (run_spec_at _ _ w1 (run_check_accuracy_report (num_correct, num_samples)))
    as (tr2 & Htr2 & _ & Hr).
  cbn [fst snd] in Hr.
  assert (Hper : match rbind (float_div num_correct num_samples) (int_mul_float 100) with
                 | Ok percent =>
                     fst (check_accuracy_report fw (num_correct, num_samples) w1) = Ok tt /\
                     trace (snd (check_accuracy_report fw (num_correct, num_samples) w1)) =
                       trace w1 ++ [EvPrint (result_line num_correct num_samples percent)]
                 | Raise e =>
                     fst (check_accuracy_report fw (num_correct, num_samples) w1) = Raise e
                 end).
  { destruct (rbind (float_div num_correct num_samples) (int_mul_float 100));
      destruct Hr as [Hr ->]; auto. }
  split; [|split; [exact Hper|]].
  - intros E0. assert (Enc0 : num_correct = 0%Z) by lia. rewrite E0, Enc0 in Hr |- *.
    change (rbind (float_div 0 0) (int_mul_float 100)) with (@Raise float ZeroDivisionError) in Hr.
    apply Hr.
  - intros Hnz Hex.
    destruct (accuracy_of_counts num_correct num_samples Hb ltac:(lia) Hex)
      as (acc & percent & Ed & Em & R1 & R2 & B1 & B2).
    exists acc, percent. do 6 (split; [assumption|]).
    rewrite Ed in Hper. cbn [rbind] in Hper. rewrite Em in Hper. exact Hper.
Qed.


(** *** Exceptions, printed lines and the header *)

Lemma propagates_cons {A} ev (r : result A) tr :
  raises [ev] = [] -> propagates r tr -> propagates r (ev :: tr).
Proof.
  intros Hev. destruct r as [a|e]; cbn [propagates].
  - intros H. change (ev :: tr) with ([ev] ++ tr). now rewrite raises_app, Hev, H.
  - intros (tr0 & -> & H). exists (ev :: tr0). split; [reflexivity|].
    change (ev :: tr0) with ([ev] ++ tr0). now rewrite raises_app, Hev, H.
Qed.

(** C7.  The notebook adds no recovery, retry or translation around
    failures: whatever exception a call inside train or check_accuracy
    raises, train or check_accuracy ends with that same exception, its raise
    is the last thing that happened and the only raise of the call; and a
    call that returns has raised nothing. *)
Theorem exceptions_propagate model loss_fn o num_epochs (loader : DataLoader fw) w :
  (exists tr,
      trace (snd (train' model loss_fn o num_epochs w)) = trace w ++ tr /\
      propagates (fst (train' model loss_fn o num_epochs w)) tr) /\
  (exists tr,
      trace (snd (check_accuracy fw model loader w)) = trace w ++ tr /\
      propagates (fst (check_accuracy fw model loader w)) tr).
Proof.
  split.
  - destruct (run_spec_at _ _ w (run_train model loss_fn o num_epochs))
      as (tr & Htr & _ & outss & _ & Hs).
    exists tr. split; [exact Htr|].
    eapply shape_propagates; [|exact Hs]. apply raises_train_events.
  - destruct (run_spec_at _ _ w (run_check_accuracy model loader))
      as (tr & Htr & _ & outs & c & t & p & tr' & -> & Hs & _).
    eexists. split; [exact Htr|]. apply propagates_cons; [reflexivity|].
    eapply shape_propagates; [|exact Hs].
    change (EvMode model false :: ?l) with ([EvMode model false] ++ l).
    now rewrite !raises_app, raises_check_events.
Qed.

Lemma prints_prefix tr0 full : tr0 `prefix_of` full -> prints tr0 `prefix_of` prints full.
Proof. intros [k ->]. rewrite prints_app. now apply prefix_app_r. Qed.

Lemma prints_shape {A} full (r : result A) tr :
  shape full r tr -> prints tr `prefix_of` prints full.
Proof.
  destruct r as [a|e]; cbn [shape].
  - now intros ->.
  - intros (tr0 & -> & Hp). rewrite prints_app. cbn. rewrite app_nil_r.
    now apply prints_prefix.
Qed.

Lemma Forall_prefix {A} (P : A -> Prop) (l1 l2 : list A) :
  l1 `prefix_of` l2 -> Forall P l2 -> Forall P l1.
Proof. intros [k ->] H. now apply Forall_app in H as [H _]. Qed.

Lemma prints_check_events m batches outs : prints (check_events m batches outs) = [].
Proof.
  revert outs. induction batches as [|idxs batches IH]; intros [|sc outs]; try reflexivity.
  cbn [check_events]. exact (IH outs).
Qed.





Lemma result_line_not_header c n p : ~ header_line (result_line c n p).
Proof. unfold result_line. intros [H|H]; discriminate. Qed.

(** C10.  check_accuracy chooses its header from the train flag of the
    loader's dataset alone, and prints it first and once: 'Checking accuracy
    on validation set' if and only if the flag is true, 'Checking accuracy
    on test set' otherwise; so a loader over a training-split dataset, the
    training loader included, is labelled as the validation set. *)
Theorem check_accuracy_header_by_train_flag model (loader : DataLoader fw) w :
  (exists tr rest,
      trace (snd (check_accuracy fw model loader w)) = trace w ++ tr /\
      prints tr = check_accuracy_header fw loader :: rest /\
      Forall (fun line => ~ header_line line) rest) /\
  (train_flag (dataset loader) = true <->
   check_accuracy_header fw loader = "Checking accuracy on validation set"%string) /\
  (train_flag (dataset loader) = false <->
   check_accuracy_header fw loader = "Checking accuracy on test set"%string) /\
  check_accuracy_header fw loader_train' = "Checking accuracy on validation set"%string /\
  check_accuracy_header fw loader_val' = "Checking accuracy on validation set"%string /\
  check_accuracy_header fw loader_test' = "Checking accuracy on test set"%string.
Proof.
  split; [|unfold check_accuracy_header; destruct (train_flag (dataset loader));
           repeat split; intros; try reflexivity; discriminate].
  destruct (run_spec_at _ _ w (run_check_accuracy model loader))
    as (tr & Htr & _ & outs & c & t & p & tr' & -> & Hs & _).
  apply prints_shape in Hs.
  change (EvMode model false :: ?l) with ([EvMode model false] ++ l) in Hs.
  rewrite !prints_app, prints_check_events in Hs. cbn in Hs.
  exists (EvPrint (check_accuracy_header fw loader) :: tr'), (prints tr').
  split; [exact Htr|]. split; [reflexivity|].
  eapply Forall_prefix; [exact Hs|]. constructor; [|constructor].
  apply result_line_not_header.
Qed.

(** *** Optimizer steps and the history of the parameters *)

Lemma steps_own_app last tr1 tr2 :
  steps_own last (tr1 ++ tr2) =
  steps_own last tr1 && steps_own (last_backward last tr1) tr2.
Proof.
  revert last. induction tr1 as [|ev tr1 IH]; intros last; [reflexivity|].
  destruct ev; cbn [app steps_own last_backward]; try apply IH.
  destruct last as [m0|]; [|reflexivity]. now rewrite IH, andb_assoc.
Qed.

Lemma own_seg_app tr1 tr2 : own_seg tr1 -> own_seg tr2 -> own_seg (tr1 ++ tr2).
Proof. intros H1 H2 last. now rewrite steps_own_app, H1, H2. Qed.

Lemma own_seg_prefix tr0 full : tr0 `prefix_of` full -> own_seg full -> own_seg tr0.
Proof.
  intros [k ->] H last. specialize (H last). rewrite steps_own_app in H.
  now apply andb_prop in H as [H _].
Qed.

Lemma own_seg_nil : own_seg [].
Proof. intros last. reflexivity. Qed.

Lemma shape_own {A} full (r : result A) tr :
  own_seg full -> shape full r tr -> own_seg tr.
Proof.
  intros Hf. destruct r as [a|e]; cbn [shape].
  - now intros ->.
  - intros (tr0 & -> & Hp). apply own_seg_app; [now apply (own_seg_prefix tr0 full)|].
    intros last. reflexivity.
Qed.

Lemma own_seg_progress t l : own_seg (progress_events t l).
Proof. intros last. unfold progress_events. now destruct (_ =? _)%Z. Qed.

Lemma own_seg_step_events m o t out : own_seg (step_events m o m t out).
Proof.
  unfold step_events. apply (own_seg_app [_; _]); [intros last; reflexivity|].
  apply own_seg_app; [apply own_seg_progress|].
  intros last. cbn. now rewrite Nat.eqb_refl.
Qed.

Lemma own_seg_loop_events m o t batches outs : own_seg (loop_events m o m t batches outs).
Proof.
  revert t outs. induction batches as [|idxs batches IH]; intros t [|out outs];
    try apply own_seg_nil.
  cbn [loop_events]. apply (own_seg_app [_]); [intros last; reflexivity|].
  apply own_seg_app; [apply own_seg_step_events | apply IH].
Qed.

Lemma own_seg_train_events m o num_epochs epochs outss :
  own_seg (train_events m o m num_epochs epochs outss).
Proof.
  revert outss. induction epochs as [|epoch epochs IH]; intros [|outs outss];
    try apply own_seg_nil.
  cbn [train_events]. unfold epoch_events.
  apply own_seg_app; [|apply IH].
  apply (own_seg_app [_; _]); [intros last; reflexivity | apply own_seg_loop_events].
Qed.

Lemma own_seg_check_events m batches outs : own_seg (check_events m batches outs).
Proof.
  revert outs. induction batches as [|idxs batches IH]; intros [|sc outs];
    try apply own_seg_nil.
  cbn [check_events]. apply (own_seg_app [_; _]); [intros last; reflexivity | apply IH].
Qed.

Lemma history_app tr1 tr2 : history (tr1 ++ tr2) = history tr1 ++ history tr2.
Proof. apply List.filter_app. Qed.

Lemma history_progress t l : history (progress_events t l) = [].
Proof. unfold progress_events. now destruct (_ =? _)%Z. Qed.

Lemma history_loop_events m o tgt t batches outs :
  length outs = length batches ->
  history (loop_events m o tgt t batches outs) = replicate (length batches) (EvStep o tgt).
Proof.
  revert t outs. induction batches as [|idxs batches IH]; intros t [|out outs] Hl;
    try discriminate; [reflexivity|].
  cbn [loop_events length replicate]. change (EvFetch idxs :: ?l) with ([EvFetch idxs] ++ l).
  unfold step_events. rewrite !history_app, history_progress, IH by (cbn in Hl; lia).
  reflexivity.
Qed.

Lemma history_check_events m batches outs : history (check_events m batches outs) = [].
Proof.
  revert outs. induction batches as [|idxs batches IH]; intros [|sc outs]; try reflexivity.
  cbn [check_events]. exact (IH outs).
Qed.

Lemma length_loader_train_batches : length loader_train_batches = num_batches.
Proof. vm_compute. reflexivity. Qed.

(** [train] for one epoch, as the notebook calls it. *)
Lemma run_train_once model loss_fn o :
  run_spec (train' model loss_fn o 1)
    (fun n r tr n' =>
       n' = n /\
       (opt_target o = model -> own_seg tr) /\
       forall a, r = Ok a ->
         history tr = replicate num_batches (EvStep (opt_id o) (opt_target o))).
Proof.
  eapply run_weaken; [apply run_train|].
  intros n r tr n' (-> & outss & Hl & Hs). split; [reflexivity|]. split.
  - intros <-. eapply shape_own; [|exact Hs]. apply own_seg_train_events.
  - intros a ->. cbn in Hs. subst tr. destruct (Hl a eq_refl) as [Hlen Hf].
    destruct outss as [|outs [|? ?]]; try discriminate.
    apply Forall_cons in Hf as [Ho _].
    change (range 0 1) with [0%Z]. cbn [train_events]. unfold epoch_events.
    rewrite !history_app, history_loop_events by exact Ho.
    rewrite length_loader_train_batches. reflexivity.
Qed.

Lemma run_check_accuracy_quiet model (loader : DataLoader fw) :
  run_spec (check_accuracy fw model loader)
    (fun n r tr n' =>
       n' = n /\ own_seg tr /\ forall a, r = Ok a -> history tr = []).
Proof.
  eapply run_weaken; [apply run_check_accuracy|].
  intros n r tr n' (-> & outs & c & t & p & tr' & -> & Hs & _). split; [reflexivity|].
  assert (Hown : own_seg (EvMode model false
                   :: check_events model (DataLoader_batches fw loader) outs
                   ++ [EvPrint (result_line c t p)])).
  { apply (own_seg_app [_]); [intros last; reflexivity|].
    apply own_seg_app; [apply own_seg_check_events | intros last; reflexivity]. }
  split.
  - apply (own_seg_app [_]); [intros last; reflexivity|]. eapply shape_own; eassumption.
  - intros a ->. cbn in Hs. subst tr'.
    change (EvPrint ?h :: EvMode ?m ?b :: ?l) with ([EvPrint h; EvMode m b] ++ l).
    now rewrite !history_app, history_check_events.
Qed.

Lemma run_cell27 fixed_model_gpu loss_fn o :
  run_spec (cell27 fw train_data test_data fixed_model_gpu loss_fn o)
    (fun n r tr n' =>
       n' = n /\
       (opt_target o = fixed_model_gpu -> own_seg tr) /\
       forall a, r = Ok a ->
         history tr = replicate num_batches (EvStep (opt_id o) (opt_target o))).
Proof.
  unfold cell27, for_loader. rewrite loader_train_DataLoader_batches.
  eapply run_weaken.
  { eapply run_bind; [apply run_Module_set_mode | intros ?; apply run_train_loop]. }
  intros n r tr n' H. run_inv.
  all: split; [reflexivity|].
  - split.
    + intros <-. apply (own_seg_app [_]); [intros last; reflexivity|].
      eapply shape_own; [apply own_seg_loop_events | eassumption].
    + intros a ->.
      repeat match goal with
      | H : shape _ (Ok _) _ |- _ => cbn [shape] in H; subst
      | H : forall a, Ok ?x = Ok a -> _ |- _ => specialize (H x eq_refl)
      end.
      change (EvMode ?m ?b :: ?l) with ([EvMode m b] ++ l).
      rewrite history_app, history_loop_events by assumption.
      change (history [EvMode fixed_model_gpu true]) with (@nil Event).
      rewrite length_loader_train_batches. apply app_nil_l.
  - split; [intros _ last; reflexivity | discriminate].
Qed.

(** *** The cells *)

Ltac own_tac :=
  repeat first [ assumption | apply own_seg_nil | solve [intros ?; reflexivity]
               | apply own_seg_app
               | match goal with |- own_seg (_ :: _) => apply (own_seg_app [_]) end ].

Ltac run_call ::=
  first [ apply run_train_once | apply run_check_accuracy_quiet
        | apply run_Tensor_type | apply run_Module_set_mode | apply run_Module_call
        | apply run_print_format | apply run_deepcopy
        | apply run_Module_type | apply run_Module_apply_reset | apply run_Sequential
        | apply run_new_optimizer | apply run_manual_seed ].

Ltac run_ok :=
  repeat match goal with
         | H : shape _ (Ok _) _ |- _ => cbn [shape] in H; subst
         | H : forall a, Ok ?x = Ok a -> _ |- _ => specialize (H x eq_refl)
         end.

Lemma run_cell11 :
  run_spec (cell11 fw)
    (fun n r tr n' =>
       own_seg tr /\
       forall a, r = Ok a ->
         n' = n + 2 /\ history tr = [EvInit n] /\ fst (fst a) = n).
Proof.
  unfold cell11. eapply run_weaken; [run_prog|].
  intros n r tr n' H. run_inv; (split; [own_tac|]); try discriminate.
  intros a [= <-]. cbn. repeat split; lia.
Qed.

Lemma run_cell14 simple_model :
  run_spec (cell14 fw simple_model)
    (fun n r tr n' =>
       own_seg tr /\
       forall a, r = Ok a ->
         n' = n + 2 /\ history tr = [EvInit n] /\
         fst (fst (fst a)) = n /\ snd (fst (fst a)) = n).
Proof.
  unfold cell14. eapply run_weaken; [run_prog|].
  intros n r tr n' H. run_inv; (split; [own_tac|]); try discriminate.
  intros a [= <-]. cbn. repeat split; lia.
Qed.

Lemma run_cell16 fixed_model :
  run_spec (cell16 fw fixed_model)
    (fun n r tr n' =>
       own_seg tr /\ forall a, r = Ok a -> n' = n /\ history tr = []).
Proof.
  unfold cell16. eapply run_weaken; [run_prog|].
  intros n r tr n' H. run_inv; (split; [own_tac|]); try discriminate.
  intros a [= <-]. cbn. auto.
Qed.

Lemma run_cell19 fixed_model_base x :
  run_spec (cell19 fw fixed_model_base x)
    (fun n r tr n' =>
       own_seg tr /\
       forall a, r = Ok a ->
         n' = n + 1 /\ history tr = [EvCopy fixed_model_base n] /\ fst a = n).
Proof.
  unfold cell19. eapply run_weaken; [run_prog|].
  intros n r tr n' H. run_inv; (split; [own_tac|]); try discriminate.
  intros a [= <-]. cbn. repeat split; lia.
Qed.

Lemma run_cell_timeit loops m x_var :
  run_spec (cell_timeit fw loops m x_var)
    (fun n r tr n' =>
       own_seg tr /\ forall a, r = Ok a -> n' = n /\ history tr = []).
Proof.
  unfold cell_timeit. induction loops as [|loops IH].
  - eapply run_weaken; [apply run_ret|].
    intros n r tr n' (-> & -> & ->). split; [own_tac | auto].
  - cbn [timeit]. eapply run_weaken.
    { eapply run_bind; [apply run_Module_call | intros ?; apply IH]. }
    intros n r tr n' H. run_inv; (split; [own_tac|]); try discriminate.
    intros a ->. run_ok.
    match goal with H : _ /\ _ |- _ => destruct H as [-> Hh] end.
    split; [reflexivity|].
    change (EvForward ?a ?b :: ?l) with ([EvForward a b] ++ l).
    now rewrite history_app, Hh.
Qed.

Lemma run_cell26 fixed_model_gpu :
  run_spec (cell26 fw fixed_model_gpu)
    (fun n r tr n' =>
       own_seg tr /\
       forall a, r = Ok a ->
         n' = n + 1 /\ history tr = [] /\
         opt_id (snd a) = n /\ opt_target (snd a) = fixed_model_gpu).
Proof.
  unfold cell26. eapply run_weaken; [run_prog|].
  intros n r tr n' H. run_inv; (split; [own_tac|]); try discriminate.
  intros a [= <-]. cbn. repeat split; lia.
Qed.

Lemma run_cell31 fixed_model_gpu loss_fn o :
  run_spec (cell31 fw train_data test_data fixed_model_gpu loss_fn o)
    (fun n r tr n' =>
       (opt_target o = fixed_model_gpu -> own_seg tr) /\
       forall a, r = Ok a ->
         n' = n /\
         history tr = EvInit fixed_model_gpu
                        :: replicate num_batches (EvStep (opt_id o) (opt_target o))).
Proof.
  unfold cell31. eapply run_weaken; [run_prog|].
  intros n r tr n' H. run_inv; (split; [intros Ht; own_tac; auto|]); try discriminate.
  intros a ->. run_ok. split; [reflexivity|].
  change (EvInit ?m :: ?l) with ([EvInit m] ++ l).
  repeat match goal with H : history _ = _ |- _ => revert H end.
  intros Hh1 Hh2. rewrite !history_app, Hh1, Hh2.
  change (history [EvInit fixed_model_gpu]) with [EvInit fixed_model_gpu].
  rewrite app_nil_r. reflexivity.
Qed.

Lemma run_cell35 :
  run_spec (cell35 fw train_data test_data)
    (fun n r tr n' =>
       own_seg tr /\
       forall a, r = Ok a ->
         n' = n + 2 /\ a = n /\
         history tr = EvInit n :: replicate num_batches (EvStep (S n) n)).
Proof.
  unfold cell35. eapply run_weaken; [run_prog|].
  intros n r tr n' H. run_inv; (split; [own_tac; auto|]); try discriminate.
  intros a [= <-]. run_ok. split; [lia|]. split; [reflexivity|].
  change (EvInit ?m :: ?l) with ([EvInit m] ++ l).
  repeat match goal with H : history _ = _ |- _ => revert H end.
  intros Hh1 Hh2. rewrite !history_app, Hh1, Hh2. cbn [opt_id opt_target parameters].
  rewrite !app_nil_r. reflexivity.
Qed.

Lemma run_cell39 model :
  run_spec (cell39 fw train_data test_data model)
    (fun n r tr n' =>
       own_seg tr /\ forall a, r = Ok a -> n' = n /\ history tr = []).
Proof.
  unfold cell39. eapply run_weaken; [apply run_check_accuracy_quiet|].
  intros n r tr n' (-> & Ho & Hh). split; [exact Ho|]. intros a E. split; eauto.
Qed.

(** *** The notebook *)

Lemma so_far_fail {A B} w w1 tr hist k (m : M fw A) Q e w'
    (X : list Event -> B -> Prop) :
  so_far w w1 tr hist k ->
  run_spec m Q -> m w1 = (Raise e, w') ->
  (forall n tr' n', Q n (Raise e) tr' n' -> own_seg tr') ->
  exists tr', trace w' = trace w ++ tr' /\ own_seg tr' /\
              forall a : B, Raise e = Ok a -> X tr' a.
Proof.
  intros [Ht Ho _ _] Hm Hrun HQ. destruct (Hm _ _ _ Hrun) as (tr' & Htr' & Hq).
  exists (tr ++ tr'). split; [now rewrite Htr', Ht, app_assoc|].
  split; [apply own_seg_app; eauto | discriminate].
Qed.

Lemma so_far_step {A} w w1 tr hist k (m : M fw A) Q a w2 :
  so_far w w1 tr hist k ->
  run_spec m Q -> m w1 = (Ok a, w2) ->
  exists tr', trace w2 = trace w1 ++ tr' /\ Q (next_id w + k) (Ok a) tr' (next_id w2).
Proof.
  intros [_ _ _ Hn] Hm Hrun. destruct (Hm _ _ _ Hrun) as (tr' & Htr' & Hq).
  exists tr'. split; [exact Htr'|]. now rewrite <- Hn.
Qed.

Lemma so_far_extend w w1 w2 tr hist k tr' hist' k' :
  so_far w w1 tr hist k ->
  trace w2 = trace w1 ++ tr' -> own_seg tr' -> history tr' = hist' ->
  next_id w2 = next_id w + k + k' ->
  so_far w w2 (tr ++ tr') (hist ++ hist') (k + k').
Proof.
  intros [Ht Ho Hh Hn] Ht' Ho' Hh' Hn'. constructor.
  - now rewrite Ht', Ht, app_assoc.
  - now apply own_seg_app.
  - now rewrite history_app, Hh, Hh'.
  - lia.
Qed.

Lemma run_notebook loops_cpu loops_gpu :
  run_spec (notebook' loops_cpu loops_gpu)
    (fun n r tr n' =>
       own_seg tr /\ forall a, r = Ok a -> history tr = notebook_history n).
Proof.
  intros w r w' H. unfold notebook in H.
  assert (S0 : so_far w w [] [] 0).
  { constructor; [now rewrite app_nil_r | apply own_seg_nil | reflexivity | lia]. }
  (* cell 11 *)
  apply bind_inv in H as [(c11 & w1 & Hc & H) | (e & H & ->)];
    [|eapply so_far_fail; [exact S0 | apply run_cell11 | exact H | intros ? ? ? [Ho _]; exact Ho]].
  destruct (so_far_step _ _ _ _ _ _ _ _ _ S0 run_cell11 Hc) as (t1 & Ht1 & Ho1 & Hk1).
  destruct (Hk1 _ eq_refl) as (Hn1 & Hh1 & Hv1). destruct c11 as [[simple_model lf1] o1].
  cbn [fst] in Hv1. subst simple_model.
  pose proof (so_far_extend _ _ _ _ _ _ _ _ 2 S0 Ht1 Ho1 Hh1 ltac:(lia)) as S1.
  clear S0 Hc Ht1 Ho1 Hk1 Hn1 Hh1.
  (* cell 14 *)
  apply bind_inv in H as [(c14 & w2 & Hc & H) | (e & H & ->)];
    [|eapply so_far_fail; [exact S1 | apply run_cell14 | exact H | intros ? ? ? [Ho _]; exact Ho]].
  destruct (so_far_step _ _ _ _ _ _ _ _ _ S1 (run_cell14 _) Hc) as (t2 & Ht2 & Ho2 & Hk2).
  destruct (Hk2 _ eq_refl) as (Hn2 & Hh2 & Hv2 & Hv2').
  destruct c14 as [[[fixed_model_base fixed_model] lf2] o2].
  cbn [fst snd] in Hv2, Hv2'. subst fixed_model_base fixed_model.
  pose proof (so_far_extend _ _ _ _ _ _ _ _ 2 S1 Ht2 Ho2 Hh2 ltac:(lia)) as S2.
  clear S1 Hc Ht2 Ho2 Hk2 Hn2 Hh2.
  (* cell 16 *)
  apply bind_inv in H as [(c16 & w3 & Hc & H) | (e & H & ->)];
    [|eapply so_far_fail; [exact S2 | apply run_cell16 | exact H | intros ? ? ? [Ho _]; exact Ho]].
  destruct (so_far_step _ _ _ _ _ _ _ _ _ S2 (run_cell16 _) Hc) as (t3 & Ht3 & Ho3 & Hk3).
  destruct (Hk3 _ eq_refl) as (Hn3 & Hh3). destruct c16 as [x x_var].
  pose proof (so_far_extend _ _ _ _ _ _ _ _ 0 S2 Ht3 Ho3 Hh3 ltac:(lia)) as S3.
  clear S2 Hc Ht3 Ho3 Hk3 Hn3 Hh3.
  (* cell 19 *)
  apply bind_inv in H as [(c19 & w4 & Hc & H) | (e & H & ->)];
    [|eapply so_far_fail; [exact S3 | apply run_cell19 | exact H | intros ? ? ? [Ho _]; exact Ho]].
  destruct (so_far_step _ _ _ _ _ _ _ _ _ S3 (run_cell19 _ _) Hc) as (t4 & Ht4 & Ho4 & Hk4).
  destruct (Hk4 _ eq_refl) as (Hn4 & Hh4 & Hv4). destruct c19 as [fixed_model_gpu x_var_gpu].
  cbn [fst] in Hv4. subst fixed_model_gpu.
  pose proof (so_far_extend _ _ _ _ _ _ _ _ 1 S3 Ht4 Ho4 Hh4 ltac:(lia)) as S4.
  clear S3 Hc Ht4 Ho4 Hk4 Hn4 Hh4.
  (* cells 21 and 23 *)
  apply bind_inv in H as [(u & w5 & Hc & H) | (e & H & ->)];
    [|eapply so_far_fail; [exact S4 | apply run_cell_timeit | exact H | intros ? ? ? [Ho _]; exact Ho]].
  destruct (so_far_step _ _ _ _ _ _ _ _ _ S4 (run_cell_timeit _ _ _) Hc) as (t5 & Ht5 & Ho5 & Hk5).
  destruct (Hk5 _ eq_refl) as (Hn5 & Hh5).
  pose proof (so_far_extend _ _ _ _ _ _ _ _ 0 S4 Ht5 Ho5 Hh5 ltac:(lia)) as S5.
  clear S4 Hc Ht5 Ho5 Hk5 Hn5 Hh5 u.
  apply bind_inv in H as [(u & w6 & Hc & H) | (e & H & ->)];
    [|eapply so_far_fail; [exact S5 | apply run_cell_timeit | exact H | intros ? ? ? [Ho _]; exact Ho]].
  destruct (so_far_step _ _ _ _ _ _ _ _ _ S5 (run_cell_timeit _ _ _) Hc) as (t6 & Ht6 & Ho6 & Hk6).
  destruct (Hk6 _ eq_refl) as (Hn6 & Hh6).
  pose proof (so_far_extend _ _ _ _ _ _ _ _ 0 S5 Ht6 Ho6 Hh6 ltac:(lia)) as S6.
  clear S5 Hc Ht6 Ho6 Hk6 Hn6 Hh6 u.
  (* cell 26 *)
  apply bind_inv in H as [(c26 & w7 & Hc & H) | (e & H & ->)];
    [|eapply so_far_fail; [exact S6 | apply run_cell26 | exact H | intros ? ? ? [Ho _]; exact Ho]].
  destruct (so_far_step _ _ _ _ _ _ _ _ _ S6 (run_cell26 _) Hc) as (t7 & Ht7 & Ho7 & Hk7).
  destruct (Hk7 _ eq_refl) as (Hn7 & Hh7 & Hid & Htg). destruct c26 as [loss_fn optimizer].
  cbn [snd] in Hid, Htg.
  pose proof (so_far_extend _ _ _ _ _ _ _ _ 1 S6 Ht7 Ho7 Hh7 ltac:(lia)) as S7.
  clear S6 Hc Ht7 Ho7 Hk7 Hn7 Hh7.
  (* cell 27 *)
  apply bind_inv in H as [(u & w8 & Hc & H) | (e & H & ->)];
    [|eapply so_far_fail; [exact S7 | apply run_cell27 | exact H
                          | intros ? ? ? (_ & Ho & _); exact (Ho Htg)]].
  destruct (so_far_step _ _ _ _ _ _ _ _ _ S7 (run_cell27 _ _ _) Hc) as (t8 & Ht8 & Hn8 & Ho8 & Hh8).
  specialize (Ho8 Htg). specialize (Hh8 _ eq_refl).
  pose proof (so_far_extend _ _ _ _ _ _ _ _ 0 S7 Ht8 Ho8 Hh8 ltac:(lia)) as S8.
  clear S7 Hc Ht8 Ho8 Hn8 Hh8 u.
  (* cell 31 *)
  apply bind_inv in H as [(u & w9 & Hc & H) | (e & H & ->)];
    [|eapply so_far_fail; [exact S8 | apply run_cell31 | exact H
                          | intros ? ? ? (Ho & _); exact (Ho Htg)]].
  destruct (so_far_step _ _ _ _ _ _ _ _ _ S8 (run_cell31 _ _ _) Hc) as (t9 & Ht9 & Ho9 & Hk9).
  specialize (Ho9 Htg). destruct (Hk9 _ eq_refl) as (Hn9 & Hh9).
  pose proof (so_far_extend _ _ _ _ _ _ _ _ 0 S8 Ht9 Ho9 Hh9 ltac:(lia)) as S9.
  clear S8 Hc Ht9 Ho9 Hk9 Hn9 Hh9 u.
  (* cell 35 *)
  apply bind_inv in H as [(model & w10 & Hc & H) | (e & H & ->)];
    [|eapply so_far_fail; [exact S9 | apply run_cell35 | exact H | intros ? ? ? [Ho _]; exact Ho]].
  destruct (so_far_step _ _ _ _ _ _ _ _ _ S9 run_cell35 Hc) as (t10 & Ht10 & Ho10 & Hk10).
  destruct (Hk10 _ eq_refl) as (Hn10 & Hv10 & Hh10). subst model.
  pose proof (so_far_extend _ _ _ _ _ _ _ _ 2 S9 Ht10 Ho10 Hh10 ltac:(lia)) as S10.
  clear S9 Hc Ht10 Ho10 Hk10 Hn10 Hh10.
  (* cell 39 *)
  destruct (run_cell39 _ _ _ _ H) as (t11 & Ht11 & Ho11 & Hk11).
  destruct S10 as [St So Sh Sn].
  eexists. split; [rewrite Ht11, St, <- app_assoc; reflexivity|].
  split; [now apply own_seg_app|].
  intros a ->. destruct (Hk11 _ eq_refl) as (_ & Hh11).
  rewrite history_app, Sh, Hh11, Hid, Htg. unfold notebook_history.
  replace (next_id w + (0 + 2 + 2 + 0 + 1 + 0 + 0 + 1 + 0 + 0)) with (next_id w + 6) by lia.
  replace (next_id w + (0 + 2 + 2 + 0 + 1 + 0 + 0)) with (next_id w + 5) by lia.
  replace (next_id w + (0 + 2 + 2 + 0)) with (next_id w + 4) by lia.
  replace (next_id w + (0 + 2)) with (next_id w + 2) by lia.
  rewrite Nat.add_0_r, !app_nil_r, !app_nil_l, <- !app_assoc.
  replace (S (next_id w + 6)) with (next_id w + 7) by lia.
  generalize (replicate num_batches (EvStep (next_id w + 5) (next_id w + 4))).
  generalize (replicate num_batches (EvStep (next_id w + 7) (next_id w + 6))).
  intros l1 l2. reflexivity.
Qed.

Lemma Optimizer_step_frame (o : Optimizer) w m :
  m <> opt_target o ->
  modules (snd (Optimizer_step fw o w)) !! m = modules w !! m.
Proof.
  intros Hm. unfold Optimizer_step, bind, get_module.
  destruct (modules w !! opt_target o) as [md|]; [|reflexivity].
  destruct (grad md) as [g|]; [|reflexivity].
  destruct (fw_step fw (opt_kind o) (opt_states w !! opt_id o) (params md) g)
    as [[st p]|e]; [|reflexivity].
  cbn. now apply lookup_insert_ne.
Qed.

Lemma init_after_step_history stepped tr :
  init_after_step stepped (history tr) = init_after_step stepped tr.
Proof.
  revert stepped. induction tr as [|ev tr IH]; intros stepped; [reflexivity|].
  destruct ev; cbn [history List.filter is_mutation init_after_step];
    try apply IH; fold (history tr); now rewrite IH.
Qed.

(** A run of the whole notebook that returns initialises parameters that
    optimizer steps have updated. *)
Lemma notebook_run_reinitializes loops_cpu loops_gpu :
  fst (notebook' loops_cpu loops_gpu (empty_world fw)) = Ok tt ->
  init_after_step []
    (trace (snd (notebook' loops_cpu loops_gpu (empty_world fw)))) = true.
Proof.
  intros Hok.
  destruct (run_spec_at _ _ (empty_world fw) (run_notebook loops_cpu loops_gpu))
    as (tr & Htr & _ & Hh).
  cbn [empty_world trace app] in Htr. rewrite Htr.
  rewrite <- init_after_step_history, (Hh tt Hok).
  vm_compute. reflexivity.
Qed.

(** C6, amended.  In every configuration in which the notebook trains a
    model (cell 27, and the calls of train in cells 31 and 35) the optimizer
    was constructed over the parameters of that same model: every optimizer
    step of a run of the notebook updates the parameters of the module whose
    gradients the backward pass before it computed, a step changes no other
    module, and train with an optimizer over the parameters of its model
    only ever steps that model.  The parameters of simple_model,
    fixed_model_base and model are initialised when they are constructed;
    those of fixed_model_gpu start as a copy of fixed_model_base's, are
    updated by the steps of cell 27, initialised again by apply(reset) and
    then updated by the steps of train. *)
Theorem optimizer_steps_trained_model loops_cpu loops_gpu :
  steps_own None (trace (snd (notebook' loops_cpu loops_gpu (empty_world fw)))) = true /\
  (fst (notebook' loops_cpu loops_gpu (empty_world fw)) = Ok tt ->
   history (trace (snd (notebook' loops_cpu loops_gpu (empty_world fw))))
   = [EvInit 0; EvInit 2; EvCopy 2 4]
     ++ replicate 766 (EvStep 5 4)
     ++ [EvInit 4]
     ++ replicate 766 (EvStep 5 4)
     ++ [EvInit 6]
     ++ replicate 766 (EvStep 7 6)) /\
  (forall (o : Optimizer) w m,
      m <> opt_target o ->
      modules (snd (Optimizer_step fw o w)) !! m = modules w !! m) /\
  (forall model loss_fn o num_epochs w,
      opt_target o = parameters model ->
      exists tr,
        trace (snd (train' model loss_fn o num_epochs w)) = trace w ++ tr /\
        forall last, steps_own last tr = true).
Proof.
  destruct (run_spec_at _ _ (empty_world fw) (run_notebook loops_cpu loops_gpu))
    as (tr & Htr & Hown & Hh).
  cbn [empty_world trace app] in Htr. split; [|split; [|split]].
  - rewrite Htr. apply Hown.
  - intros Hok. rewrite Htr. rewrite (Hh tt Hok). reflexivity.
  - intros o w m. apply Optimizer_step_frame.
  - intros model loss_fn o num_epochs w Ht.
    destruct (run_spec_at _ _ w (run_train model loss_fn o num_epochs))
      as (tr' & Htr' & _ & outss & _ & Hs).
    exists tr'. split; [exact Htr'|]. unfold parameters in Ht. rewrite Ht in Hs.
    eapply shape_own; [|exact Hs]. apply own_seg_train_events.
Qed.

End Runs.

(** ** The theorems at work on the small framework *)




Lemma optimizer_steps_trained_model_witness :
  opt_target toy_optimizer = parameters 0 /\
  exists tr,
    trace (snd (train (toy (-1)) (toy_data (-1) 50000) (toy_data (-1) 10000)
                      0 (CrossEntropyLoss (toy (-1))) toy_optimizer 1 toy_world))
      = trace toy_world ++ tr /\
    forall last, steps_own last tr = true.
Proof.
  split; [reflexivity|].
  exact (proj2 (proj2 (proj2
           (optimizer_steps_trained_model (toy (-1)) (toy_data (-1) 50000)
              (toy_data (-1) 10000) 0 0)))
           0 (CrossEntropyLoss (toy (-1))) toy_optimizer 1%Z toy_world eq_refl).
Defined.

(** C6 as stated fails: in a run of the notebook the parameters of
    fixed_model_gpu are initialised again, by apply(reset) in cell 31, after
    the optimizer steps of cell 27 have updated them. *)
Lemma notebook_reinitializes :
  ~ initialized_once
      (trace (snd (notebook (toy (-1)) (toy_data (-1) 50000) (toy_data (-1) 10000)
                            0 0 (empty_world (toy (-1)))))).
Proof.
  unfold initialized_once. rewrite notebook_run_reinitializes; [discriminate|].
  vm_compute. reflexivity.
Qed.

(** The lines of a call on the small framework: 14 of 130 is 10.77 per cent. *)
Example check_accuracy_prints :
  prints (trace (snd (check_accuracy (toy (-1)) 0 toy_loader toy_world)))
  = ["Checking accuracy on test set"; "Got 14 / 130 correct (10.77)"]%string.
Proof. vm_compute. reflexivity. Qed.

(** A forward pass that raises in the second batch: check_accuracy ends with
    that exception, after the first batch and the fetch of the second. *)
Example check_accuracy_raises :
  fst (check_accuracy (toy 70) 0 failing_loader
         (snd (Sequential (toy 70) simple_model_layers (empty_world (toy 70)))))
  = Raise (RuntimeError "size mismatch") /\
  steps (trace (snd (check_accuracy (toy 70) 0 failing_loader
         (snd (Sequential (toy 70) simple_model_layers (empty_world (toy 70)))))))
  = [SFetch (count_from 0 64); SForward 0; SFetch (count_from 64 64)] /\
  raises (trace (snd (check_accuracy (toy 70) 0 failing_loader
         (snd (Sequential (toy 70) simple_model_layers (empty_world (toy 70)))))))
  = [RuntimeError "size mismatch"].
Proof. vm_compute. auto. Qed.

(** ** What [train] and [check_accuracy] write *)

Section Frames.

Context (fw : Framework) (train_data test_data : Examples fw).
Implicit Types (w : World fw) (fp : Footprint).

Lemma fp_le_refl fp : fp_le fp fp.
Proof. repeat split; auto. Qed.

Lemma module_kept_refl fp m (a : Module fw) : module_kept fp m a a.
Proof. repeat split. Qed.

Lemma module_kept_trans fp m (a b c : Module fw) :
  module_kept fp m a b -> module_kept fp m b c -> module_kept fp m a c.
Proof.
  intros (H1 & H2 & H3 & H4 & H5) (K1 & K2 & K3 & K4 & K5).
  split; [congruence|]. split; [intros Hn; rewrite K2, H2 by exact Hn; reflexivity|].
  split; [intros Hn; rewrite K3, H3 by exact Hn; reflexivity|].
  split; [intros Hn; rewrite K4, H4 by exact Hn; reflexivity|].
  intros Hn; rewrite K5, H5 by exact Hn; reflexivity.
Qed.

Lemma module_kept_mono fp fp' m (a b : Module fw) :
  fp_le fp fp' -> module_kept fp m a b -> module_kept fp' m a b.
Proof.
  intros (L1 & L2 & L3 & L4 & L5) (H1 & H2 & H3 & H4 & H5).
  repeat split; auto.
Qed.

Lemma changes_only_refl fp w : changes_only fp w w.
Proof.
  repeat split. intros m. destruct (modules w !! m); [apply module_kept_refl | exact I].
Qed.

Lemma changes_only_trans fp w1 w2 w3 :
  changes_only fp w1 w2 -> changes_only fp w2 w3 -> changes_only fp w1 w3.
Proof.
  intros (H1 & H2 & H3 & H4) (K1 & K2 & K3 & K4).
  split; [congruence|]. split; [congruence|]. split.
  - intros o Ho. rewrite K3, H3 by exact Ho. reflexivity.
  - intros m. specialize (H4 m). specialize (K4 m).
    destruct (modules w1 !! m), (modules w2 !! m), (modules w3 !! m);
      try contradiction; try exact I.
    eapply module_kept_trans; eassumption.
Qed.

Lemma changes_only_mono fp fp' w w' :
  fp_le fp fp' -> changes_only fp w w' -> changes_only fp' w w'.
Proof.
  intros Hle (H1 & H2 & H3 & H4). split; [exact H1|]. split; [exact H2|]. split.
  - intros o Ho. apply H3. intros Hf. apply Ho. now apply Hle.
  - intros m. specialize (H4 m).
    destruct (modules w !! m), (modules w' !! m); try contradiction; try exact I.
    now apply (module_kept_mono fp fp').
Qed.

(** A world that differs in its trace alone. *)
Lemma changes_only_same fp w w' :
  modules w' = modules w -> opt_states w' = opt_states w ->
  next_id w' = next_id w -> rng w' = rng w -> changes_only fp w w'.
Proof.
  intros Hm Ho Hn Hr. split; [exact Hn|]. split; [exact Hr|]. split.
  - intros o _. now rewrite Ho.
  - intros m. rewrite Hm. destruct (modules w !! m); [apply module_kept_refl | exact I].
Qed.

(** A world in which one module was written. *)
Lemma changes_only_put fp w w' m (md md' : Module fw) :
  modules w !! m = Some md -> module_kept fp m md md' ->
  modules w' = <[m := md']> (modules w) -> opt_states w' = opt_states w ->
  next_id w' = next_id w -> rng w' = rng w -> changes_only fp w w'.
Proof.
  intros E Hk Hm Ho Hn Hr. split; [exact Hn|]. split; [exact Hr|]. split.
  - intros o _. now rewrite Ho.
  - intros m'. rewrite Hm. destruct (decide (m' = m)) as [->|Hne].
    + rewrite lookup_insert_eq, E. exact Hk.
    + rewrite lookup_insert_ne by congruence.
      destruct (modules w !! m'); [apply module_kept_refl | exact I].
Qed.

(** A world in which one module and the state of one optimizer were
    written. *)
Lemma changes_only_put_opt fp w w' m (md md' : Module fw) o st :
  modules w !! m = Some md -> module_kept fp m md md' -> fp_opt fp o ->
  modules w' = <[m := md']> (modules w) -> opt_states w' = <[o := st]> (opt_states w) ->
  next_id w' = next_id w -> rng w' = rng w -> changes_only fp w w'.
Proof.
  intros E Hk Hfo Hm Ho Hn Hr. split; [exact Hn|]. split; [exact Hr|]. split.
  - intros o' Ho'. rewrite Ho. apply lookup_insert_ne. intros ->. now apply Ho'.
  - intros m'. rewrite Hm. destruct (decide (m' = m)) as [->|Hne].
    + rewrite lookup_insert_eq, E. exact Hk.
    + rewrite lookup_insert_ne by congruence.
      destruct (modules w !! m'); [apply module_kept_refl | exact I].
Qed.

Lemma writes_weaken {A} fp fp' (m : M fw A) (P Q : A -> Prop) :
  writes fp m P -> fp_le fp fp' -> (forall a, P a -> Q a) -> writes fp' m Q.
Proof.
  intros Hm Hle HPQ w r w' H. destruct (Hm w r w' H) as [Hc HP].
  split; [now apply (changes_only_mono fp fp') | auto].
Qed.

Lemma writes_ret {A} fp (a : A) : writes (fw := fw) fp (ret a) (eq a).
Proof. intros w r w' H. injection H as <- <-. split; [apply changes_only_refl|]. congruence. Qed.

Lemma writes_bind {A B} fp (m : M fw A) (k : A -> M fw B) (P : A -> Prop) (Q : B -> Prop) :
  writes fp m P -> (forall a, P a -> writes fp (k a) Q) -> writes fp (bind m k) Q.
Proof.
  intros Hm Hk w r w' H. apply bind_inv in H as [(a & w1 & H1 & H2)|(e & H1 & ->)].
  - destruct (Hm _ _ _ H1) as [Hc1 HP]. destruct (Hk a (HP a eq_refl) _ _ _ H2) as [Hc2 HQ].
    split; [eapply changes_only_trans; eassumption | exact HQ].
  - destruct (Hm _ _ _ H1) as [Hc1 _]. split; [exact Hc1 | discriminate].
Qed.

Lemma writes_lift {A} fp (x : result A) : writes (fw := fw) fp (lift x) (fun a => x = Ok a).
Proof.
  intros w r w' H. unfold lift in H. destruct x as [a|e]; injection H as <- <-.
  - split; [apply changes_only_refl | auto].
  - split; [now apply changes_only_same | discriminate].
Qed.

Lemma writes_emit fp ev : writes fp (emit fw ev) any.
Proof.
  intros w r w' H. injection H as <- <-. split; [now apply changes_only_same | exact (fun _ _ => I)].
Qed.

Lemma writes_any {A} fp (m : M fw A) (P : A -> Prop) : writes fp m P -> writes fp m any.
Proof. intros H. eapply writes_weaken; [exact H | apply fp_le_refl | exact (fun _ _ => I)]. Qed.

Lemma writes_Tensor_type {A} fp dt (t : A) : writes fp (Tensor_type fw dt t) (eq t).
Proof.
  unfold Tensor_type. eapply writes_bind; [apply writes_lift|]. intros _ _. apply writes_ret.
Qed.

Lemma writes_print_format fp fmt args : writes fp (print_format fw fmt args) any.
Proof.
  unfold print_format. eapply writes_bind; [apply writes_lift|]. intros line _.
  apply writes_emit.
Qed.

Lemma writes_DataLoader_fetch fp (loader : DataLoader fw) idxs :
  writes fp (DataLoader_fetch fw loader idxs) any.
Proof.
  unfold DataLoader_fetch. eapply writes_bind; [apply writes_emit|]. intros _ _.
  eapply writes_any. apply writes_lift.
Qed.

(** Taking apart a statement that reads a module first. *)
Ltac read_module H m md E :=
  unfold bind at 1, get_module in H;
  destruct (modules _ !! m) as [md|] eqn:E;
  [ | unfold lift in H; injection H as <- <-;
      split; [now apply changes_only_same | discriminate] ].

Ltac kept :=
  repeat split; cbn [layers training params buffers grad]; intros Hn;
  first [ reflexivity | congruence | exfalso; apply Hn; cbn; auto ].

Lemma writes_Module_set_mode fp m mode :
  fp_mode fp m -> writes fp (Module_set_mode fw m mode) any.
Proof.
  intros Hfp w r w' H. unfold Module_set_mode in H. read_module H m md E.
  injection H as <- <-. split; [|exact (fun _ _ => I)].
  eapply changes_only_put; [exact E | | reflexivity..]. kept.
Qed.

Lemma writes_Module_call fp m x :
  fp_buffers fp m ->
  writes fp (Module_call fw m x) (fun sc => scores_module fw sc = m).
Proof.
  intros Hfp w r w' H. unfold Module_call in H. read_module H m md E.
  unfold bind, lift in H.
  destruct (fw_forward fw (layers md) (training md) (params md) (buffers md) x)
    as [out|e]; injection H as <- <-.
  - split; [|intros a Ha; now injection Ha as <-].
    eapply changes_only_put; [exact E | | reflexivity..]. kept.
  - split; [now apply changes_only_same | discriminate].
Qed.

Lemma writes_loss_call fp loss_fn sc y :
  writes fp (loss_call fw loss_fn sc y)
         (fun l => loss_module fw l = scores_module fw sc).
Proof.
  intros w r w' H. unfold loss_call, bind, lift in H.
  destruct (loss_fn (scores_data fw sc) y) as [l|e]; injection H as <- <-.
  - split; [now apply changes_only_same | intros a Ha; now injection Ha as <-].
  - split; [now apply changes_only_same | discriminate].
Qed.

Lemma writes_Optimizer_zero_grad fp o :
  fp_grad fp (opt_target o) -> writes fp (Optimizer_zero_grad fw o) any.
Proof.
  intros Hfp w r w' H. unfold Optimizer_zero_grad in H. read_module H (opt_target o) md E.
  injection H as <- <-. split; [|exact (fun _ _ => I)].
  eapply changes_only_put; [exact E | | reflexivity..]. kept.
Qed.

Lemma writes_Loss_backward fp l :
  fp_grad fp (loss_module fw l) -> writes fp (Loss_backward fw l) any.
Proof.
  intros Hfp w r w' H. unfold Loss_backward in H. read_module H (loss_module fw l) md E.
  unfold bind, lift in H.
  destruct (fw_backward fw (layers md) (params md) (loss_input fw l) (loss_target fw l)
                        (grad md)) as [g|e]; injection H as <- <-.
  - split; [|exact (fun _ _ => I)].
    eapply changes_only_put; [exact E | | reflexivity..]. kept.
  - split; [now apply changes_only_same | discriminate].
Qed.

Lemma writes_Optimizer_step fp o :
  fp_params fp (opt_target o) -> fp_opt fp (opt_id o) ->
  writes fp (Optimizer_step fw o) any.
Proof.
  intros Hfp Hfo w r w' H. unfold Optimizer_step in H. read_module H (opt_target o) md E.
  destruct (grad md) as [g|] eqn:Eg.
  - destruct (fw_step fw (opt_kind o) (opt_states w !! opt_id o) (params md) g)
      as [[st p]|e].
    + injection H as <- <-. split; [|exact (fun _ _ => I)].
      eapply (changes_only_put_opt fp w _ (opt_target o) md _ (opt_id o) st);
        [exact E | | exact Hfo | reflexivity..]. kept.
    + apply (writes_lift fp (Raise e)) in H as [H _]. split; [exact H | exact (fun _ _ => I)].
  - apply (writes_emit fp) in H. exact H.
Qed.

Lemma writes_for_enumerate {A} fp t (xs : list A) (body : nat -> A -> M fw unit) :
  (forall t x, writes fp (body t x) any) -> writes fp (for_enumerate fw t xs body) any.
Proof.
  intros Hb. revert t. induction xs as [|x xs IH]; intros t; cbn [for_enumerate].
  - eapply writes_any. apply writes_ret.
  - eapply writes_bind; [apply Hb|]. intros _ _. apply IH.
Qed.

Lemma writes_for_fold {A S} fp (xs : list A) (s : S) (body : S -> A -> M fw S) :
  (forall s x, writes fp (body s x) any) -> writes fp (for_fold fw xs s body) any.
Proof.
  intros Hb. revert s. induction xs as [|x xs IH]; intros s; cbn [for_fold].
  - eapply writes_any. apply writes_ret.
  - eapply writes_bind; [apply Hb|]. intros s' _. apply IH.
Qed.

Lemma writes_train_step model loss_fn o t batch :
  writes (train_step_writes model o) (train_step fw model loss_fn o t batch) any.
Proof.
  unfold train_step.
  eapply writes_bind; [apply writes_Tensor_type|]. intros x_var _.
  eapply writes_bind; [apply writes_Tensor_type|]. intros y_var _.
  eapply writes_bind; [apply writes_Module_call; reflexivity|]. intros scores Hs.
  eapply writes_bind; [apply writes_loss_call|]. intros loss Hl.
  eapply writes_bind.
  { instantiate (1 := any).
    destruct ((Z.of_nat t + 1) mod print_every =? 0)%Z;
      [apply writes_print_format | eapply writes_any; apply writes_ret]. }
  intros _ _.
  eapply writes_bind; [apply writes_Optimizer_zero_grad; cbn; auto|]. intros _ _.
  eapply writes_bind; [apply writes_Loss_backward; cbn; left; congruence|]. intros _ _.
  apply writes_Optimizer_step; reflexivity.
Qed.

Lemma train_step_writes_le model o : fp_le (train_step_writes model o) (train_writes model o).
Proof. repeat split; cbn; unfold nothing; intros; auto; contradiction. Qed.

Lemma writes_train_loop model loss_fn o (loader : DataLoader fw) :
  writes (train_step_writes model o)
         (for_loader fw loader (train_step fw model loss_fn o)) any.
Proof.
  unfold for_loader. apply writes_for_enumerate. intros t idxs.
  eapply writes_bind; [apply writes_DataLoader_fetch|]. intros batch _.
  apply writes_train_step.
Qed.

Lemma writes_train_epoch model loss_fn o num_epochs epoch :
  writes (train_writes model o)
         (train_epoch fw train_data test_data model loss_fn o num_epochs epoch) any.
Proof.
  unfold train_epoch.
  eapply writes_bind; [apply writes_print_format|]. intros _ _.
  eapply writes_bind; [apply writes_Module_set_mode; reflexivity|]. intros _ _.
  eapply writes_weaken;
    [apply writes_train_loop | apply train_step_writes_le | auto].
Qed.

Lemma writes_train model loss_fn o num_epochs :
  writes (train_writes model o)
         (train fw train_data test_data model loss_fn o num_epochs) any.
Proof.
  unfold train, for_each. apply writes_for_enumerate. intros _ epoch.
  apply writes_train_epoch.
Qed.

Lemma writes_check_accuracy_step model counts batch :
  writes (forward_writes model) (check_accuracy_step fw model counts batch) any.
Proof.
  unfold check_accuracy_step.
  eapply writes_bind; [apply writes_Tensor_type|]. intros x_var _.
  eapply writes_bind; [apply writes_Module_call; reflexivity|]. intros scores _.
  eapply writes_bind; [apply writes_lift|]. intros m _.
  eapply writes_bind; [apply writes_lift|]. intros eqs _.
  eapply writes_any. apply writes_ret.
Qed.

Lemma writes_check_accuracy_loop model (loader : DataLoader fw) batches counts :
  writes (forward_writes model)
         (for_fold fw batches counts
            (fun counts idxs =>
               bind (DataLoader_fetch fw loader idxs)
                    (check_accuracy_step fw model counts))) any.
Proof.
  apply writes_for_fold. intros s idxs.
  eapply writes_bind; [apply writes_DataLoader_fetch|]. intros batch _.
  apply writes_check_accuracy_step.
Qed.

Lemma forward_writes_le model : fp_le (forward_writes model) (check_accuracy_writes model).
Proof. repeat split; cbn; unfold nothing; intros; auto; contradiction. Qed.

Lemma writes_check_accuracy_report fp counts : writes fp (check_accuracy_report fw counts) any.
Proof.
  unfold check_accuracy_report. eapply writes_bind; [apply writes_lift|]. intros acc _.
  apply writes_print_format.
Qed.

Lemma writes_check_accuracy model (loader : DataLoader fw) :
  writes (check_accuracy_writes model) (check_accuracy fw model loader) any.
Proof.
  unfold check_accuracy, check_accuracy_counts.
  eapply writes_bind.
  { instantiate (1 := any).
    eapply writes_bind; [apply writes_emit|]. intros _ _.
    eapply writes_bind; [apply writes_Module_set_mode; reflexivity|]. intros _ _.
    eapply writes_weaken;
      [apply writes_check_accuracy_loop | apply forward_writes_le | auto]. }
  intros counts _. apply writes_check_accuracy_report.
Qed.

Lemma changes_only_opt_states fp w w' :
  changes_only fp w w' -> (forall o, ~ fp_opt fp o) -> opt_states w' = opt_states w.
Proof. intros (_ & _ & H & _) Hn. apply map_eq. intros o. apply H, Hn. Qed.

Lemma changes_only_module fp w w' m (md : Module fw) :
  changes_only fp w w' -> modules w !! m = Some md ->
  exists md', modules w' !! m = Some md' /\ module_kept fp m md md'.
Proof.
  intros (_ & _ & _ & H) E. specialize (H m). rewrite E in H.
  destruct (modules w' !! m) as [md'|]; [eauto | contradiction].
Qed.

Lemma changes_only_module_same fp w w' m :
  changes_only fp w w' ->
  ~ fp_mode fp m -> ~ fp_params fp m -> ~ fp_buffers fp m -> ~ fp_grad fp m ->
  modules w' !! m = modules w !! m.
Proof.
  intros (_ & _ & _ & H) N1 N2 N3 N4. specialize (H m).
  destruct (modules w !! m) as [a|], (modules w' !! m) as [b|];
    try contradiction; [|reflexivity].
  destruct H as (H0 & H1 & H2 & H3 & H4). destruct a, b. cbn in *.
  rewrite H0, (H1 N1), (H2 N2), (H3 N3), (H4 N4). reflexivity.
Qed.

Lemma mode_is_kept fp w w' m b :
  changes_only fp w w' -> ~ fp_mode fp m -> mode_is m b w -> mode_is m b w'.
Proof.
  intros Hc Hn (md & E & Hb).
  destruct (changes_only_module _ _ _ _ _ Hc E) as (md' & E' & _ & Hmode & _).
  exists md'. split; [exact E'|]. now rewrite (Hmode Hn).
Qed.

Lemma Module_set_mode_sets m b w u w' :
  Module_set_mode fw m b w = (Ok u, w') -> mode_is m b w'.
Proof.
  unfold Module_set_mode, bind, get_module. destruct (modules w !! m) as [md|].
  - intros H. injection H as _ <-. eexists. split; [apply lookup_insert_eq | reflexivity].
  - discriminate.
Qed.

(** X9.  [check_accuracy], however it ends, leaves every parameter, every
    gradient and every optimizer state as it found them, creates no object
    and draws no random number; modules other than [model] are untouched, and
    of [model] only its mode and its buffers may differ. *)
Theorem check_accuracy_keeps_parameters model (loader : DataLoader fw) w :
  let w' := snd (check_accuracy fw model loader w) in
  opt_states w' = opt_states w /\ next_id w' = next_id w /\ rng w' = rng w /\
  (forall m, m <> model -> modules w' !! m = modules w !! m) /\
  (forall md, modules w !! model = Some md ->
     exists md', modules w' !! model = Some md' /\
                 layers md' = layers md /\ params md' = params md /\
                 grad md' = grad md).
Proof.
  intros w'.
  destruct (check_accuracy fw model loader w) as [r w1] eqn:E. subst w'. cbn [snd fst].
  destruct (writes_check_accuracy model loader w r w1 E) as [Hc _].
  split; [|split; [|split; [|split]]].
  - apply (changes_only_opt_states _ _ _ Hc). intros o H. exact H.
  - apply Hc.
  - apply Hc.
  - intros m Hm. apply (changes_only_module_same _ _ _ m Hc); cbn; unfold nothing; auto.
  - intros md Emd.
    destruct (changes_only_module _ _ _ _ _ Hc Emd) as (md' & E' & Hl & _ & Hp & _ & Hg).
    exists md'. split; [exact E'|]. split; [exact Hl|].
    split; [apply Hp | apply Hg]; intros H; exact H.
Qed.

(** X10.  [train], however it ends, creates no object and draws no random number,
    leaves the layers of every module, every module other than [model] and
    the module the optimizer is over, and the state of every other optimizer
    as it found them.  With an optimizer over another module's parameters it
    is that module's parameters the steps update: those of [model] stay as
    they were. *)
Theorem train_writes_only model loss_fn o num_epochs w :
  let w' := snd (train fw train_data test_data model loss_fn o num_epochs w) in
  next_id w' = next_id w /\ rng w' = rng w /\
  (forall o', o' <> opt_id o -> opt_states w' !! o' = opt_states w !! o') /\
  (forall m, m <> model -> m <> opt_target o -> modules w' !! m = modules w !! m) /\
  (forall m md, modules w !! m = Some md ->
     exists md', modules w' !! m = Some md' /\ layers md' = layers md) /\
  (opt_target o <> model ->
   forall md, modules w !! model = Some md ->
     exists md', modules w' !! model = Some md' /\ params md' = params md).
Proof.
  intros w'.
  destruct (train fw train_data test_data model loss_fn o num_epochs w) as [r w1] eqn:E.
  subst w'. cbn [snd].
  destruct (writes_train model loss_fn o num_epochs w r w1 E) as [Hc _].
  split; [apply Hc|]. split; [apply Hc|]. split; [|split; [|split]].
  - intros o' Ho'. apply Hc. cbn. congruence.
  - intros m Hm Ht. apply (changes_only_module_same _ _ _ m Hc); cbn; unfold nothing;
      try tauto; congruence.
  - intros m md Emd.
    destruct (changes_only_module _ _ _ _ _ Hc Emd) as (md' & E' & Hl & _).
    eauto.
  - intros Hne md Emd.
    destruct (changes_only_module _ _ _ _ _ Hc Emd) as (md' & E' & _ & _ & Hp & _).
    exists md'. split; [exact E'|]. apply Hp. cbn. exact Hne.
Qed.

Lemma train_epoch_mode model loss_fn o num_epochs epoch w u w' :
  train_epoch fw train_data test_data model loss_fn o num_epochs epoch w = (Ok u, w') ->
  mode_is model true w'.
Proof.
  unfold train_epoch. intros H.
  apply bind_inv in H as [(a & w1 & _ & H)|(e & _ & He)]; [|discriminate He].
  apply bind_inv in H as [(b & w2 & Hm & H)|(e & _ & He)]; [|discriminate He].
  apply Module_set_mode_sets in Hm.
  destruct (writes_train_loop model loss_fn o _ _ _ _ H) as [Hc _].
  apply (mode_is_kept _ _ _ _ _ Hc); [cbn; unfold nothing; auto | exact Hm].
Qed.

Lemma train_epochs_mode model loss_fn o num_epochs epochs t w u w' :
  for_enumerate fw t epochs
    (fun _ => train_epoch fw train_data test_data model loss_fn o num_epochs) w = (Ok u, w') ->
  epochs <> [] -> mode_is model true w'.
Proof.
  revert t w. induction epochs as [|epoch epochs IH]; intros t w H Hne; [contradiction|].
  cbn [for_enumerate] in H.
  apply bind_inv in H as [(a & w1 & H1 & H)|(e & _ & He)]; [|discriminate He].
  destruct epochs as [|epoch' epochs].
  - cbn in H. injection H as _ <-. now apply train_epoch_mode in H1.
  - apply (IH _ _ H). discriminate.
Qed.

(** X11.  The mode a call leaves the model in: [check_accuracy] that returns
    leaves it in evaluation mode, [train] that returns after at least one
    epoch leaves it in training mode. *)
Theorem mode_after_call model loss_fn o num_epochs (loader : DataLoader fw) w :
  (fst (check_accuracy fw model loader w) = Ok tt ->
   mode_is model false (snd (check_accuracy fw model loader w))) /\
  (fst (train fw train_data test_data model loss_fn o num_epochs w) = Ok tt ->
   (0 < num_epochs)%Z ->
   mode_is model true (snd (train fw train_data test_data model loss_fn o num_epochs w))).
Proof.
  split.
  - destruct (check_accuracy fw model loader w) as [r w'] eqn:E. cbn [fst snd]. intros ->.
    unfold check_accuracy in E.
    apply bind_inv in E as [(c & w1 & Hc & Hr)|(e & _ & He)]; [|discriminate He].
    destruct (writes_check_accuracy_report (forward_writes model) c _ _ _ Hr) as [Hrep _].
    apply (mode_is_kept _ _ _ _ _ Hrep); [cbn; unfold nothing; auto|].
    unfold check_accuracy_counts in Hc.
    apply bind_inv in Hc as [(a & w2 & _ & Hc)|(e & _ & He)]; [|discriminate He].
    apply bind_inv in Hc as [(b & w3 & Hm & Hc)|(e & _ & He)]; [|discriminate He].
    apply Module_set_mode_sets in Hm.
    destruct (writes_check_accuracy_loop model loader _ _ _ _ _ Hc) as [Hloop _].
    apply (mode_is_kept _ _ _ _ _ Hloop); [cbn; unfold nothing; auto | exact Hm].
  - destruct (train fw train_data test_data model loss_fn o num_epochs w) as [r w'] eqn:E.
    cbn [fst snd]. intros -> Hn. unfold train, for_each in E.
    apply (train_epochs_mode _ _ _ _ _ _ _ _ _ E).
    intros Hnil. apply (f_equal (@length Z)) in Hnil. rewrite length_range in Hnil.
    cbn [length] in Hnil. lia.
Qed.

(** X12.  [train] with no epoch to run returns at once: no line is printed, the
    model is not put in training mode, the world is as before. *)
Theorem train_no_epochs model loss_fn o num_epochs w :
  (num_epochs <= 0)%Z ->
  train fw train_data test_data model loss_fn o num_epochs w = (Ok tt, w).
Proof.
  intros Hn. unfold train, for_each, range.
  replace (Z.to_nat (num_epochs - 0)) with 0 by lia. reflexivity.
Qed.

(** ** The lines of an epoch and the counts of [check_accuracy] *)

Lemma losses_app tr1 tr2 : losses (tr1 ++ tr2) = losses tr1 ++ losses tr2.
Proof. apply omap_app. Qed.

Lemma progress_events_losses t l : losses (progress_events t l) = [].
Proof.
  unfold progress_events. destruct ((Z.of_nat t + 1) mod print_every =? 0)%Z; reflexivity.
Qed.

Lemma losses_loop_events m o tgt t batches (outs : list Out) :
  length outs = length batches ->
  losses (loop_events m o tgt t batches outs) = map snd outs.
Proof.
  revert t outs. induction batches as [|idxs batches IH]; intros t [|out outs] Hlen;
    try discriminate Hlen; [reflexivity|].
  cbn [loop_events map]. unfold step_events.
  change (losses (EvFetch idxs :: ?l)) with (losses l).
  rewrite !losses_app, progress_events_losses. cbn [app].
  rewrite IH by (cbn in Hlen; lia). reflexivity.
Qed.

Lemma prints_loop_events m o tgt t batches (outs : list Out) :
  length outs = length batches ->
  prints (loop_events m o tgt t batches outs) =
  map (fun i => progress_line (Z.of_nat i + 1) (nth (i - t) (map snd outs) Fnan))
      (printing_iterations t (length batches)).
Proof.
  revert t outs. induction batches as [|idxs batches IH]; intros t [|out outs] Hlen;
    try discriminate Hlen; [reflexivity|].
  cbn [loop_events length]. unfold step_events.
  change (prints (EvFetch idxs :: ?l)) with (prints l).
  rewrite !prints_app. cbn [prints omap app].
  rewrite IH by (cbn in Hlen; lia).
  unfold printing_iterations. cbn [seq List.filter]. unfold progress_events.
  assert (Hrest :
    map (fun i => progress_line (Z.of_nat i + 1) (nth (i - S t) (map snd outs) Fnan))
        (List.filter (fun i => ((Z.of_nat i + 1) mod print_every =? 0)%Z)
                     (seq (S t) (length batches)))
    = map (fun i => progress_line (Z.of_nat i + 1)
                      (nth (i - t) (map snd (out :: outs)) Fnan))
          (List.filter (fun i => ((Z.of_nat i + 1) mod print_every =? 0)%Z)
                       (seq (S t) (length batches)))).
  { apply map_ext_in. intros i Hi. apply List.filter_In in Hi as [Hi _].
    apply in_seq in Hi. replace (i - t) with (S (i - S t)) by lia. reflexivity. }
  destruct ((Z.of_nat t + 1) mod print_every =? 0)%Z.
  - cbn [prints omap app map]. rewrite Nat.sub_diag. cbn [nth map snd].
    f_equal. exact Hrest.
  - cbn [prints omap app]. exact Hrest.
Qed.

Lemma printing_iterations_train :
  printing_iterations 0 num_batches = [99; 199; 299; 399; 499; 599; 699].
Proof. vm_compute. reflexivity. Qed.

Lemma count_from_one (a : Z) : count_from a 1 = [a].
Proof. reflexivity. Qed.

(** X13.  A call of [train] for one epoch that returns prints eight lines: the
    line that opens the epoch, then one progress line for each of the
    iterations 100, 200, ..., 700 of the 766, each with the loss computed in
    that iteration. *)
Theorem train_prints_seven_progress_lines model loss_fn o w :
  fst (train fw train_data test_data model loss_fn o 1 w) = Ok tt ->
  exists tr,
    trace (snd (train fw train_data test_data model loss_fn o 1 w)) = trace w ++ tr /\
    length (losses tr) = 766 /\
    prints tr =
      epoch_line 1 1
      :: map (fun t => progress_line (Z.of_nat t + 1) (nth t (losses tr) Fnan))
             [99; 199; 299; 399; 499; 599; 699].
Proof.
  intros Hok.
  destruct (run_spec_at fw _ _ w (run_train fw train_data test_data model loss_fn o 1))
    as (tr & Htr & _ & outss & Hlen & Hshape).
  rewrite Hok in Hlen, Hshape. destruct (Hlen tt eq_refl) as [Hl Hall].
  cbn [shape] in Hshape. exists tr. split; [exact Htr|].
  destruct outss as [|outs [|? ?]]; try discriminate Hl.
  apply Forall_cons in Hall as [Houts _].
  assert (Hev : tr = [EvPrint (epoch_line 1 1); EvMode model true]
                     ++ loop_events model (opt_id o) (opt_target o) 0
                          loader_train_batches outs).
  { rewrite Hshape. unfold range. change (Z.to_nat (1 - 0)) with 1.
    rewrite count_from_one. cbn [train_events]. rewrite app_nil_r. reflexivity. }
  assert (Hlosses : losses tr = map snd outs).
  { rewrite Hev, losses_app. cbn [losses omap app].
    apply losses_loop_events. exact Houts. }
  split.
  - rewrite Hlosses, length_map.
    transitivity (length loader_train_batches);
      [exact Houts | apply length_loader_train_batches].
  - rewrite Hlosses. rewrite Hev at 1. rewrite prints_app. cbn [prints omap app].
    f_equal. rewrite (prints_loop_events _ _ _ _ _ _ Houts).
    rewrite length_loader_train_batches, printing_iterations_train.
    apply map_ext. intros t. now rewrite Nat.sub_0_r.
Qed.

(** X14.  The counters of [check_accuracy] after its loop: never more correct
    predictions than samples, and as many samples as the loader has indices,
    1000 for [loader_val] and every example of the test split for
    [loader_test].  With at least one sample (and no more than a double
    counts exactly) the call returns, and the percentage on the result line
    is a double between 0 and 100. *)
Theorem check_accuracy_counts_bounds model (loader : DataLoader fw) w num_correct num_samples :
  fst (check_accuracy_counts fw model loader w) = Ok (num_correct, num_samples) ->
  (0 <= num_correct <= num_samples)%Z /\
  (loader = loader_val fw train_data test_data -> num_samples = 1000%Z) /\
  (loader = loader_test fw train_data test_data ->
   num_samples = Z.max 0 (ex_len fw test_data)) /\
  (num_samples <> 0%Z -> exact_count num_samples ->
   exists percent tr,
     fst (check_accuracy fw model loader w) = Ok tt /\
     trace (snd (check_accuracy fw model loader w)) = trace w ++ tr /\
     List.last (prints tr) ""%string = result_line num_correct num_samples (Fnum percent) /\
     (0 <= percent <= 100)%Q).
Proof.
  intros H.
  destruct (check_accuracy_after_loop fw model loader w _ _ H)
    as (outs & Htr1 & _ & _ & Hn & Hb & _ & _ & _ & Hacc).
  split; [exact Hb|]. split; [|split].
  - intros ->. rewrite Hn. unfold DataLoader_indices. cbn [sampler loader_val].
    rewrite ChunkSampler_iter_seqZ, length_seqZ. reflexivity.
  - intros ->. rewrite Hn. unfold DataLoader_indices.
    cbn [sampler loader_test dataset data cifar10_test CIFAR10].
    rewrite length_range. lia.
  - intros Hnz Hex.
    destruct (Hacc Hnz Hex) as (acc & percent & _ & _ & _ & _ & _ & Hp & Hok & Htr2).
    exists percent. eexists. split; [exact Hok|].
    split; [rewrite Htr2, Htr1, <- !app_assoc; reflexivity|].
    split; [|exact Hp].
    rewrite !prints_app. cbn [prints omap]. rewrite !app_assoc. apply last_last.
Qed.

(** ** One iteration of training, on the state *)

(** The outcome of the statements of an iteration when they return. *)

Lemma Tensor_type_returns {A} dt (t a : A) w w' :
  Tensor_type fw dt t w = (Ok a, w') ->
  a = t /\ modules w' = modules w /\ opt_states w' = opt_states w.
Proof.
  unfold Tensor_type, bind, lift, ret. destruct (fw_available fw dt); [|discriminate].
  intros H. injection H as <- <-. auto.
Qed.

Lemma Module_call_returns m x sc w w' md :
  Module_call fw m x w = (Ok sc, w') -> modules w !! m = Some md ->
  exists s b',
    fw_forward fw (layers md) (training md) (params md) (buffers md) x = Ok (s, b') /\
    sc = mkScores fw s m x /\
    modules w' = <[m := mkModule fw (layers md) (training md) (params md) b' (grad md)]>
                   (modules w) /\
    opt_states w' = opt_states w.
Proof.
  unfold Module_call, bind, get_module. intros H E. rewrite E in H. unfold lift in H.
  destruct (fw_forward fw (layers md) (training md) (params md) (buffers md) x)
    as [[s b']|e]; [|discriminate H].
  injection H as <- <-. exists s, b'. auto.
Qed.

Lemma loss_call_returns loss_fn sc y l w w' :
  loss_call fw loss_fn sc y w = (Ok l, w') ->
  loss_fn (scores_data fw sc) y = Ok (loss_item fw l) /\
  l = mkLoss fw (loss_item fw l) (scores_module fw sc) (scores_input fw sc) y /\
  modules w' = modules w /\ opt_states w' = opt_states w.
Proof.
  unfold loss_call, bind, lift. destruct (loss_fn (scores_data fw sc) y) as [q|e];
    [|discriminate]. intros H. injection H as <- <-. auto.
Qed.

Lemma progress_returns t l u w w' :
  (if ((Z.of_nat t + 1) mod print_every =? 0)%Z
   then print_format fw "t = %d, loss = %.4f" [AInt (Z.of_nat t + 1); AFloat l]
   else ret tt) w = (Ok u, w') ->
  modules w' = modules w /\ opt_states w' = opt_states w.
Proof.
  destruct ((Z.of_nat t + 1) mod print_every =? 0)%Z.
  - unfold print_format, bind. rewrite format_progress. cbn. intros H.
    injection H as _ <-. auto.
  - intros H. injection H as _ <-. auto.
Qed.

Lemma Optimizer_zero_grad_returns o u w w' md :
  Optimizer_zero_grad fw o w = (Ok u, w') -> modules w !! opt_target o = Some md ->
  modules w' = <[opt_target o :=
                   mkModule fw (layers md) (training md) (params md) (buffers md)
                            (fw_zero fw <$> grad md)]> (modules w) /\
  opt_states w' = opt_states w.
Proof.
  unfold Optimizer_zero_grad, bind, get_module. intros H E. rewrite E in H.
  injection H as _ <-. auto.
Qed.

Lemma Loss_backward_returns l u w w' md :
  Loss_backward fw l w = (Ok u, w') -> modules w !! loss_module fw l = Some md ->
  exists g,
    fw_backward fw (layers md) (params md) (loss_input fw l) (loss_target fw l) (grad md)
      = Ok g /\
    modules w' = <[loss_module fw l :=
                     mkModule fw (layers md) (training md) (params md) (buffers md) (Some g)]>
                   (modules w) /\
    opt_states w' = opt_states w.
Proof.
  unfold Loss_backward, bind, get_module. intros H E. rewrite E in H. unfold lift in H.
  destruct (fw_backward fw (layers md) (params md) (loss_input fw l) (loss_target fw l)
                        (grad md)) as [g|e]; [|discriminate H].
  injection H as _ <-. exists g. auto.
Qed.

Lemma Optimizer_step_returns o u w w' md g :
  Optimizer_step fw o w = (Ok u, w') -> modules w !! opt_target o = Some md ->
  grad md = Some g ->
  exists st p,
    fw_step fw (opt_kind o) (opt_states w !! opt_id o) (params md) g = Ok (st, p) /\
    modules w' = <[opt_target o :=
                     mkModule fw (layers md) (training md) p (buffers md) (Some g)]>
                   (modules w) /\
    opt_states w' = <[opt_id o := st]> (opt_states w).
Proof.
  unfold Optimizer_step, bind, get_module. intros H E Eg. rewrite E in H. rewrite Eg in H.
  destruct (fw_step fw (opt_kind o) (opt_states w !! opt_id o) (params md) g)
    as [[st p]|e]; [|discriminate H].
  injection H as _ <-. exists st, p. auto.
Qed.

(** X15.  What an iteration of training that returns has done, when the
    optimizer is over the parameters of the model: the forward pass, the loss
    and the gradient are computed at the parameters the iteration found; the
    gradient is computed from a zeroed one, so it is the gradient of this
    batch alone; the step updates the parameters with it, and the state of
    the optimizer. *)
Theorem train_step_updates model loss_fn o t x y w md :
  fst (train_step fw model loss_fn o t (x, y) w) = Ok tt ->
  opt_target o = parameters model ->
  modules w !! model = Some md ->
  exists s b' l g st p',
    fw_forward fw (layers md) (training md) (params md) (buffers md) x = Ok (s, b') /\
    loss_fn s y = Ok l /\
    fw_backward fw (layers md) (params md) x y (fw_zero fw <$> grad md) = Ok g /\
    fw_step fw (opt_kind o) (opt_states w !! opt_id o) (params md) g = Ok (st, p') /\
    modules (snd (train_step fw model loss_fn o t (x, y) w)) !! model
      = Some (mkModule fw (layers md) (training md) p' b' (Some g)) /\
    opt_states (snd (train_step fw model loss_fn o t (x, y) w)) !! opt_id o = Some st.
Proof.
  destruct (train_step fw model loss_fn o t (x, y) w) as [r w'] eqn:E.
  cbn [fst snd]. intros -> Ho Emd. unfold parameters in Ho.
  unfold train_step in E. cbn [fst snd] in E.
  apply bind_inv in E as [(x_var & w1 & H1 & E)|(e & _ & He)]; [|discriminate He].
  apply Tensor_type_returns in H1 as (-> & Hm1 & Ho1).
  apply bind_inv in E as [(y_var & w2 & H2 & E)|(e & _ & He)]; [|discriminate He].
  apply Tensor_type_returns in H2 as (-> & Hm2 & Ho2).
  apply bind_inv in E as [(sc & w3 & H3 & E)|(e & _ & He)]; [|discriminate He].
  apply (Module_call_returns _ _ _ _ _ md) in H3 as (s & b' & Hf & -> & Hm3 & Ho3);
    [|now rewrite Hm2, Hm1].
  apply bind_inv in E as [(l & w4 & H4 & E)|(e & _ & He)]; [|discriminate He].
  apply loss_call_returns in H4 as (Hl & Hlv & Hm4 & Ho4). cbn in Hl, Hlv.
  apply bind_inv in E as [(u5 & w5 & H5 & E)|(e & _ & He)]; [|discriminate He].
  apply progress_returns in H5 as (Hm5 & Ho5).
  apply bind_inv in E as [(u6 & w6 & H6 & E)|(e & _ & He)]; [|discriminate He].
  set (md3 := mkModule fw (layers md) (training md) (params md) b' (grad md)) in *.
  assert (E5 : modules w5 !! opt_target o = Some md3).
  { rewrite Hm5, Hm4, Hm3, Ho. apply lookup_insert_eq. }
  apply (Optimizer_zero_grad_returns _ _ _ _ md3) in H6 as (Hm6 & Ho6); [|exact E5].
  cbn [layers training params buffers grad md3] in Hm6.
  apply bind_inv in E as [(u7 & w7 & H7 & E)|(e & _ & He)]; [|discriminate He].
  set (md6 := mkModule fw (layers md) (training md) (params md) b'
                       (fw_zero fw <$> grad md)) in *.
  assert (El : loss_module fw l = model) by (rewrite Hlv; reflexivity).
  assert (E6 : modules w6 !! loss_module fw l = Some md6).
  { rewrite El, Hm6, Ho. apply lookup_insert_eq. }
  apply (Loss_backward_returns _ _ _ _ md6) in H7 as (g & Hg & Hm7 & Ho7); [|exact E6].
  cbn [layers training params buffers grad md6] in Hg, Hm7.
  assert (Hin : loss_input fw l = x /\ loss_target fw l = y) by (rewrite Hlv; auto).
  destruct Hin as [Hx Hy]. rewrite Hx, Hy in Hg. rewrite El in Hm7.
  set (md7 := mkModule fw (layers md) (training md) (params md) b' (Some g)) in *.
  assert (E7 : modules w7 !! opt_target o = Some md7).
  { rewrite Hm7, Ho. apply lookup_insert_eq. }
  apply (Optimizer_step_returns _ _ _ _ md7 g) in E as (st & p' & Hs & Hm8 & Ho8);
    [|exact E7 | reflexivity].
  cbn [layers training params buffers grad md7] in Hs, Hm8.
  exists s, b', (loss_item fw l), g, st, p'.
  split; [exact Hf|]. split; [exact Hl|]. split; [exact Hg|]. split.
  - rewrite <- Hs. do 2 f_equal. now rewrite Ho7, Ho6, Ho5, Ho4, Ho3, Ho2, Ho1.
  - split.
    + rewrite Hm8, Ho. apply lookup_insert_eq.
    + rewrite Ho8. apply lookup_insert_eq.
Qed.

(** ** The examples the loaders read *)

Lemma collate_in_range (ds : Dataset fw) idxs :
  Forall (fun i => (0 <= i < ex_len fw (data ds))%Z) idxs ->
  exists x, collate fw ds idxs = Ok (x, Dataset_labels fw ds idxs) /\
            length x = length idxs.
Proof.
  induction 1 as [|i idxs Hi _ IH].
  - exists []. split; reflexivity.
  - destruct IH as (x & Hx & Hlen). cbn [collate]. unfold Dataset_getitem, Dataset_position.
    destruct (Z.ltb_spec i 0); [lia|].
    destruct (Z.leb_spec 0 i); [|lia]. destruct (Z.ltb_spec i (ex_len fw (data ds))); [|lia].
    cbn [andb rbind]. rewrite Hx. cbn [rbind fst snd].
    exists (fst (ex_item fw (data ds) i) :: x). split.
    + unfold Dataset_labels, Dataset_position. cbn [map].
      destruct (Z.ltb_spec i 0); [lia|]. reflexivity.
    + cbn [length]. now rewrite Hlen.
Qed.

Lemma elem_of_concat {A} (x : A) (l : list A) (ls : list (list A)) :
  x ∈ l -> l ∈ ls -> x ∈ concat ls.
Proof.
  intros Hx. induction ls as [|l' ls IH]; intros Hl; [inversion Hl|].
  cbn [concat]. apply elem_of_app. apply elem_of_cons in Hl as [<-|Hl]; auto.
Qed.

Lemma BatchSampler_iter_elem bs (s : ChunkSampler) idxs i :
  idxs ∈ BatchSampler_iter bs (ChunkSampler_iter s) -> i ∈ idxs ->
  (start s <= i < start s + num_samples s)%Z.
Proof.
  intros Hin Hi.
  assert (Hc : i ∈ concat (BatchSampler_iter bs (ChunkSampler_iter s))).
  { eapply elem_of_concat; eassumption. }
  unfold BatchSampler_iter in Hc. rewrite BatchSampler_go_concat in Hc.
  cbn [rev app] in Hc. rewrite ChunkSampler_iter_seqZ in Hc.
  now apply elem_of_seqZ in Hc.
Qed.

Lemma loader_val_batches_eq :
  loader_val_batches = BatchSampler_iter 64 (ChunkSampler_iter sampler_val).
Proof. reflexivity. Qed.

(** X17.  With a training split of at least 50000 examples every batch of
    [loader_train] and of [loader_val] is fetched without an IndexError: the
    loader yields as many images as the batch has indices, with the labels
    at those indices. *)
Theorem loaders_read_within_the_split idxs :
  (50000 <= ex_len fw train_data)%Z ->
  idxs ∈ loader_train_batches \/ idxs ∈ loader_val_batches ->
  exists x,
    collate fw (cifar10_train fw train_data test_data) idxs
      = Ok (x, Dataset_labels fw (cifar10_train fw train_data test_data) idxs) /\
    length x = length idxs.
Proof.
  intros Hlen Hin. apply collate_in_range.
  change (ex_len fw (data (cifar10_train fw train_data test_data)))
    with (ex_len fw train_data).
  apply Forall_forall. intros i Hi.
  rewrite loader_train_batches_eq, loader_val_batches_eq in Hin.
  destruct Hin as [Hin|Hin];
    pose proof (BatchSampler_iter_elem _ _ _ _ Hin Hi) as Hr;
    cbn [start num_samples sampler_train sampler_val] in Hr;
    unfold NUM_TRAIN, NUM_VAL in Hr; lia.
Qed.

End Frames.

(** ** The further theorems at work on the small framework *)

Lemma Flatten_forward_outcomes_witness :
  (exists msg, Flatten_forward (mkTensor [2; 3]%Z [3; 1]%Z 0 [1; 2; 3; 4; 5; 6]%Z)
               = Raise (ValueError msg)) /\
  Flatten_forward (mkTensor [2; 0; 3; 3]%Z [9; 9; 3; 1]%Z 0 (@nil Z))
  = Ok (mkTensor [2; 0]%Z [1; 1]%Z 0 (@nil Z)).
Proof.
  split.
  - apply (proj1 (Flatten_forward_outcomes
                    (mkTensor [2; 3]%Z [3; 1]%Z 0 [1; 2; 3; 4; 5; 6]%Z))).
    cbn. lia.
  - apply (proj1 (proj2 (proj2 (Flatten_forward_outcomes
                    (mkTensor [2; 0; 3; 3]%Z [9; 9; 3; 1]%Z 0 (@nil Z))))) 2 0 3 3)%Z;
      [reflexivity | lia | lia].
Defined.

Lemma mode_after_call_witness :
  mode_is 0 false (snd (check_accuracy (toy (-1)) 0 toy_loader toy_world)).
Proof.
  apply (proj1 (mode_after_call (toy (-1)) (toy_data (-1) 50000) (toy_data (-1) 10000)
                  0 (CrossEntropyLoss (toy (-1))) toy_optimizer 1 toy_loader toy_world)).
  vm_compute. reflexivity.
Defined.

Lemma train_no_epochs_witness :
  train (toy (-1)) (toy_data (-1) 50000) (toy_data (-1) 10000)
        0 (CrossEntropyLoss (toy (-1))) toy_optimizer 0 toy_world = (Ok tt, toy_world).
Proof.
  apply (train_no_epochs (toy (-1)) (toy_data (-1) 50000) (toy_data (-1) 10000)
           0 (CrossEntropyLoss (toy (-1))) toy_optimizer 0 toy_world).
  lia.
Defined.

Lemma train_prints_seven_progress_lines_witness :
  exists tr,
    trace (snd (train (toy (-1)) (toy_data (-1) 50000) (toy_data (-1) 10000)
                      0 (CrossEntropyLoss (toy (-1))) toy_optimizer 1 toy_world))
      = trace toy_world ++ tr /\
    length (losses tr) = 766 /\
    prints tr =
      epoch_line 1 1
      :: map (fun t => progress_line (Z.of_nat t + 1) (nth t (losses tr) Fnan))
             [99; 199; 299; 399; 499; 599; 699].
Proof.
  apply (train_prints_seven_progress_lines (toy (-1)) (toy_data (-1) 50000)
           (toy_data (-1) 10000) 0 (CrossEntropyLoss (toy (-1))) toy_optimizer toy_world).
  vm_compute. reflexivity.
Defined.

Lemma check_accuracy_counts_bounds_witness :
  fst (check_accuracy_counts (toy (-1)) 0 toy_loader toy_world) = Ok (14, 130)%Z /\
  130%Z <> 0%Z /\ exact_count 130 /\
  (0 <= 14 <= 130)%Z /\
  exists percent tr,
    fst (check_accuracy (toy (-1)) 0 toy_loader toy_world) = Ok tt /\
    trace (snd (check_accuracy (toy (-1)) 0 toy_loader toy_world)) = trace toy_world ++ tr /\
    List.last (prints tr) ""%string = result_line 14 130 (Fnum percent) /\
    (0 <= percent <= 100)%Q.
Proof.
  assert (H : fst (check_accuracy_counts (toy (-1)) 0 toy_loader toy_world)
              = Ok (14, 130)%Z) by (vm_compute; reflexivity).
  assert (Hnz : 130%Z <> 0%Z) by lia.
  assert (Hex : exact_count 130) by (unfold exact_count; cbn; lia).
  destruct (check_accuracy_counts_bounds (toy (-1)) (toy_data (-1) 50000)
              (toy_data (-1) 10000) 0 toy_loader toy_world 14 130 H) as (H1 & _ & _ & H2).
  split; [exact H|]. split; [exact Hnz|]. split; [exact Hex|].
  split; [exact H1 | exact (H2 Hnz Hex)].
Defined.

Lemma train_step_updates_witness :
  exists s b' l g st p',
    toy_forward (-1) simple_model_layers true 0 tt [3; 4]%Z = Ok (s, b') /\
    CrossEntropyLoss (toy (-1)) s [3; 4]%Z = Ok l /\
    fw_backward (toy (-1)) simple_model_layers 0%Z [3; 4]%Z [3; 4]%Z None = Ok g /\
    fw_step (toy (-1)) (Adam (1 # 100)) (opt_states toy_world !! 1) 0%Z g = Ok (st, p') /\
    modules (snd (train_step (toy (-1)) 0 (CrossEntropyLoss (toy (-1))) toy_optimizer 0
                    ([3; 4]%Z, [3; 4]%Z) toy_world)) !! 0
      = Some (mkModule (toy (-1)) simple_model_layers true p' b' (Some g)) /\
    opt_states (snd (train_step (toy (-1)) 0 (CrossEntropyLoss (toy (-1))) toy_optimizer 0
                      ([3; 4]%Z, [3; 4]%Z) toy_world)) !! 1 = Some st.
Proof.
  apply (train_step_updates (toy (-1)) 0 (CrossEntropyLoss (toy (-1))) toy_optimizer 0
           [3; 4]%Z [3; 4]%Z toy_world
           (mkModule (toy (-1)) simple_model_layers true 0%Z tt None)).
  - vm_compute. reflexivity.
  - reflexivity.
  - vm_compute. reflexivity.
Defined.

Lemma loaders_read_within_the_split_witness :
  exists x,
    collate (toy (-1)) (cifar10_train (toy (-1)) (toy_data (-1) 50000) (toy_data (-1) 10000))
            (count_from 49000 64)
      = Ok (x, Dataset_labels (toy (-1))
                 (cifar10_train (toy (-1)) (toy_data (-1) 50000) (toy_data (-1) 10000))
                 (count_from 49000 64)) /\
    length x = length (count_from 49000 64).
Proof.
  apply (loaders_read_within_the_split (toy (-1)) (toy_data (-1) 50000)
           (toy_data (-1) 10000) (count_from 49000 64)).
  - cbn. lia.
  - right. apply (list_elem_of_lookup_2 _ 0). vm_compute. reflexivity.
Defined.
